(** * An RPC endpoint tester: the probe engine of [script.ts]

    A shallow embedding of the class [RPCTester] and of [main], with the
    JavaScript primitives they rest on ([String.prototype.includes],
    [parseInt], [BigInt], [Number.prototype.toString], [toFixed]), followed by
    the properties of the probes and of the suite runner. *)

From Stdlib Require Import ZArith QArith Qround Qabs Qpower Ascii String List Bool Lia.
From stdpp Require Import base option list gmap strings.

Open Scope Z_scope.

(** ** JavaScript primitives *)

Module JS.

(** A string is carried by the bytes of its UTF-8 encoding, which is how the
    response body brings it.  A text inside another is found at the same
    places whether one compares bytes or UTF-16 code units; the two differ for
    white space outside ASCII and for [slice], which are written out below. *)

(** [s.includes(pat)]: [pat] occurs in [s] as a contiguous substring. *)
Fixpoint includes (s pat : string) : bool :=
  String.prefix pat s ||
  match s with
  | EmptyString => false
  | String _ s' => includes s' pat
  end.

(** Thrown values.  The probes only ever read [.message]. *)
Inductive Exn : Type :=
| Error (message : string)
| SyntaxError (message : string)
| TypeError (message : string).

Definition message (e : Exn) : string :=
  match e with
  | Error m | SyntaxError m | TypeError m => m
  end.

(** *** Numbers

    A number is a double: [NaN], an infinity, or a finite value, carried
    exactly.  A finite double is an integer, [Num z], or has a fractional
    part; it is then an odd integer over a power of two in exactly one way,
    and [Frac h k] stands for [(2h + 1) / 2^k].  Negative zero is not told
    apart from zero: the program neither divides by a number it read nor
    prints one in a way that would show the sign. *)
Inductive Number : Type :=
| NaN
| Infinity
| NegInfinity
| Num (z : Z)
| Frac (h : Z) (k : positive).

(** The value of a finite number. *)
Definition valueOf (n : Number) : option Q :=
  match n with
  | Num z => Some (inject_Z z)
  | Frac h k => Some ((2 * h + 1) # (2 ^ k))
  | _ => None
  end.

(** Where a number stands among the others: the infinities below and above
    every finite value; [NaN] nowhere. *)
Definition rank (n : Number) : option (Z * Q) :=
  match n with
  | NaN => None
  | NegInfinity => Some (-1, 0%Q)
  | Infinity => Some (1, 0%Q)
  | Num z => Some (0, inject_Z z)
  | Frac h k => Some (0, (2 * h + 1) # (2 ^ k))
  end.

(** [a > b] on numbers: every comparison with [NaN] is false. *)
Definition gt (a b : Number) : bool :=
  match rank a, rank b with
  | Some (la, x), Some (lb, y) =>
      (lb <? la) || ((lb =? la) && negb (Qle_bool x y))
  | _, _ => false
  end.

(** [a !== b] on numbers: [NaN] differs from everything, itself included. *)
Definition strict_ne (a b : Number) : bool :=
  match a, b with
  | Num x, Num y => negb (x =? y)
  | Frac h k, Frac h' k' => negb ((h =? h') && (k =? k')%positive)
  | Infinity, Infinity | NegInfinity, NegInfinity => false
  | _, _ => true
  end.

(** Truthiness of a number: [0] and [NaN] are falsy. *)
Definition truthy (a : Number) : bool :=
  match a with
  | NaN => false
  | Num z => negb (z =? 0)
  | _ => true
  end.

Definition negative (n : Number) : bool :=
  match n with
  | NegInfinity => true
  | Num z => z <? 0
  | Frac h _ => h <? 0
  | _ => false
  end.

(** *** Rounding to a double *)

Definition pow2 (e : Z) : Q := Qpower 2 e.

Definition roundTiesToEven (x : Q) : Z :=
  let n := Qfloor x in
  match Qcompare (x - inject_Z n) (1 # 2) with
  | Lt => n
  | Gt => n + 1
  | Eq => if Z.even n then n else n + 1
  end.

(** The number whose value is [q], an integer over a power of two. *)
Definition ofDyadic (q : Q) : Number :=
  let r := Qred q in
  match Qden r with
  | 1%positive => Num (Qnum r)
  | d => Frac ((Qnum r - 1) / 2) (Pos.pred (Pos.size d))
  end.

(** The double nearest to [x], ties to the even significand: 53 significant
    bits, none below 2^-1074, and an infinity from 2^1024 on. *)
Definition nearestDouble (x : Q) : Number :=
  match Qnum x with
  | 0 => Num 0
  | _ =>
      let a := Qabs x in
      let e0 := Z.log2 (Qnum a) - Z.log2 (Zpos (Qden a)) in
      let e := if Qle_bool (pow2 e0) a then e0 else e0 - 1 in
      let p := Z.max (e - 52) (-1074) in
      let r := (inject_Z (roundTiesToEven (a * pow2 (- p))) * pow2 p)%Q in
      if Qle_bool (pow2 1024) r
      then (if Qnum x <? 0 then NegInfinity else Infinity)
      else ofDyadic (if Qnum x <? 0 then Qopp r else r)
  end.

(** *** Digits *)

Definition byte (c : ascii) : Z := Z.of_nat (nat_of_ascii c).

(** The value of a character as a digit: [0-9], then [a-z] or [A-Z] for 10
    to 35. *)
Definition digitValue (c : ascii) : option Z :=
  let n := byte c in
  if (48 <=? n) && (n <=? 57) then Some (n - 48)
  else if (97 <=? n) && (n <=? 122) then Some (n - 87)
  else if (65 <=? n) && (n <=? 90) then Some (n - 55)
  else None.

Definition isDigit (radix : Z) (c : ascii) : bool :=
  match digitValue c with
  | Some d => d <? radix
  | None => false
  end.

(** The longest prefix of [s] made of digits of the radix, and what follows. *)
Fixpoint spanDigits (radix : Z) (s : string) : string * string :=
  match s with
  | EmptyString => (EmptyString, EmptyString)
  | String c s' =>
      if isDigit radix c
      then let '(ds, rest) := spanDigits radix s' in (String c ds, rest)
      else (EmptyString, s)
  end.

(** The mathematical value of a digit string read left to right from [acc]. *)
Fixpoint digitsValue (radix : Z) (s : string) (acc : Z) : Z :=
  match s with
  | EmptyString => acc
  | String c s' =>
      digitsValue radix s' (acc * radix + default 0 (digitValue c))
  end.

(** *** White space

    White space and line terminators: tab, line feed, vertical tab, form
    feed, carriage return and space in one byte; U+00A0 in two; U+1680,
    U+2000 to U+200A, U+2028, U+2029, U+202F, U+205F, U+3000 and U+FEFF in
    three. *)
Definition isWhiteSpace (c : ascii) : bool :=
  ((9 <=? byte c) && (byte c <=? 13)) || (byte c =? 32).

Definition isWhiteSpace2 (c1 c2 : ascii) : bool :=
  (byte c1 =? 194) && (byte c2 =? 160).

Definition isWhiteSpace3 (c1 c2 c3 : ascii) : bool :=
  match byte c1, byte c2 with
  | 225, 154 => byte c3 =? 128
  | 226, 128 =>
      ((128 <=? byte c3) && (byte c3 <=? 138)) ||
      (byte c3 =? 168) || (byte c3 =? 169) || (byte c3 =? 175)
  | 226, 129 => byte c3 =? 159
  | 227, 128 => byte c3 =? 128
  | 239, 187 => byte c3 =? 191
  | _, _ => false
  end.

Fixpoint trimStart (s : string) : string :=
  match s with
  | EmptyString => EmptyString
  | String c1 s1 =>
      if isWhiteSpace c1 then trimStart s1
      else if byte c1 <? 194 then s
      else
        match s1 with
        | String c2 s2 =>
            if isWhiteSpace2 c1 c2 then trimStart s2
            else
              match s2 with
              | String c3 s3 =>
                  if isWhiteSpace3 c1 c2 c3 then trimStart s3 else s
              | EmptyString => s
              end
        | EmptyString => s
        end
  end.

Definition isBlank (s : string) : bool :=
  match trimStart s with
  | EmptyString => true
  | _ => false
  end.

(** [s.slice(0, units)]: the first UTF-16 code units of [s].  A character of
    up to three bytes is one unit and one of four bytes is two; the bytes
    after the first of a character go with it.  When the last unit would be
    the first half of a four-byte character, what is left is a lone
    surrogate, which the console prints as U+FFFD. *)
Definition replacementCharacter : string :=
  String (ascii_of_nat 239)
    (String (ascii_of_nat 191) (String (ascii_of_nat 189) EmptyString)).

Fixpoint sliceStart (units : nat) (s : string) : string :=
  match s with
  | EmptyString => EmptyString
  | String c s' =>
      if (128 <=? byte c) && (byte c <? 192) then String c (sliceStart units s')
      else
        match units with
        | O => EmptyString
        | S u =>
            if byte c <? 240 then String c (sliceStart u s')
            else
              match u with
              | O => replacementCharacter
              | S u' => String c (sliceStart u' s')
              end
        end
  end.

(** *** [parseInt(string, radix)]

    [radix = 0] stands for an omitted radix.  The result is the double
    nearest to the integer read.  (In radix 10 an implementation may take the
    digits after the twentieth for zeros; the one decimal text the program
    reads is the expected chain id of the command line.) *)
Definition stripHexPrefix (s : string) : option string :=
  match s with
  | String "0" (String "x" s') | String "0" (String "X" s') => Some s'
  | _ => None
  end.

Definition parseInt (input : string) (radix : Z) : Number :=
  let s := trimStart input in
  let '(negative, s) :=
    match s with
    | String "-" s' => (true, s')
    | String "+" s' => (false, s')
    | _ => (false, s)
    end in
  if negb (radix =? 0) && ((radix <? 2) || (36 <? radix)) then NaN
  else
    let stripPrefix := (radix =? 0) || (radix =? 16) in
    let r := if radix =? 0 then 10 else radix in
    let '(r, s) :=
      match (if stripPrefix then stripHexPrefix s else None) with
      | Some s' => (16, s')
      | None => (r, s)
      end in
    match fst (spanDigits r s) with
    | EmptyString => NaN
    | ds =>
        let v := digitsValue r ds 0 in
        nearestDouble (inject_Z (if negative then - v else v))
    end.

(** *** [BigInt(value)] on a string or [undefined]

    [StringToBigInt]: surrounding white space is dropped; the empty text is
    [0n]; otherwise the text is a decimal literal with an optional sign, or an
    unsigned [0x], [0o] or [0b] literal.  Anything else is a [SyntaxError];
    [undefined] is a [TypeError]. *)
Fixpoint allDigits (radix : Z) (s : string) : bool :=
  match s with
  | EmptyString => true
  | String c s' => isDigit radix c && allDigits radix s'
  end.

(** A non-empty digit string of the radix, followed by white space only. *)
Definition literalValue (radix : Z) (s : string) : option Z :=
  let '(ds, rest) := spanDigits radix s in
  match ds with
  | EmptyString => None
  | _ => if isBlank rest then Some (digitsValue radix ds 0) else None
  end.

Definition StringToBigInt (str : string) : option Z :=
  match trimStart str with
  | EmptyString => Some 0
  | String "0" (String "x" s) | String "0" (String "X" s) => literalValue 16 s
  | String "0" (String "o" s) | String "0" (String "O" s) => literalValue 8 s
  | String "0" (String "b" s) | String "0" (String "B" s) => literalValue 2 s
  | String "-" s => Z.opp <$> literalValue 10 s
  | String "+" s => literalValue 10 s
  | s => literalValue 10 s
  end.

(** [BigInt(v)], with [None] for [undefined]. *)
Definition BigInt (v : option string) : Exn + Z :=
  match v with
  | None => inl (TypeError "Cannot convert undefined to a BigInt")
  | Some s =>
      match StringToBigInt s with
      | Some z => inr z
      | None => inl (SyntaxError ("Cannot convert " +:+ s +:+ " to a BigInt"))
      end
  end.

(** *** Printing integers *)

Definition digitChar (d : Z) : ascii :=
  ascii_of_nat (Z.to_nat (if d <? 10 then 48 + d else 87 + d)).

(** The digits of [n >= 0] in the radix, most significant first, put in
    front of [acc]; [fuel] bounds the number of digits. *)
Fixpoint toDigits (radix : Z) (fuel : nat) (n : Z) (acc : string) : string :=
  match fuel with
  | O => acc
  | S fuel' =>
      let acc' := String (digitChar (n mod radix)) acc in
      if n / radix =? 0 then acc' else toDigits radix fuel' (n / radix) acc'
  end.

Definition digitsFuel (n : Z) : nat := S (Z.to_nat (Z.log2 n)).

Definition render (radix : Z) (n : Z) : string :=
  toDigits radix (digitsFuel n) n EmptyString.

Fixpoint zeros (n : nat) : string :=
  match n with
  | O => EmptyString
  | S n' => String "0" (zeros n')
  end.

(** *** [n.toString(16)]

    The standard leaves the digits in a radix other than ten to the
    implementation, as a generalisation of the decimal ones.  In base 16 the
    expansion of a double is finite, and that is what is printed: the digits
    of the integer part, and for [r / 2^k] after the point the digits of [r]
    brought to a whole number of hex digits.  For an integer of more than 53
    bits an implementation may print zeros in place of its lowest digits; the
    properties below depend on the values of the digits for integers under
    2^53 only. *)
Definition fractionDigits16 (r : Z) (k : positive) : string :=
  let n := (Zpos k + 3) / 4 in
  let ds := render 16 (r * 2 ^ (4 * n - Zpos k)) in
  zeros (Z.to_nat n - String.length ds) +:+ ds.

Definition magnitude16 (n : Number) : string :=
  match n with
  | Num z => render 16 (Z.abs z)
  | Frac h k =>
      let m := Z.abs (2 * h + 1) in
      render 16 (m / 2 ^ Zpos k) +:+ "." +:+
      fractionDigits16 (m mod 2 ^ Zpos k) k
  | _ => EmptyString
  end.

Definition toString16 (n : Number) : string :=
  match n with
  | NaN => "NaN"
  | Infinity => "Infinity"
  | NegInfinity => "-Infinity"
  | _ => if negative n then String "-" (magnitude16 n) else magnitude16 n
  end.

(** *** Arithmetic on doubles: the exact operation, then the nearest double *)

(** [Number(b)] for a BigInt [b]. *)
Definition NumberOfBigInt (b : Z) : Number := nearestDouble (inject_Z b).

(** [a / b].  Zero has no sign here; the divisors of the program are 1e9,
    1e18 and lengths of arrays that are not empty. *)
Definition fdiv (a b : Number) : Number :=
  match valueOf a, valueOf b with
  | Some x, Some y =>
      if Qeq_bool y 0 then
        (if Qeq_bool x 0 then NaN
         else if negative a then NegInfinity else Infinity)
      else nearestDouble (x / y)
  | Some _, None => match b with NaN => NaN | _ => Num 0 end
  | None, Some _ =>
      match a with
      | NaN => NaN
      | _ => if xorb (negative a) (negative b) then NegInfinity else Infinity
      end
  | None, None => NaN
  end.

(** [a + b] *)
Definition fadd (a b : Number) : Number :=
  match valueOf a, valueOf b with
  | Some x, Some y => nearestDouble (x + y)
  | Some _, None => b
  | None, Some _ => a
  | None, None =>
      match a, b with
      | Infinity, Infinity => Infinity
      | NegInfinity, NegInfinity => NegInfinity
      | _, _ => NaN
      end
  end.

(** *** Printing numbers in base ten *)

(** The decimal text of an integer [x >= 1e21] held by a double: the fewest
    significant digits that read back as [x], the closest such value (the
    even one of two equally close), in exponent notation. *)
Definition readsAs (v x : Z) : bool :=
  match nearestDouble (inject_Z v) with
  | Num y => y =? x
  | _ => false
  end.

(** The multiples of [p], a power of ten, on either side of [x]; if neither
    reads back as [x], one more digit is tried. *)
Fixpoint shortest (fuel : nat) (p : Z) (x : Z) : Z :=
  match fuel with
  | O => x
  | S fuel' =>
      let lo := x / p * p in
      let hi := lo + p in
      match readsAs lo x, readsAs hi x with
      | true, true =>
          if x - lo <? hi - x then lo
          else if hi - x <? x - lo then hi
          else if Z.even (x / p) then lo else hi
      | true, false => lo
      | false, true => hi
      | false, false => shortest fuel' (p / 10) x
      end
  end.

Fixpoint stripZeros (fuel : nat) (v : Z) : Z :=
  match fuel with
  | O => v
  | S fuel' =>
      if (0 <? v) && (v mod 10 =? 0) then stripZeros fuel' (v / 10) else v
  end.

Definition exponential (x : Z) : string :=
  let d := Z.of_nat (String.length (render 10 x)) in
  let v := shortest 17 (10 ^ (d - 1)) x in
  let all := render 10 v in
  let e := Z.of_nat (String.length all) - 1 in
  let significant := render 10 (stripZeros (String.length all) v) in
  match significant with
  | String c (String c' more) => String c ("." +:+ String c' more)
  | _ => significant
  end +:+ "e+" +:+ render 10 e.

(** The integer [n] closest to [a * 10^f], the larger one on a tie, printed
    with [f] digits after the point. *)
Definition fixed (a : Q) (f : nat) : string :=
  let n := Qfloor (a * inject_Z (10 ^ Z.of_nat f) + (1 # 2)) in
  let m := render 10 n in
  let m := zeros (S f - String.length m) +:+ m in
  let k := (String.length m - f)%nat in
  match f with
  | O => m
  | _ => String.substring 0 k m +:+ "." +:+ String.substring k f m
  end.

(** [x.toFixed(f)]: fixed notation below 1e21, the decimal text of the
    number from there on. *)
Definition toFixed (x : Number) (f : nat) : string :=
  match x with
  | NaN => "NaN"
  | Infinity => "Infinity"
  | NegInfinity => "-Infinity"
  | Num z =>
      let body :=
        if 10 ^ 21 <=? Z.abs z then exponential (Z.abs z)
        else fixed (inject_Z (Z.abs z)) f in
      if z <? 0 then String "-" body else body
  | Frac h k =>
      let body := fixed (Qabs ((2 * h + 1) # (2 ^ k))) f in
      if h <? 0 then String "-" body else body
  end.

End JS.

(** ** The data model *)

(** Request parameters ([any[]]): the probes send strings, integers and an
    array of integers. *)
Inductive Json : Type :=
| JString (s : string)
| JNumber (n : Z)
| JArray (items : list Z).

Record JsonRpcRequest : Type := {
  method : string;
  params : list Json;
  id : Z
}.

(** The [error] member of a response; [data] is never read. *)
Record RpcError : Type := {
  code : Z;
  message : string
}.

(** What [makeRequest] resolves to; [statusCode] and [headers] are never
    read.  [None] is an absent (or [null]) member. *)
Record RpcResponse (T : Type) : Type := {
  result : option T;
  error : option RpcError;
  responseTime : Z;
  httpVersion : string
}.
Arguments result {T}.
Arguments error {T}.
Arguments responseTime {T}.
Arguments httpVersion {T}.

Record BlockNumberResult : Type := {
  blockNumber : JS.Number;
  brResponseTime : Z;
  brHttpVersion : string
}.

(** [string | number] *)
Inductive StringOrNumber : Type :=
| Str (s : string)
| Nbr (n : JS.Number).

Record FeeHistoryResult : Type := {
  baseFeePerGas : option (list StringOrNumber);
  gasUsedRatio : list Q;
  oldestBlock : string;
  reward : option (list (list StringOrNumber))
}.

Record TestResult : Type := {
  passed : Z;
  failed : Z;
  tests : gmap string bool
}.

(** What is truthy among the values a [result] member can hold: a string
    unless empty, an object always. *)
Class Truthy (T : Type) : Type := truthy : T -> bool.

#[export] Instance string_truthy : Truthy string :=
  fun s => negb (String.eqb s "").
#[export] Instance feeHistory_truthy : Truthy FeeHistoryResult :=
  fun _ => true.

(** The transport below [makeRequest], by what becomes of the promise.  It
    resolves when the response ends with a body that parses.  It rejects on
    an error of the request, on the timeout, and on a body that is not JSON.
    It stays pending when the response has begun and the connection closes
    before its end: the response then emits neither ['end'] nor anything on
    the request, and no handler of [makeRequest] runs. *)
Inductive Reply (T : Type) : Type :=
| Resolve (response : RpcResponse T)
| Reject (reason : JS.Exn)
| Pending.
Arguments Resolve {T}.
Arguments Reject {T}.
Arguments Pending {T}.

Class Transport (T : Type) : Type := send : JsonRpcRequest -> Reply T.

(** ** Console output, one constructor per [console.log] of the source *)

Inductive ParameterFormat : Type := FormatHex | FormatNumber.

Inductive Verdict : Type := FullyFunctional | PartiallyFunctional | Down.

Inductive Line : Type :=
| Testing (what : string)
| Failed (message : string)
| ResponseTime (ms : Z)
(* testChainId *)
| ChainId (chainId : JS.Number) (name : option string)
| ChainIdWarning (expected got : JS.Number)
(* testBlockNumber *)
| LatestBlock (n : JS.Number)
| HttpVersion (version : string)
| ResponseTimes (numCalls : Z)
| Average (ms : string)
| Min (ms : Z)
| Max (ms : Z)
| NetworkActive
(* testGetBalance *)
| Address (prefix : string)
| Balance (eth : string) (wei : Z)
(* testFeeHistory *)
| TryingNumberFormat
| Eip1559NotSupported
| Eip1559Supported
| ParameterFormatUsed (format : ParameterFormat)
| RewardField (supported : bool)
| LatestBaseFee (gwei : string)
| AverageBaseFee (gwei : string)
| PriorityFeePercentiles
| Percentile (p : Z) (gwei : string)
| LegacyGasPricing
(* testGasPrice *)
| GasPrice (gwei : string)
(* runAllTests *)
| Rule
| Title (text : string)
| RpcUrl (url : string)
| Protocol (https : bool)
| Crashed (name message : string)
| Counts (passed failed : Z)
| SummaryChainId (chainId : JS.Number)
| SummaryBlock (n : JS.Number)
| GasModel (eip1559 : bool)
| Summary (verdict : Verdict)
(* main *)
| Usage
| InvalidUrl (url : string)
| FatalError (message : string).

(** ** The tester object *)

Record Results : Type := {
  chainId : option JS.Number;
  latestBlock : option JS.Number;
  eip1559 : option bool
}.

(** The fields of [class RPCTester], with the two things its methods act on
    outside the object: the requests written to the wire, oldest first, and
    the console. *)
Record RPCTester : Type := {
  rpcUrl : string;
  expectedChainId : option JS.Number;
  isHttps : bool;
  requestId : Z;
  results : Results;
  wire : list JsonRpcRequest;
  console : list Line
}.

Definition setResults (f : Results -> Results) (t : RPCTester) : RPCTester :=
  {| rpcUrl := rpcUrl t; expectedChainId := expectedChainId t;
     isHttps := isHttps t; requestId := requestId t;
     results := f (results t); wire := wire t; console := console t |}.

Definition print (line : Line) (t : RPCTester) : RPCTester :=
  {| rpcUrl := rpcUrl t; expectedChainId := expectedChainId t;
     isHttps := isHttps t; requestId := requestId t;
     results := results t; wire := wire t; console := console t ++ [line] |}.

Definition write (request : JsonRpcRequest) (t : RPCTester) : RPCTester :=
  {| rpcUrl := rpcUrl t; expectedChainId := expectedChainId t;
     isHttps := isHttps t; requestId := id request;
     results := results t; wire := wire t ++ [request]; console := console t |}.

(** ** Methods run in a state-and-exception monad: a computation changes the
    tester and returns, or it stops: it threw, or it is suspended at an
    [await] whose promise never settles.  What it did before stays done. *)

Inductive Abrupt : Type :=
| Thrown (error : JS.Exn)
| Suspended.

Definition M (A : Type) : Type := RPCTester -> (Abrupt + A) * RPCTester.

#[export] Instance M_ret : MRet M := fun A a t => (inr a, t).
#[export] Instance M_bind : MBind M := fun A B k m t =>
  match m t with
  | (inr a, t') => k a t'
  | (inl stop, t') => (inl stop, t')
  end.

Definition throw {A} (e : JS.Exn) : M A := fun t => (inl (Thrown e), t).

(** [try { body } catch (error) { handler error }]: a suspended body is not
    an error, and nothing is caught. *)
Definition try {A} (body : M A) (handler : JS.Exn -> M A) : M A := fun t =>
  match body t with
  | (inl (Thrown e), t') => handler e t'
  | r => r
  end.

Definition log (line : Line) : M unit := fun t => (inr tt, print line t).

Definition modifyResults (f : Results -> Results) : M unit :=
  fun t => (inr tt, setResults f t).

Definition getTester : M RPCTester := fun t => (inr t, t).

(** A value that a primitive returned or threw, brought into [M]. *)
Definition lift {A} (r : JS.Exn + A) : M A :=
  match r with
  | inl e => throw e
  | inr a => mret a
  end.

Definition when (b : bool) (m : M unit) : M unit := if b then m else mret tt.

(** ** The probes *)

Section Script.

(** The endpoint, as [makeRequest<string>] and [makeRequest<FeeHistoryResult>]
    see it, and the environment variable read at start-up. *)
Context {net : Transport string} {feeNet : Transport FeeHistoryResult}.
Variable FORDEFI_EVM_VAULT_ADDRESS : option string.

(** [process.env.FORDEFI_EVM_VAULT_ADDRESS || ""] *)
Definition TEST_ADDRESS : string :=
  match FORDEFI_EVM_VAULT_ADDRESS with
  | Some s => if String.eqb s "" then "" else s
  | None => ""
  end.

(** [makeRequest]: the next id is taken, the request goes out, and the
    [await] on the promise goes as the transport says. *)
Definition makeRequest {T} `{Transport T}
    (method : string) (params : list Json) : M (RpcResponse T) := fun t =>
  let requestData :=
    {| method := method; params := params; id := requestId t + 1 |} in
  match send requestData with
  | Resolve response => (inr response, write requestData t)
  | Reject reason => (inl (Thrown reason), write requestData t)
  | Pending => (inl Suspended, write requestData t)
  end.

(** The two guards that follow every call but those of the fee-history probe:
    [if (response.error) throw new Error(response.error.message)] and
    [if (!response.result) throw new Error('No result returned')]. *)
Definition throwIfError {T} (response : RpcResponse T) : M unit :=
  match error response with
  | Some e => throw (JS.Error (message e))
  | None => mret tt
  end.

Definition requireResult {T} `{Truthy T} (response : RpcResponse T) : M T :=
  match result response with
  | Some r => if truthy r then mret r else throw (JS.Error "No result returned")
  | None => throw (JS.Error "No result returned")
  end.

(** [catch (error) { console.log(Failed: message); return false; }] *)
Definition failed_ (e : JS.Exn) : M bool :=
  log (Failed (JS.message e));; mret false.

Definition chainNames : gmap Z string :=
  list_to_map
    [ (1, "Ethereum Mainnet"); (5, "Goerli Testnet");
      (11155111, "Sepolia Testnet"); (137, "Polygon Mainnet");
      (80001, "Polygon Mumbai"); (56, "BSC Mainnet"); (97, "BSC Testnet");
      (43114, "Avalanche C-Chain"); (43113, "Avalanche Fuji");
      (42161, "Arbitrum One"); (421613, "Arbitrum Goerli"); (10, "Optimism");
      (420, "Optimism Goerli"); (8453, "Base Mainnet"); (84531, "Base Goerli");
      (1329, "SEI Mainnet"); (16661, "0G-Aristotle"); (9600, "RouterChain");
      (23294, "Oasis Sapphire"); (239, "TAC Mainnet"); (42793, "Etherlink") ].

(** [chainNames[chainId]]: the keys are integers. *)
Definition chainName (chainId : JS.Number) : option string :=
  match chainId with
  | JS.Num z => chainNames !! z
  | _ => None
  end.

Definition testChainId : M bool :=
  log (Testing "eth_chainId");;
  try
    (response ← makeRequest (T := string) "eth_chainId" [];
     throwIfError response;;
     result ← requireResult response;
     let chainId := JS.parseInt result 16 in
     modifyResults (fun r =>
       {| chainId := Some chainId; latestBlock := latestBlock r;
          eip1559 := eip1559 r |});;
     log (ChainId chainId (chainName chainId));;
     log (ResponseTime (responseTime response));;
     this ← getTester;
     match expectedChainId this with
     | Some expected =>
         when (JS.truthy expected && JS.strict_ne chainId expected)
           (log (ChainIdWarning expected chainId))
     | None => mret tt
     end;;
     mret true)
    failed_.

(** The body of [for (let i = 0; i < numCalls; i++)], [n] rounds to go. *)
Fixpoint blockNumberCalls (n : nat) (results : list BlockNumberResult)
    (http2Detected : bool) : M (list BlockNumberResult * bool) :=
  match n with
  | O => mret (results, http2Detected)
  | S n' =>
      response ← makeRequest (T := string) "eth_blockNumber" [];
      throwIfError response;;
      result ← requireResult response;
      let blockNumber := JS.parseInt result 16 in
      blockNumberCalls n'
        (results ++ [ {| blockNumber := blockNumber;
                         brResponseTime := responseTime response;
                         brHttpVersion := httpVersion response |} ])
        (http2Detected || String.eqb (httpVersion response) "2.0")
  end.

(** [blockNumbers.some((block, i) => i > 0 && block > blockNumbers[i - 1])] *)
Fixpoint someIncrement (previous : JS.Number) (blocks : list JS.Number) : bool :=
  match blocks with
  | [] => false
  | block :: rest => JS.gt block previous || someIncrement block rest
  end.

Definition isIncrementing (blockNumbers : list JS.Number) : bool :=
  match blockNumbers with
  | [] => false
  | first :: rest => someIncrement first rest
  end.

Definition numCalls : Z := 5.

Definition testBlockNumber : M bool :=
  log (Testing "eth_blockNumber (multiple calls)");;
  try
    (calls ← blockNumberCalls (Z.to_nat numCalls) [] false;
     let '(results, http2Detected) :=
       (calls : list BlockNumberResult * bool) in
     match last results with
     | None => throw (JS.Error "No successful block number responses")
     | Some latest =>
         modifyResults (fun r =>
           {| chainId := chainId r; latestBlock := Some (blockNumber latest);
              eip1559 := eip1559 r |});;
         let responseTimes := brResponseTime <$> results in
         let avgResponseTime :=
           JS.fdiv
             (foldl (fun a b => JS.fadd a (JS.Num b)) (JS.Num 0) responseTimes)
             (JS.Num (Z.of_nat (length responseTimes))) in
         let minResponseTime := foldr Z.min (default 0 (head responseTimes)) responseTimes in
         let maxResponseTime := foldr Z.max (default 0 (head responseTimes)) responseTimes in
         log (LatestBlock (blockNumber latest));;
         log (HttpVersion
                (if http2Detected then "HTTP/2"
                 else default "" (brHttpVersion <$> head results)));;
         log (ResponseTimes numCalls);;
         log (Average (JS.toFixed avgResponseTime 2));;
         log (Min minResponseTime);;
         log (Max maxResponseTime);;
         let blockNumbers := blockNumber <$> results in
         when (isIncrementing blockNumbers) (log NetworkActive);;
         mret true
     end)
    failed_.

Definition zeroAddress : string := "0x0000000000000000000000000000000000000000".

Definition testAddresses : list string := [zeroAddress; TEST_ADDRESS].

(** The body of [for (const address of testAddresses)]. *)
Fixpoint balanceCalls (addresses : list string) : M unit :=
  match addresses with
  | [] => mret tt
  | address :: rest =>
      response ← makeRequest (T := string) "eth_getBalance"
                   [JString address; JString "latest"];
      throwIfError response;;
      result ← requireResult response;
      balanceWei ← lift (JS.BigInt (Some result));
      let balanceEth := JS.fdiv (JS.NumberOfBigInt balanceWei) (JS.Num (10 ^ 18)) in
      log (Address (JS.sliceStart 10 address));;
      log (Balance (JS.toFixed balanceEth 6) balanceWei);;
      log (ResponseTime (responseTime response));;
      balanceCalls rest
  end.

Definition testGetBalance : M bool :=
  log (Testing "eth_getBalance");;
  try (balanceCalls testAddresses;; mret true) failed_.

(** [typeof v === 'number' ? `0x${v.toString(16)}` : v], with [None] for the
    [undefined] that reading past the end of an array gives. *)
Definition hexOrString (v : option StringOrNumber) : option string :=
  match v with
  | Some (Nbr n) => Some ("0x" +:+ JS.toString16 n)
  | Some (Str s) => Some s
  | None => None
  end.

(** [Number(BigInt(v)) / 1e9] *)
Definition gwei (v : option string) : M JS.Number :=
  wei ← lift (JS.BigInt v);
  mret (JS.fdiv (JS.NumberOfBigInt wei) (JS.Num (10 ^ 9))).

(** The Stage-1 error messages after which the call is tried again. *)
Definition needsFallback (hexError : string) : bool :=
  JS.includes hexError "unmarshal" || JS.includes hexError "destruct" ||
  JS.includes hexError "parse" || JS.includes hexError "invalid" ||
  JS.includes hexError "type" || JS.includes hexError "expected".

Definition unsupported (message : string) : bool :=
  JS.includes message "not found" || JS.includes message "not supported".

Definition setEip1559 (b : bool) : M unit :=
  modifyResults (fun r =>
    {| chainId := chainId r; latestBlock := latestBlock r; eip1559 := Some b |}).

(** The first half of [testFeeHistory], down to [parameterFormat = 'hex'].
    [inl b] is [return b]; [inr] carries the two locals [response] and
    [parameterFormat] on to the second half. *)
Definition feeHistoryCalls
  : M (bool + RpcResponse FeeHistoryResult * option ParameterFormat) :=
  response ← makeRequest (T := FeeHistoryResult) "eth_feeHistory"
               [JString "0xa"; JString "latest"; JArray [25; 50; 75]];
  match error response with
  | Some hexErr =>
      let hexError := message hexErr in
      retried ←
        (if needsFallback hexError then
           log TryingNumberFormat;;
           response ← makeRequest (T := FeeHistoryResult) "eth_feeHistory"
                        [JNumber 10; JString "latest"; JArray [25; 50; 75]];
           mret (response,
                 match error response with
                 | None => Some FormatNumber
                 | Some _ => None
                 end)
         else mret (response, None));
      let '(response, parameterFormat) :=
        (retried : RpcResponse FeeHistoryResult * option ParameterFormat) in
      match error response with
      | Some e =>
          if unsupported (message e) then
            log Eip1559NotSupported;;
            setEip1559 false;;
            mret (inl true)
          else throw (JS.Error (message e))
      | None => mret (inr (response, parameterFormat))
      end
  | None => mret (inr (response, Some FormatHex))
  end.

(** The [reduce] that sums the base fees in gwei. *)
Fixpoint sumBaseFees (fees : list StringOrNumber) (sum : JS.Number)
  : M JS.Number :=
  match fees with
  | [] => mret sum
  | fee :: rest =>
      g ← gwei (hexOrString (Some fee));
      sumBaseFees rest (JS.fadd sum g)
  end.

Definition nonEmpty {A} (l : option (list A)) : bool :=
  match l with
  | Some (_ :: _) => true
  | _ => false
  end.

(** The priority-fee lines of [testFeeHistory]. *)
Definition reportRewards (feeHistory : FeeHistoryResult) : M unit :=
  match reward feeHistory with
  | Some ((_ :: _) as rows) =>
      match last rows with
      | Some ((_ :: _) as latestRewards) =>
          log PriorityFeePercentiles;;
          let reward25 := hexOrString (latestRewards !! 0%nat) in
          let reward50 := hexOrString (latestRewards !! 1%nat) in
          let reward75 := hexOrString (latestRewards !! 2%nat) in
          g25 ← gwei reward25; log (Percentile 25 (JS.toFixed g25 2));;
          g50 ← gwei reward50; log (Percentile 50 (JS.toFixed g50 2));;
          g75 ← gwei reward75; log (Percentile 75 (JS.toFixed g75 2))
      | _ => mret tt
      end
  | _ => mret tt
  end.

(** The second half of [testFeeHistory], from [if (!response.result)]. *)
Definition feeHistoryReport (response : RpcResponse FeeHistoryResult)
    (parameterFormat : option ParameterFormat) : M bool :=
  feeHistory ← requireResult response;
  setEip1559 true;;
  match baseFeePerGas feeHistory with
  | Some ((_ :: _) as fees) =>
      latestBaseFeeGwei ← gwei (hexOrString (last fees));
      log Eip1559Supported;;
      match parameterFormat with
      | Some format => log (ParameterFormatUsed format)
      | None => mret tt
      end;;
      log (RewardField (nonEmpty (reward feeHistory)));;
      log (LatestBaseFee (JS.toFixed latestBaseFeeGwei 2));;
      sum ← sumBaseFees fees (JS.Num 0);
      let avgBaseFee := JS.fdiv sum (JS.Num (Z.of_nat (length fees))) in
      log (AverageBaseFee (JS.toFixed avgBaseFee 2));;
      reportRewards feeHistory
  | _ =>
      log LegacyGasPricing;;
      setEip1559 false
  end;;
  log (ResponseTime (responseTime response));;
  mret true.

Definition testFeeHistory : M bool :=
  log (Testing "eth_feeHistory (EIP-1559 support)");;
  try
    (outcome ← feeHistoryCalls;
     match outcome with
     | inl returned => mret returned
     | inr (response, parameterFormat) =>
         feeHistoryReport response parameterFormat
     end)
    failed_.

Definition testGasPrice : M bool :=
  log (Testing "eth_gasPrice (Legacy gas)");;
  try
    (response ← makeRequest (T := string) "eth_gasPrice" [];
     throwIfError response;;
     result ← requireResult response;
     gasPriceGwei ← gwei (Some result);
     log (GasPrice (JS.toFixed gasPriceGwei 2));;
     log (ResponseTime (responseTime response));;
     mret true)
    failed_.

(** ** The suite runner *)

Record Test : Type := {
  name : string;
  fn : M bool
}.

(** [results.tests[name] = outcome], and one more passed or failed. *)
Definition record (name : string) (outcome : bool) (results : TestResult)
  : TestResult :=
  {| passed := if outcome then passed results + 1 else passed results;
     failed := if outcome then failed results else failed results + 1;
     tests := <[name := outcome]> (tests results) |}.

(** The body of [for (const test of tests)]. *)
Fixpoint runTests (tests : list Test) (results : TestResult) : M TestResult :=
  match tests with
  | [] => mret results
  | test :: rest =>
      results ←
        try
          (passed ← fn test;
           mret (record (name test) passed results))
          (fun error =>
             log (Crashed (name test) (JS.message error));;
             mret (record (name test) false results));
      runTests rest results
  end.

Definition theTests : list Test :=
  [ {| name := "eth_chainId"; fn := testChainId |};
    {| name := "eth_blockNumber"; fn := testBlockNumber |};
    {| name := "eth_getBalance"; fn := testGetBalance |};
    {| name := "eth_feeHistory"; fn := testFeeHistory |};
    {| name := "eth_gasPrice"; fn := testGasPrice |} ].

Definition noResults : TestResult := {| passed := 0; failed := 0; tests := ∅ |}.

(** [runAllTests], with the list of tests as a parameter. *)
Definition runAllTestsOf (tests : list Test) : M TestResult :=
  this ← getTester;
  log Rule;; log (Title "Ethereum RPC Endpoint Tester");; log Rule;;
  log (RpcUrl (rpcUrl this));;
  log (Protocol (isHttps this));;
  testResults ← runTests tests noResults;
  log Rule;; log (Title "SUMMARY");; log Rule;;
  log (Counts (passed testResults) (failed testResults));;
  this ← getTester;
  match chainId (results this) with
  | Some n => when (JS.truthy n) (log (SummaryChainId n))
  | None => mret tt
  end;;
  match latestBlock (results this) with
  | Some n => when (JS.truthy n) (log (SummaryBlock n))
  | None => mret tt
  end;;
  match eip1559 (results this) with
  | Some b => log (GasModel b)
  | None => mret tt
  end;;
  log (Summary
         (if passed testResults =? Z.of_nat (length tests) then FullyFunctional
          else if 0 <? passed testResults then PartiallyFunctional
          else Down));;
  mret testResults.

Definition runAllTests : M TestResult := runAllTestsOf theTests.

(** ** [main] *)

(** [new URL(s)]: the protocol of the parsed address, or [None] where the
    constructor throws. *)
Variable protocolOf : string -> option string.

Definition newTester (rpcUrl : string) (expectedChainId : option JS.Number)
    (protocol : string) : RPCTester :=
  {| rpcUrl := rpcUrl; expectedChainId := expectedChainId;
     isHttps := String.eqb protocol "https:"; requestId := 0;
     results := {| chainId := None; latestBlock := None; eip1559 := None |};
     wire := []; console := [] |}.

(** [main] on [process.argv.slice(2)]: the exit code, the console, and the
    requests that went out.  When [runAllTests] is suspended nothing is left
    to run, [process.exit] is never reached, and the process ends with the
    exit code of a script that ran to its end, 0. *)
Definition main (args : list string) : Z * list Line * list JsonRpcRequest :=
  match args with
  | [] => (1, [Usage], [])
  | rpcUrl :: rest =>
      let expectedChainId :=
        match rest with
        | a :: _ => if String.eqb a "" then None else Some (JS.parseInt a 0)
        | [] => None
        end in
      match protocolOf rpcUrl with
      | None => (1, [InvalidUrl rpcUrl], [])
      | Some protocol =>
          let tester := newTester rpcUrl expectedChainId protocol in
          match runAllTests tester with
          | (inr results, t) =>
              (if 0 <? failed results then 1 else 0, console t, wire t)
          | (inl (Thrown error), t) =>
              (1, console t ++ [FatalError (JS.message error)], wire t)
          | (inl Suspended, t) => (0, console t, wire t)
          end
      end
  end.

(** * Properties *)

#[local] Set Default Proof Using "Type".

(** ** Running computations *)

Lemma bind_returns {A B} (m : M A) (k : A -> M B) t a t' :
  m t = (inr a, t') -> (m ≫= k) t = k a t'.
Proof. intros Hm. unfold mbind, M_bind. now rewrite Hm. Qed.

Lemma bind_stops {A B} (m : M A) (k : A -> M B) t stop t' :
  m t = (inl stop, t') -> (m ≫= k) t = (inl stop, t').
Proof. intros Hm. unfold mbind, M_bind. now rewrite Hm. Qed.

Lemma try_returns {A} (body : M A) handler t a t' :
  body t = (inr a, t') -> try body handler t = (inr a, t').
Proof. intros Hb. unfold try. now rewrite Hb. Qed.

Lemma try_throws {A} (body : M A) handler t e t' :
  body t = (inl (Thrown e), t') -> try body handler t = handler e t'.
Proof. intros Hb. unfold try. now rewrite Hb. Qed.

Lemma try_suspended {A} (body : M A) handler t t' :
  body t = (inl Suspended, t') -> try body handler t = (inl Suspended, t').
Proof. intros Hb. unfold try. now rewrite Hb. Qed.

(** A computation that leaves an observation [f] of the tester as it was. *)
Definition preserves {A X} (f : RPCTester -> X) (m : M A) : Prop :=
  forall t, f (m t).2 = f t.

Lemma preserves_ret {A X} (f : RPCTester -> X) (a : A) : preserves f (mret a).
Proof. now intros t. Qed.

Lemma preserves_throw {A X} (f : RPCTester -> X) e : preserves f (@throw A e).
Proof. now intros t. Qed.

Lemma preserves_lift {A X} (f : RPCTester -> X) (r : JS.Exn + A) :
  preserves f (lift r).
Proof. intros t. now destruct r. Qed.

Lemma preserves_bind {A B X} (f : RPCTester -> X) (m : M A) (k : A -> M B) :
  preserves f m -> (forall a, preserves f (k a)) -> preserves f (m ≫= k).
Proof.
  intros Hm Hk t. unfold mbind, M_bind.
  specialize (Hm t). destruct (m t) as [[e | a] t']; simpl in *.
  - exact Hm.
  - now rewrite Hk.
Qed.

Lemma preserves_try {A X} (f : RPCTester -> X) (body : M A) handler :
  preserves f body -> (forall e, preserves f (handler e)) ->
  preserves f (try body handler).
Proof.
  intros Hb Hh t. unfold try.
  specialize (Hb t). destruct (body t) as [[[e |] | a] t']; simpl in *.
  - now rewrite Hh.
  - exact Hb.
  - exact Hb.
Qed.

Lemma preserves_when {X} (f : RPCTester -> X) b m :
  preserves f m -> preserves f (when b m).
Proof. intros Hm. destruct b; [exact Hm | apply preserves_ret]. Qed.

(** Only [makeRequest] touches the wire; only [modifyResults] touches the
    results. *)
Lemma wire_log line : preserves wire (log line).
Proof. now intros t. Qed.

Lemma results_log line : preserves results (log line).
Proof. now intros t. Qed.

Lemma wire_modifyResults g : preserves wire (modifyResults g).
Proof. now intros t. Qed.

Lemma preserves_getTester {X} (f : RPCTester -> X) : preserves f getTester.
Proof. now intros t. Qed.

Lemma preserves_throwIfError {T X} (f : RPCTester -> X) (response : RpcResponse T) :
  preserves f (throwIfError response).
Proof. intros t. unfold throwIfError. now destruct (error response). Qed.

Lemma preserves_requireResult {T X} `{Truthy T} (f : RPCTester -> X)
    (response : RpcResponse T) :
  preserves f (requireResult response).
Proof.
  intros t. unfold requireResult.
  destruct (result response) as [r |]; [destruct (truthy r) |]; reflexivity.
Qed.

Lemma wire_failed e : preserves wire (failed_ e).
Proof. now intros t. Qed.

Lemma results_failed e : preserves results (failed_ e).
Proof. now intros t. Qed.

Lemma preserves_gwei {X} (f : RPCTester -> X) v : preserves f (gwei v).
Proof. intros t. unfold gwei, mbind, M_bind. now destruct (JS.BigInt v). Qed.

Create HintDb quiet.

#[local] Hint Resolve preserves_ret preserves_throw preserves_lift
  preserves_when wire_log results_log wire_modifyResults preserves_getTester
  preserves_throwIfError preserves_requireResult wire_failed results_failed
  preserves_gwei : quiet.

Ltac quiet :=
  repeat first
    [ progress auto with quiet
    | apply preserves_bind; [| intros ?]
    | apply preserves_try; [| intros ?]
    | match goal with
      | |- preserves _ (match ?x with _ => _ end) => destruct x
      | |- preserves _ (if ?x then _ else _) => destruct x
      | |- preserves _ (let '(_, _) := ?x in _) => destruct x
      end ].

Lemma preserves_sumBaseFees {X} (f : RPCTester -> X) fees sum :
  preserves f (sumBaseFees fees sum).
Proof. revert sum. induction fees as [| fee rest IH]; intros sum; simpl; quiet. Qed.

#[local] Hint Resolve preserves_sumBaseFees : quiet.

Lemma wire_reportRewards feeHistory : preserves wire (reportRewards feeHistory).
Proof. unfold reportRewards. quiet. Qed.

Lemma results_reportRewards feeHistory :
  preserves results (reportRewards feeHistory).
Proof. unfold reportRewards. quiet. Qed.

#[local] Hint Resolve wire_reportRewards results_reportRewards : quiet.

Lemma wire_feeHistoryReport response parameterFormat :
  preserves wire (feeHistoryReport response parameterFormat).
Proof. unfold feeHistoryReport, setEip1559. quiet. Qed.

(** What follows a call decides nothing about an observation it preserves. *)
Lemma after_bind {A B X} (f : RPCTester -> X) (m : M A) (k : A -> M B) t :
  (forall a, preserves f (k a)) -> f ((m ≫= k) t).2 = f (m t).2.
Proof.
  intros Hk. unfold mbind, M_bind.
  destruct (m t) as [[e | a] t']; simpl; [reflexivity | apply Hk].
Qed.

Lemma after_try {A X} (f : RPCTester -> X) (body : M A) handler t :
  (forall e, preserves f (handler e)) -> f (try body handler t).2 = f (body t).2.
Proof.
  intros Hh. unfold try.
  destruct (body t) as [[[e |] | a] t']; simpl; [apply Hh | reflexivity..].
Qed.

(** ** Substrings *)

Lemma prefix_app_l p q s :
  String.prefix (p +:+ q) s = true -> String.prefix p s = true.
Proof.
  revert s. induction p as [| c p IH]; intros [| d s]; simpl;
    try reflexivity; try discriminate.
  destruct (ascii_dec c d); [apply IH | discriminate].
Qed.

(** A text that contains [p ++ q] contains [p]. *)
Lemma includes_app_l s p q :
  JS.includes s (p +:+ q) = true -> JS.includes s p = true.
Proof.
  induction s as [| c s IH]; cbn [JS.includes]; rewrite !orb_true_iff.
  - intros [H | H]; [left; exact (prefix_app_l _ _ _ H) | discriminate].
  - intros [H | H]; [left; exact (prefix_app_l _ _ _ H) | right; auto].
Qed.

(** ** The fee-history probe: which requests go out *)

(** The Stage-1 and Stage-2 requests of a probe started in state [t]. *)
Definition stage1 (t : RPCTester) : JsonRpcRequest :=
  {| method := "eth_feeHistory";
     params := [JString "0xa"; JString "latest"; JArray [25; 50; 75]];
     id := requestId t + 1 |}.

Definition stage2 (t : RPCTester) : JsonRpcRequest :=
  {| method := "eth_feeHistory";
     params := [JNumber 10; JString "latest"; JArray [25; 50; 75]];
     id := requestId t + 1 + 1 |}.

(** The message of the error that Stage 1 came back with, if it did. *)
Definition stage1Error (t : RPCTester) : option string :=
  match send (T := FeeHistoryResult) (stage1 t) with
  | Resolve r => message <$> error r
  | _ => None
  end.

Definition fallbackTexts : list string :=
  ["unmarshal"; "destruct"; "parse"; "invalid"; "type"; "expected"].

Lemma needsFallback_iff msg :
  needsFallback msg = true <->
  exists text, text ∈ fallbackTexts /\ JS.includes msg text = true.
Proof.
  unfold needsFallback, fallbackTexts. rewrite !orb_true_iff. split.
  - intros H. decompose [or] H; eexists; (split; [| eassumption]);
      repeat first [apply list_elem_of_here | apply list_elem_of_further].
  - intros (text & Hin & Hinc).
    repeat (apply elem_of_cons in Hin as [-> | Hin]; [auto 8 |]).
    now apply elem_of_nil in Hin.
Qed.

Lemma needsFallback_false msg :
  (forall text, text ∈ fallbackTexts -> JS.includes msg text = false) ->
  needsFallback msg = false.
Proof.
  intros H. destruct (needsFallback msg) eqn:E; [| reflexivity].
  apply needsFallback_iff in E as (text & Hin & Hinc).
  rewrite (H text Hin) in Hinc. discriminate.
Qed.

(** Whether Stage 2 goes out. *)
Definition fallsBack (t : RPCTester) : bool :=
  match stage1Error t with
  | Some msg => needsFallback msg
  | None => false
  end.

Lemma wire_feeHistoryCalls t :
  wire (feeHistoryCalls t).2 =
  wire t ++ stage1 t :: (if fallsBack t then [stage2 t] else []).
Proof.
  unfold feeHistoryCalls, fallsBack, stage1Error, makeRequest, mbind, M_bind.
  fold (stage1 t).
  destruct (send (stage1 t)) as [r1 | e |]; simpl; [| reflexivity..].
  destruct (error r1) as [e1 |] eqn:E1; simpl; [| reflexivity].
  destruct (needsFallback (message e1)); simpl.
  - fold (stage2 t).
    destruct (send (stage2 t)) as [r2 | e |]; simpl;
      [| now rewrite <- app_assoc..].
    destruct (error r2) as [e2 |]; simpl;
      [destruct (unsupported (message e2)) |]; simpl; now rewrite <- app_assoc.
  - rewrite E1. destruct (unsupported (message e1)); reflexivity.
Qed.

Lemma wire_testFeeHistory t :
  wire (testFeeHistory t).2 =
  wire t ++ stage1 t :: (if fallsBack t then [stage2 t] else []).
Proof.
  unfold testFeeHistory.
  rewrite (bind_returns _ _ t tt (print (Testing "eth_feeHistory (EIP-1559 support)") t))
    by reflexivity.
  rewrite after_try by (intros e; apply wire_failed).
  rewrite after_bind.
  - apply (wire_feeHistoryCalls (print _ t)).
  - intros [b | [response parameterFormat]];
      [apply preserves_ret | apply wire_feeHistoryReport].
Qed.

(** C1.  The fee-history probe first sends [eth_feeHistory] with the block
    count as the hex string "0xa".  It sends at most one request more, the
    same call with the block count as the number [10], and it does so if and
    only if Stage 1 returned an error whose message contains one of
    "unmarshal", "destruct", "parse", "invalid", "type", "expected".  So the
    retry goes out for every message containing "invalid argument", and no
    second request is made for a message containing none of the six. *)
Theorem stage2_iff_fallback_text t :
  let hex :=
    {| method := "eth_feeHistory";
       params := [JString "0xa"; JString "latest"; JArray [25; 50; 75]];
       id := requestId t + 1 |} in
  let number :=
    {| method := "eth_feeHistory";
       params := [JNumber 10; JString "latest"; JArray [25; 50; 75]];
       id := requestId t + 1 + 1 |} in
  let sent := wire (testFeeHistory t).2 in
  let stage1Error :=
    match send (T := FeeHistoryResult) hex with
    | Resolve response => message <$> error response
    | _ => None
    end in
  (sent = wire t ++ [hex; number] \/ sent = wire t ++ [hex]) /\
  (sent = wire t ++ [hex; number] <->
   exists msg text,
     stage1Error = Some msg /\
     text ∈ ["unmarshal"; "destruct"; "parse"; "invalid"; "type"; "expected"] /\
     JS.includes msg text = true) /\
  (forall msg,
     stage1Error = Some msg -> JS.includes msg "invalid argument" = true ->
     sent = wire t ++ [hex; number]) /\
  (forall msg,
     stage1Error = Some msg ->
     (forall text,
        text ∈ ["unmarshal"; "destruct"; "parse"; "invalid"; "type"; "expected"] ->
        JS.includes msg text = false) ->
     sent = wire t ++ [hex]).
Proof.
  cbv zeta. rewrite wire_testFeeHistory.
  change {| method := "eth_feeHistory";
            params := [JString "0xa"; JString "latest"; JArray [25; 50; 75]];
            id := requestId t + 1 |} with (stage1 t).
  change {| method := "eth_feeHistory";
            params := [JNumber 10; JString "latest"; JArray [25; 50; 75]];
            id := requestId t + 1 + 1 |} with (stage2 t).
  change ["unmarshal"; "destruct"; "parse"; "invalid"; "type"; "expected"]
    with fallbackTexts.
  fold (stage1Error t). unfold fallsBack.
  split; [destruct (stage1Error t) as [m |]; [destruct (needsFallback m) |]; auto |].
  split; [| split].
  - split.
    + intros Heq. destruct (stage1Error t) as [m |] eqn:E.
      * destruct (needsFallback m) eqn:N.
        -- apply needsFallback_iff in N as (text & Hin & Hinc). eauto.
        -- apply app_inv_head in Heq. discriminate.
      * apply app_inv_head in Heq. discriminate.
    + intros (msg & text & -> & Hin & Hinc).
      now rewrite (proj2 (needsFallback_iff msg)) by eauto.
  - intros msg -> Hinc.
    rewrite (proj2 (needsFallback_iff msg)); [reflexivity |].
    exists "invalid". split.
    + unfold fallbackTexts. do 3 apply list_elem_of_further. apply list_elem_of_here.
    + apply (includes_app_l msg "invalid" " argument"). exact Hinc.
  - intros msg -> Hnone. now rewrite needsFallback_false.
Qed.

(** ** The fee-history probe: the response it ends up with *)

(** The response whose [error] and [result] the probe goes by: the one of
    Stage 1, or the one of Stage 2 when the fallback was attempted; [None]
    when the call that should bring it rejected or stayed pending. *)
Definition answered (t : RPCTester) : option (RpcResponse FeeHistoryResult) :=
  match send (stage1 t) with
  | Resolve r1 =>
      match error r1 with
      | None => Some r1
      | Some e1 =>
          if needsFallback (message e1) then
            match send (stage2 t) with
            | Resolve r2 => Some r2
            | _ => None
            end
          else Some r1
      end
  | _ => None
  end.

(** The message of the final error, if the probe ends up with one. *)
Definition finalError (t : RPCTester) : option string :=
  r ← answered t; message <$> error r.

(** The tester once the calls are made: heading printed, requests out. *)
Definition called (t : RPCTester) : RPCTester :=
  let t1 := write (stage1 t) (print (Testing "eth_feeHistory (EIP-1559 support)") t) in
  if fallsBack t then write (stage2 t) (print TryingNumberFormat t1) else t1.

Definition formatUsed (t : RPCTester) : ParameterFormat :=
  if fallsBack t then FormatNumber else FormatHex.

Lemma testFeeHistory_answered t r :
  answered t = Some r ->
  testFeeHistory t =
  match error r with
  | Some e =>
      if unsupported (message e) then
        (inr true,
         setResults
           (fun r => {| chainId := chainId r; latestBlock := latestBlock r;
                        eip1559 := Some false |})
           (print Eip1559NotSupported (called t)))
      else (inr false, print (Failed (message e)) (called t))
  | None => try (feeHistoryReport r (Some (formatUsed t))) failed_ (called t)
  end.
Proof.
  unfold answered, testFeeHistory, called, formatUsed, fallsBack, stage1Error.
  unfold feeHistoryCalls, makeRequest, try, mbind, M_bind. simpl.
  fold (stage1 t).
  destruct (send (stage1 t)) as [r1 | e |]; simpl; [| discriminate..].
  destruct (error r1) as [e1 |] eqn:E1; simpl.
  - destruct (needsFallback (message e1)); simpl.
    + fold (stage2 t).
      destruct (send (stage2 t)) as [r2 | e |]; simpl; [| discriminate..].
      intros [= <-].
      destruct (error r2) as [e2 |]; simpl;
        [destruct (unsupported (message e2)) |]; reflexivity.
    + intros [= <-]. rewrite E1.
      destruct (unsupported (message e1)); reflexivity.
  - intros [= <-]. rewrite E1. reflexivity.
Qed.

(** C2.  When the final error of the fee-history probe (that of Stage 1 when
    no fallback was triggered, that of Stage 2 when one was attempted) has a
    message containing "not found" or "not supported", the probe sets
    [eip1559] to [false] and returns [true], having sent nothing more than the
    stage requests and printed nothing after the not-supported notice; with
    any other final error it returns [false]. *)
Theorem final_error_unsupported_passes t msg :
  finalError t = Some msg ->
  ((JS.includes msg "not found" = true \/
    JS.includes msg "not supported" = true) ->
   exists t',
     testFeeHistory t = (inr true, t') /\
     eip1559 (results t') = Some false /\
     wire t' = wire t ++ stage1 t :: (if fallsBack t then [stage2 t] else []) /\
     console t' =
       console t ++
       Testing "eth_feeHistory (EIP-1559 support)" ::
       (if fallsBack t then [TryingNumberFormat] else []) ++
       [Eip1559NotSupported]) /\
  (JS.includes msg "not found" = false ->
   JS.includes msg "not supported" = false ->
   (testFeeHistory t).1 = inr false).
Proof.
  unfold finalError. destruct (answered t) as [r |] eqn:Ha; [| discriminate].
  simpl. destruct (error r) as [e |] eqn:Ee; [| discriminate].
  intros [= <-]. rewrite (testFeeHistory_answered t r Ha), Ee.
  unfold unsupported. split.
  - intros Hinc. apply orb_true_iff in Hinc. rewrite Hinc.
    eexists. split; [reflexivity |]. split; [reflexivity |].
    unfold called. destruct (fallsBack t); simpl;
      rewrite <- ?app_assoc; split; reflexivity.
  - intros -> ->. reflexivity.
Qed.

(** ** Computations that return, computations that throw *)

Definition returns {A} (P : A -> Prop) (m : M A) : Prop :=
  forall t, exists a t', m t = (inr a, t') /\ P a.

Definition raises {A} (P : JS.Exn -> Prop) (m : M A) : Prop :=
  forall t, exists e t', m t = (inl (Thrown e), t') /\ P e.

(** A computation that waits for nothing: it returns or throws. *)
Definition settles {A} (m : M A) : Prop :=
  forall t, (m t).1 <> inl Suspended.

Definition anything {A} (_ : A) : Prop := True.

Lemma returns_ret {A} (P : A -> Prop) a : P a -> returns P (mret a).
Proof. intros Ha t. now exists a, t. Qed.

Lemma returns_log line : returns anything (log line).
Proof. intros t. now eexists _, _. Qed.

Lemma returns_modifyResults g : returns anything (modifyResults g).
Proof. intros t. now eexists _, _. Qed.

Lemma returns_bind {A B} (Q : A -> Prop) (P : B -> Prop) m (k : A -> M B) :
  returns Q m -> (forall a, Q a -> returns P (k a)) -> returns P (m ≫= k).
Proof.
  intros Hm Hk t. destruct (Hm t) as (a & t1 & E & Ha).
  rewrite (bind_returns _ _ _ _ _ E). now apply Hk.
Qed.

Lemma returns_weaken {A} (P Q : A -> Prop) m :
  returns P m -> (forall a, P a -> Q a) -> returns Q m.
Proof. intros Hm HPQ t. destruct (Hm t) as (a & t' & E & Ha). eauto. Qed.

Lemma raises_throw {A} (P : JS.Exn -> Prop) e : P e -> raises P (@throw A e).
Proof. intros He t. now exists e, t. Qed.

Lemma raises_bind_l {A B} P (m : M A) (k : A -> M B) :
  raises P m -> raises P (m ≫= k).
Proof.
  intros Hm t. destruct (Hm t) as (e & t1 & E & He).
  rewrite (bind_stops _ _ _ _ _ E). eauto.
Qed.

Lemma raises_bind_r {A B} (Q : A -> Prop) P (m : M A) (k : A -> M B) :
  returns Q m -> (forall a, Q a -> raises P (k a)) -> raises P (m ≫= k).
Proof.
  intros Hm Hk t. destruct (Hm t) as (a & t1 & E & Ha).
  rewrite (bind_returns _ _ _ _ _ E). now apply Hk.
Qed.

Lemma settles_ret {A} (a : A) : settles (mret a).
Proof. now intros t. Qed.

Lemma settles_throw {A} e : settles (@throw A e).
Proof. now intros t. Qed.

Lemma settles_lift {A} (r : JS.Exn + A) : settles (lift r).
Proof. intros t. now destruct r. Qed.

Lemma settles_log line : settles (log line).
Proof. now intros t. Qed.

Lemma settles_modifyResults g : settles (modifyResults g).
Proof. now intros t. Qed.

Lemma settles_getTester : settles getTester.
Proof. now intros t. Qed.

Lemma settles_bind {A B} (m : M A) (k : A -> M B) :
  settles m -> (forall a, settles (k a)) -> settles (m ≫= k).
Proof.
  intros Hm Hk t. unfold mbind, M_bind.
  specialize (Hm t). destruct (m t) as [[stop | a] t']; simpl in *;
    [intros [= ->]; now apply Hm | apply Hk].
Qed.

Lemma settles_try {A} (body : M A) handler :
  settles body -> (forall e, settles (handler e)) -> settles (try body handler).
Proof.
  intros Hb Hh t. unfold try.
  specialize (Hb t). destruct (body t) as [[[e |] | a] t']; simpl in *;
    [apply Hh | exact Hb | exact Hb].
Qed.

Lemma settles_when b m : settles m -> settles (when b m).
Proof. intros Hm. destruct b; [exact Hm | apply settles_ret]. Qed.

Lemma settles_returns {A} (P : A -> Prop) m : returns P m -> settles m.
Proof. intros Hm t. destruct (Hm t) as (a & t' & -> & _). discriminate. Qed.

Lemma settles_raises {A} P (m : M A) : raises P m -> settles m.
Proof. intros Hm t. destruct (Hm t) as (e & t' & -> & _). discriminate. Qed.

Create HintDb settling.

#[local] Hint Resolve settles_ret settles_throw settles_lift settles_log
  settles_modifyResults settles_getTester settles_when : settling.

Ltac settling :=
  repeat first
    [ progress auto with settling
    | apply settles_bind; [| intros ?]
    | apply settles_try; [| intros ?]
    | match goal with
      | |- settles (match ?x with _ => _ end) => destruct x
      | |- settles (if ?x then _ else _) => destruct x
      | |- settles (let '(_, _) := ?x in _) => destruct x
      end ].

Lemma settles_failed e : settles (failed_ e).
Proof. unfold failed_. settling. Qed.

Lemma settles_throwIfError {T} (response : RpcResponse T) :
  settles (throwIfError response).
Proof. unfold throwIfError. settling. Qed.

Lemma settles_requireResult {T} `{Truthy T} (response : RpcResponse T) :
  settles (requireResult response).
Proof. unfold requireResult. settling. Qed.

Lemma settles_gwei v : settles (gwei v).
Proof. unfold gwei. settling. Qed.

Lemma settles_setEip1559 b : settles (setEip1559 b).
Proof. now intros t. Qed.

#[local] Hint Resolve settles_failed settles_throwIfError settles_requireResult
  settles_gwei settles_setEip1559 : settling.

Lemma settles_sumBaseFees fees sum : settles (sumBaseFees fees sum).
Proof. revert sum. induction fees as [| fee rest IH]; intros sum; simpl; settling. Qed.

Lemma settles_reportRewards feeHistory : settles (reportRewards feeHistory).
Proof. unfold reportRewards. settling. Qed.

#[local] Hint Resolve settles_sumBaseFees settles_reportRewards : settling.

Lemma settles_feeHistoryReport response parameterFormat :
  settles (feeHistoryReport response parameterFormat).
Proof. unfold feeHistoryReport. settling. Qed.

(** Whatever [m] does short of waiting, what follows throws. *)
Lemma fails_bind_r {A B} (m : M A) (k : A -> M B) :
  settles m -> (forall a, raises anything (k a)) -> raises anything (m ≫= k).
Proof.
  intros Hm Hk t. unfold mbind, M_bind. specialize (Hm t).
  destruct (m t) as [[[e |] | a] t1]; simpl in *;
    [now eexists _, _ | contradiction | apply Hk].
Qed.

Lemma raises_weaken {A} (P Q : JS.Exn -> Prop) (m : M A) :
  raises P m -> (forall e, P e -> Q e) -> raises Q m.
Proof. intros Hm HPQ t. destruct (Hm t) as (e & t' & E & He). eauto 6. Qed.

(** A probe whose body throws prints the failure and returns [false]. *)
Lemma try_failed P (body : M bool) t :
  raises P body ->
  exists e t', try body failed_ t = (inr false, print (Failed (JS.message e)) t') /\ P e.
Proof.
  intros Hb. destruct (Hb t) as (e & t' & E & He).
  exists e, t'. split; [| exact He].
  now rewrite (try_throws _ _ _ _ _ E).
Qed.

Lemma try_passed P (body : M bool) handler t :
  returns P body -> exists a t', try body handler t = (inr a, t') /\ P a.
Proof.
  intros Hb. destruct (Hb t) as (a & t' & E & Ha).
  exists a, t'. split; [| exact Ha].
  now rewrite (try_returns _ _ _ _ _ E).
Qed.

(** ** The fee-history probe: reading the result *)

(** A fee value that [BigInt] accepts once brought to text. *)
Definition convertsb (v : StringOrNumber) : bool :=
  match JS.BigInt (hexOrString (Some v)) with
  | inr _ => true
  | inl _ => false
  end.

Lemma gwei_returns v wei :
  JS.BigInt v = inr wei ->
  returns (eq (JS.fdiv (JS.NumberOfBigInt wei) (JS.Num (10 ^ 9)))) (gwei v).
Proof.
  intros E t. unfold gwei, mbind, M_bind. rewrite E. now eexists _, _.
Qed.

Lemma gwei_raises v e : JS.BigInt v = inl e -> raises (eq e) (gwei v).
Proof.
  intros E t. unfold gwei, mbind, M_bind. rewrite E. now eexists _, _.
Qed.

Lemma gwei_converts v : convertsb v = true -> returns anything (gwei (hexOrString (Some v))).
Proof.
  unfold convertsb. destruct (JS.BigInt (hexOrString (Some v))) as [e | wei] eqn:E;
    [discriminate |].
  intros _. eapply returns_weaken; [apply (gwei_returns _ _ E) | easy].
Qed.

Lemma gwei_unconverted v :
  convertsb v = false -> raises anything (gwei (hexOrString (Some v))).
Proof.
  unfold convertsb. destruct (JS.BigInt (hexOrString (Some v))) as [e | wei] eqn:E;
    [| discriminate].
  intros _. eapply raises_weaken; [apply (gwei_raises _ _ E) | easy].
Qed.

(** Reading [undefined] as a fee: the [TypeError] of [BigInt(undefined)]. *)
Definition undefinedToBigInt : JS.Exn :=
  JS.TypeError "Cannot convert undefined to a BigInt".

Lemma gwei_undefined : raises (eq undefinedToBigInt) (gwei None).
Proof. now apply gwei_raises. Qed.

Lemma sumBaseFees_converts fees sum :
  forallb convertsb fees = true -> returns anything (sumBaseFees fees sum).
Proof.
  revert sum. induction fees as [| fee rest IH]; intros sum; simpl.
  - intros _. now apply returns_ret.
  - intros [Hfee Hrest]%andb_true_iff.
    eapply returns_bind; [apply (gwei_converts _ Hfee) | intros g _; auto].
Qed.

Lemma sumBaseFees_unconverted fees sum :
  forallb convertsb fees = false -> raises anything (sumBaseFees fees sum).
Proof.
  revert sum. induction fees as [| fee rest IH]; intros sum; simpl;
    [discriminate |].
  destruct (convertsb fee) eqn:Hfee; simpl.
  - intros Hrest.
    eapply raises_bind_r; [apply (gwei_converts _ Hfee) | intros g _; auto].
  - intros _. apply raises_bind_l. now apply gwei_unconverted.
Qed.

Lemma last_cons_some {A} (x : A) l : exists y, last (x :: l) = Some y.
Proof. revert x. induction l as [| z l IH]; intros x; simpl; eauto. Qed.

Lemma converts_last fees v :
  forallb convertsb fees = true -> last fees = Some v -> convertsb v = true.
Proof.
  induction fees as [| fee [| fee' rest] IH]; simpl.
  - discriminate.
  - intros [H _]%andb_true_iff [= <-]. exact H.
  - intros [_ H]%andb_true_iff Hl. apply IH; assumption.
Qed.

Lemma requireResult_fee (response : RpcResponse FeeHistoryResult) feeHistory :
  result response = Some feeHistory ->
  returns (eq feeHistory) (requireResult response).
Proof. intros E t. unfold requireResult. rewrite E. now eexists _, _. Qed.

(** The row of latest rewards, as [reportRewards] reads it. *)
Definition latestRewards (feeHistory : FeeHistoryResult)
  : option (list StringOrNumber) :=
  rows ← reward feeHistory; last rows.

Lemma reportRewards_row feeHistory c row :
  latestRewards feeHistory = Some (c :: row) ->
  reportRewards feeHistory =
  (log PriorityFeePercentiles;;
   g25 ← gwei (hexOrString (Some c)); log (Percentile 25 (JS.toFixed g25 2));;
   g50 ← gwei (hexOrString (row !! 0%nat)); log (Percentile 50 (JS.toFixed g50 2));;
   g75 ← gwei (hexOrString (row !! 1%nat)); log (Percentile 75 (JS.toFixed g75 2))).
Proof.
  unfold latestRewards, reportRewards.
  destruct (reward feeHistory) as [[| r rows] |]; simpl; try discriminate.
  intros E. change (match rows with [] => Some r | _ :: _ => last rows end)
    with (last (r :: rows)) in *.
  now rewrite E.
Qed.

(** A latest row of one or two rewards: the probe goes on to read the missing
    ones and throws. *)
Lemma reportRewards_short feeHistory row :
  latestRewards feeHistory = Some row ->
  (length row = 1 \/ length row = 2)%nat ->
  raises anything (reportRewards feeHistory).
Proof.
  intros Hrow Hlen.
  destruct row as [| a [| b [| c row]]]; simpl in Hlen;
    try (exfalso; lia); rewrite (reportRewards_row _ _ _ Hrow); simpl.
  - do 3 (apply fails_bind_r; [settling | intros ?]). apply raises_bind_l.
    eapply raises_weaken; [apply gwei_undefined | easy].
  - do 5 (apply fails_bind_r; [settling | intros ?]). apply raises_bind_l.
    eapply raises_weaken; [apply gwei_undefined | easy].
Qed.

Lemma reportRewards_short_undefined feeHistory row :
  latestRewards feeHistory = Some row ->
  (length row = 1 \/ length row = 2)%nat ->
  forallb convertsb row = true ->
  raises (eq undefinedToBigInt) (reportRewards feeHistory).
Proof.
  intros Hrow Hlen Hconv.
  destruct row as [| a [| b [| c row]]]; simpl in Hlen;
    try (exfalso; lia); rewrite (reportRewards_row _ _ _ Hrow); simpl;
    simpl in Hconv; rewrite ?andb_true_r in Hconv.
  - eapply raises_bind_r; [apply returns_log | intros _ _].
    eapply raises_bind_r; [apply (gwei_converts _ Hconv) | intros g25 _].
    eapply raises_bind_r; [apply returns_log | intros _ _].
    apply raises_bind_l, gwei_undefined.
  - apply andb_true_iff in Hconv as [Ha Hb].
    eapply raises_bind_r; [apply returns_log | intros _ _].
    eapply raises_bind_r; [apply (gwei_converts _ Ha) | intros g25 _].
    eapply raises_bind_r; [apply returns_log | intros _ _].
    eapply raises_bind_r; [apply (gwei_converts _ Hb) | intros g50 _].
    eapply raises_bind_r; [apply returns_log | intros _ _].
    apply raises_bind_l, gwei_undefined.
Qed.

(** A latest row with its three percentiles, one of which does not convert. *)
Lemma reportRewards_unconverted feeHistory row :
  latestRewards feeHistory = Some row ->
  (3 <= length row)%nat -> forallb convertsb (take 3 row) = false ->
  raises anything (reportRewards feeHistory).
Proof.
  intros Hrow Hlen Hconv.
  destruct row as [| a [| b [| c row]]]; simpl in Hlen; try (exfalso; lia).
  rewrite (reportRewards_row _ _ _ Hrow). simpl.
  simpl in Hconv. rewrite ?take_0, ?andb_true_r in Hconv.
  apply fails_bind_r; [settling | intros _].
  destruct (convertsb a) eqn:Ha;
    [| apply raises_bind_l; now apply gwei_unconverted].
  do 2 (apply fails_bind_r; [settling | intros ?]).
  destruct (convertsb b) eqn:Hb;
    [| apply raises_bind_l; now apply gwei_unconverted].
  do 2 (apply fails_bind_r; [settling | intros ?]).
  apply raises_bind_l. now apply gwei_unconverted.
Qed.

Lemma returns_format (parameterFormat : option ParameterFormat) :
  returns anything
    match parameterFormat with
    | Some format => log (ParameterFormatUsed format)
    | None => mret tt
    end.
Proof. destruct parameterFormat; [apply returns_log | now apply returns_ret]. Qed.

(** With base fees in the result, the report stands or falls with the
    conversions and the reward lines. *)
Lemma feeHistoryReport_fails response parameterFormat feeHistory fees :
  result response = Some feeHistory ->
  baseFeePerGas feeHistory = Some fees -> fees <> [] ->
  raises anything (reportRewards feeHistory) ->
  raises anything (feeHistoryReport response parameterFormat).
Proof.
  intros Hres Hbase Hne Hrew. unfold feeHistoryReport.
  eapply raises_bind_r; [apply (requireResult_fee _ _ Hres) | intros ? <-].
  apply fails_bind_r; [settling | intros _]. apply raises_bind_l.
  rewrite Hbase. destruct fees as [| fee rest]; [contradiction |].
  do 7 (apply fails_bind_r; [settling | intros ?]). exact Hrew.
Qed.

(** A base fee that does not convert fails the report. *)
Lemma feeHistoryReport_unconverted response parameterFormat feeHistory fees :
  result response = Some feeHistory ->
  baseFeePerGas feeHistory = Some fees ->
  forallb convertsb fees = false ->
  raises anything (feeHistoryReport response parameterFormat).
Proof.
  intros Hres Hbase Hconv. unfold feeHistoryReport.
  eapply raises_bind_r; [apply (requireResult_fee _ _ Hres) | intros ? <-].
  apply fails_bind_r; [settling | intros _]. apply raises_bind_l.
  rewrite Hbase. destruct fees as [| fee rest]; [discriminate |].
  do 5 (apply fails_bind_r; [settling | intros ?]).
  apply raises_bind_l. now apply sumBaseFees_unconverted.
Qed.

Lemma feeHistoryReport_raises P response parameterFormat feeHistory fees :
  result response = Some feeHistory ->
  baseFeePerGas feeHistory = Some fees -> fees <> [] ->
  forallb convertsb fees = true ->
  raises P (reportRewards feeHistory) ->
  raises P (feeHistoryReport response parameterFormat).
Proof.
  intros Hres Hbase Hne Hconv Hrew. unfold feeHistoryReport.
  eapply raises_bind_r; [apply (requireResult_fee _ _ Hres) | intros ? <-].
  eapply raises_bind_r; [apply returns_modifyResults | intros _ _].
  apply raises_bind_l.
  rewrite Hbase. destruct fees as [| fee rest]; [contradiction |].
  destruct (last_cons_some fee rest) as [latest Hlast]. rewrite Hlast.
  eapply raises_bind_r;
    [apply (gwei_converts _ (converts_last _ _ Hconv Hlast)) | intros g _].
  eapply raises_bind_r; [apply returns_log | intros _ _].
  eapply raises_bind_r; [apply returns_format | intros _ _].
  eapply raises_bind_r; [apply returns_log | intros _ _].
  eapply raises_bind_r; [apply returns_log | intros _ _].
  eapply raises_bind_r; [apply (sumBaseFees_converts _ _ Hconv) | intros sum _].
  eapply raises_bind_r; [apply returns_log | intros _ _].
  exact Hrew.
Qed.

Lemma feeHistoryReport_passes response parameterFormat feeHistory fees :
  result response = Some feeHistory ->
  baseFeePerGas feeHistory = Some fees -> fees <> [] ->
  forallb convertsb fees = true ->
  returns anything (reportRewards feeHistory) ->
  returns (eq true) (feeHistoryReport response parameterFormat).
Proof.
  intros Hres Hbase Hne Hconv Hrew. unfold feeHistoryReport.
  eapply returns_bind; [apply (requireResult_fee _ _ Hres) | intros ? <-].
  eapply returns_bind; [apply returns_modifyResults | intros _ _].
  eapply returns_bind with (Q := anything).
  - rewrite Hbase. destruct fees as [| fee rest]; [contradiction |].
    destruct (last_cons_some fee rest) as [latest Hlast]. rewrite Hlast.
    eapply returns_bind;
      [apply (gwei_converts _ (converts_last _ _ Hconv Hlast)) | intros g _].
    eapply returns_bind; [apply returns_log | intros _ _].
    eapply returns_bind; [apply returns_format | intros _ _].
    eapply returns_bind; [apply returns_log | intros _ _].
    eapply returns_bind; [apply returns_log | intros _ _].
    eapply returns_bind; [apply (sumBaseFees_converts _ _ Hconv) | intros sum _].
    eapply returns_bind; [apply returns_log | intros _ _].
    exact Hrew.
  - intros _ _. eapply returns_bind; [apply returns_log | intros _ _].
    now apply returns_ret.
Qed.

Lemma feeHistoryReport_legacy response parameterFormat feeHistory :
  result response = Some feeHistory ->
  nonEmpty (baseFeePerGas feeHistory) = false ->
  returns (eq true) (feeHistoryReport response parameterFormat).
Proof.
  intros Hres Hbase. unfold feeHistoryReport.
  eapply returns_bind; [apply (requireResult_fee _ _ Hres) | intros ? <-].
  eapply returns_bind; [apply returns_modifyResults | intros _ _].
  eapply returns_bind with (Q := anything).
  - destruct (baseFeePerGas feeHistory) as [[| fee rest] |];
      try discriminate;
      (eapply returns_bind; [apply returns_log | intros _ _];
       apply returns_modifyResults).
  - intros _ _. eapply returns_bind; [apply returns_log | intros _ _].
    now apply returns_ret.
Qed.

(** The classification the report leaves behind, thrown or not. *)
Lemma feeHistoryReport_eip1559 response parameterFormat feeHistory t :
  result response = Some feeHistory ->
  eip1559 (results (feeHistoryReport response parameterFormat t).2) =
  Some (nonEmpty (baseFeePerGas feeHistory)).
Proof.
  intros Hres. unfold feeHistoryReport.
  assert (requireResult response t = (inr feeHistory, t)) as E
    by (unfold requireResult; now rewrite Hres).
  rewrite (bind_returns _ _ _ _ _ E).
  rewrite (bind_returns (setEip1559 true) _ t tt _ eq_refl).
  destruct (baseFeePerGas feeHistory) as [[| fee rest] |]; simpl nonEmpty.
  - reflexivity.
  - match goal with
    | |- context [(?m ≫= ?k) ?s] =>
        assert (preserves results (m ≫= k)) as Hp by quiet;
        now rewrite (Hp s)
    end.
  - reflexivity.
Qed.

(** C10.  A successful fee-history result with base fees whose latest reward
    row has one or two entries: the percentile lines read the row at indices
    1 and 2, index 2 is past its end, converting the [undefined] read there
    throws, and the probe returns [false]; when the values that are there
    convert, the failure it prints is that [TypeError]. *)
Theorem short_reward_row_fails t r feeHistory fees row :
  answered t = Some r -> error r = None -> result r = Some feeHistory ->
  baseFeePerGas feeHistory = Some fees -> fees <> [] ->
  latestRewards feeHistory = Some row ->
  (length row = 1 \/ length row = 2)%nat ->
  (length row = 1%nat -> row !! 1%nat = None) /\
  row !! 2%nat = None /\
  raises (eq undefinedToBigInt) (gwei (hexOrString (row !! 2%nat))) /\
  (testFeeHistory t).1 = inr false /\
  (forallb convertsb fees = true -> forallb convertsb row = true ->
   exists t',
     testFeeHistory t =
     (inr false, print (Failed "Cannot convert undefined to a BigInt") t')).
Proof.
  intros Ha He Hres Hbase Hne Hrow Hlen.
  assert (row !! 2%nat = None) as Hpast
    by (apply lookup_ge_None; destruct Hlen as [-> | ->]; lia).
  split; [intros H1; apply lookup_ge_None; lia |].
  split; [exact Hpast |]. split; [rewrite Hpast; apply gwei_undefined |].
  rewrite (testFeeHistory_answered t r Ha), He. split.
  - destruct (try_failed anything
                (feeHistoryReport r (Some (formatUsed t))) (called t))
      as (e & t' & -> & _); [| reflexivity].
    eapply feeHistoryReport_fails; eauto using reportRewards_short.
  - intros Hfees Hconv.
    destruct (try_failed (eq undefinedToBigInt)
                (feeHistoryReport r (Some (formatUsed t))) (called t))
      as (e & t' & -> & <-); [| now exists t'].
    eapply feeHistoryReport_raises; eauto using reportRewards_short_undefined.
Qed.

(** The reward lines go through when there is no latest row to report, or
    when it has its three percentiles and they convert. *)
Definition rewardsReadable (feeHistory : FeeHistoryResult) : bool :=
  match latestRewards feeHistory with
  | Some ((_ :: _) as row) =>
      (3 <=? length row)%nat && forallb convertsb (take 3 row)
  | _ => true
  end.

Lemma reportRewards_nothing feeHistory :
  latestRewards feeHistory = None \/ latestRewards feeHistory = Some [] ->
  reportRewards feeHistory = mret tt.
Proof.
  unfold latestRewards, reportRewards.
  destruct (reward feeHistory) as [[| r rows] |]; simpl; try reflexivity.
  change (match rows with [] => Some r | _ :: _ => last rows end)
    with (last (r :: rows)).
  now intros [-> | ->].
Qed.

Lemma reportRewards_readable feeHistory :
  rewardsReadable feeHistory = true ->
  returns anything (reportRewards feeHistory).
Proof.
  unfold rewardsReadable.
  destruct (latestRewards feeHistory) as [[| a row] |] eqn:Hrow.
  - intros _. rewrite reportRewards_nothing by auto. now apply returns_ret.
  - intros [Hlen Hconv]%andb_true_iff. apply Nat.leb_le in Hlen.
    rewrite (reportRewards_row _ _ _ Hrow).
    destruct row as [| b [| c row]]; simpl in Hlen; try lia.
    simpl in Hconv. rewrite ?take_0, ?andb_true_r in Hconv.
    apply andb_true_iff in Hconv as [Ha [Hb Hc]%andb_true_iff].
    eapply returns_bind; [apply returns_log | intros _ _].
    eapply returns_bind; [apply (gwei_converts _ Ha) | intros g25 _].
    eapply returns_bind; [apply returns_log | intros _ _].
    eapply returns_bind; [apply (gwei_converts _ Hb) | intros g50 _].
    eapply returns_bind; [apply returns_log | intros _ _].
    eapply returns_bind; [apply (gwei_converts _ Hc) | intros g75 _].
    apply returns_log.
  - intros _. rewrite reportRewards_nothing by auto. now apply returns_ret.
Qed.

(** C6, as the code has it.  On a fee-history call that yields a successful
    result, [eip1559] ends up [true] exactly when [baseFeePerGas] is present
    and non-empty.  The probe passes when [baseFeePerGas] is absent or empty;
    when it is there, the probe passes provided its values convert and the
    latest reward row, if there is one to report, has its three percentiles
    and they convert.  A value that does not convert fails the probe, be it
    a base fee or one of the three percentiles of the latest row; the
    classification stays [true]. *)
Theorem successful_result_classified t r feeHistory :
  answered t = Some r -> error r = None -> result r = Some feeHistory ->
  eip1559 (results (testFeeHistory t).2) =
    Some (nonEmpty (baseFeePerGas feeHistory)) /\
  (nonEmpty (baseFeePerGas feeHistory) = false ->
   (testFeeHistory t).1 = inr true) /\
  (forall fees,
     baseFeePerGas feeHistory = Some fees -> fees <> [] ->
     forallb convertsb fees = true -> rewardsReadable feeHistory = true ->
     (testFeeHistory t).1 = inr true) /\
  (forall fees,
     baseFeePerGas feeHistory = Some fees ->
     forallb convertsb fees = false ->
     (testFeeHistory t).1 = inr false /\
     eip1559 (results (testFeeHistory t).2) = Some true) /\
  (forall fees row,
     baseFeePerGas feeHistory = Some fees -> fees <> [] ->
     latestRewards feeHistory = Some row -> (3 <= length row)%nat ->
     forallb convertsb (take 3 row) = false ->
     (testFeeHistory t).1 = inr false /\
     eip1559 (results (testFeeHistory t).2) = Some true).
Proof.
  intros Ha He Hres.
  assert (eip1559 (results (testFeeHistory t).2) =
          Some (nonEmpty (baseFeePerGas feeHistory))) as Heip.
  { rewrite (testFeeHistory_answered t r Ha), He.
    rewrite after_try by apply results_failed.
    now apply feeHistoryReport_eip1559. }
  split; [exact Heip |]. rewrite Heip.
  rewrite (testFeeHistory_answered t r Ha), He.
  split; [| split; [| split]].
  - intros Hbase.
    destruct (try_passed (eq true)
                (feeHistoryReport r (Some (formatUsed t))) failed_ (called t))
      as (b & t' & -> & <-); [| reflexivity].
    eapply feeHistoryReport_legacy; eauto.
  - intros fees Hbase Hne Hconv Hrew.
    destruct (try_passed (eq true)
                (feeHistoryReport r (Some (formatUsed t))) failed_ (called t))
      as (b & t' & -> & <-); [| reflexivity].
    eapply feeHistoryReport_passes; eauto using reportRewards_readable.
  - intros fees Hbase Hconv.
    destruct (try_failed anything
                (feeHistoryReport r (Some (formatUsed t))) (called t))
      as (e & t' & -> & _).
    { eapply feeHistoryReport_unconverted; eauto. }
    rewrite Hbase. destruct fees; [discriminate | now split].
  - intros fees row Hbase Hne Hrow Hlen Hconv.
    destruct (try_failed anything
                (feeHistoryReport r (Some (formatUsed t))) (called t))
      as (e & t' & -> & _).
    { eapply feeHistoryReport_fails; eauto using reportRewards_unconverted. }
    rewrite Hbase. destruct fees; [contradiction | now split].
Qed.

(** ** What stays on the console *)

(** The lines of the probes, as opposed to those of the summary that
    [runAllTests] prints once the probes are through. *)
Definition beforeSummary (line : Line) : Prop :=
  match line with
  | Title text => text <> "SUMMARY"
  | Counts _ _ | SummaryChainId _ | SummaryBlock _ | GasModel _ | Summary _ =>
      False
  | _ => True
  end.

(** A computation only ever adds lines to the console, and none of the
    summary. *)
Definition grows {A} (m : M A) : Prop :=
  forall t, exists lines,
    console (m t).2 = console t ++ lines /\ Forall beforeSummary lines.

Lemma grows_quiet {A} (m : M A) : preserves console m -> grows m.
Proof.
  intros Hm t. exists []. rewrite Hm, app_nil_r. split; [reflexivity | constructor].
Qed.

Lemma grows_ret {A} (a : A) : grows (mret a).
Proof. now apply grows_quiet. Qed.

Lemma grows_throw {A} e : grows (@throw A e).
Proof. now apply grows_quiet. Qed.

Lemma grows_lift {A} (r : JS.Exn + A) : grows (lift r).
Proof. apply grows_quiet. intros t. now destruct r. Qed.

Lemma grows_log line : beforeSummary line -> grows (log line).
Proof. intros Hl t. exists [line]. split; [reflexivity | now repeat constructor]. Qed.

Lemma grows_modifyResults g : grows (modifyResults g).
Proof. now apply grows_quiet. Qed.

Lemma grows_getTester : grows getTester.
Proof. now apply grows_quiet. Qed.

Lemma grows_makeRequest {T} `{Transport T} method params :
  grows (makeRequest (T := T) method params).
Proof.
  apply grows_quiet. intros t. unfold makeRequest. now destruct (send _).
Qed.

Lemma grows_bind {A B} (m : M A) (k : A -> M B) :
  grows m -> (forall a, grows (k a)) -> grows (m ≫= k).
Proof.
  intros Hm Hk t. unfold mbind, M_bind.
  destruct (Hm t) as (l1 & E1 & F1). destruct (m t) as [[e | a] t1]; simpl in *.
  - now exists l1.
  - destruct (Hk a t1) as (l2 & E2 & F2). exists (l1 ++ l2).
    rewrite E2, E1, app_assoc. split; [reflexivity | now apply Forall_app].
Qed.

Lemma grows_try {A} (body : M A) handler :
  grows body -> (forall e, grows (handler e)) -> grows (try body handler).
Proof.
  intros Hb Hh t. unfold try.
  destruct (Hb t) as (l1 & E1 & F1).
  destruct (body t) as [[[e |] | a] t1]; simpl in *.
  - destruct (Hh e t1) as (l2 & E2 & F2). exists (l1 ++ l2).
    rewrite E2, E1, app_assoc. split; [reflexivity | now apply Forall_app].
  - now exists l1.
  - now exists l1.
Qed.

Lemma grows_when b m : grows m -> grows (when b m).
Proof. intros Hm. destruct b; [exact Hm | apply grows_ret]. Qed.

Create HintDb growing.

#[local] Hint Resolve grows_ret grows_throw grows_lift
  grows_modifyResults grows_getTester grows_makeRequest grows_when : growing.

Ltac growing :=
  repeat first
    [ progress auto with growing
    | apply grows_log; exact I
    | apply grows_when
    | apply grows_bind; [| intros ?]
    | apply grows_try; [| intros ?]
    | match goal with
      | |- grows (match ?x with _ => _ end) => destruct x
      | |- grows (if ?x then _ else _) => destruct x
      | |- grows (let '(_, _) := ?x in _) => destruct x
      end ].

Lemma grows_failed e : grows (failed_ e).
Proof. unfold failed_. growing. Qed.

Lemma grows_throwIfError {T} (response : RpcResponse T) :
  grows (throwIfError response).
Proof. unfold throwIfError. growing. Qed.

Lemma grows_requireResult {T} `{Truthy T} (response : RpcResponse T) :
  grows (requireResult response).
Proof. unfold requireResult. growing. Qed.

Lemma grows_gwei v : grows (gwei v).
Proof. unfold gwei. growing. Qed.

#[local] Hint Resolve grows_failed grows_throwIfError grows_requireResult
  grows_gwei : growing.

Lemma grows_sumBaseFees fees sum : grows (sumBaseFees fees sum).
Proof. revert sum. induction fees as [| fee rest IH]; intros sum; simpl; growing. Qed.

Lemma grows_reportRewards feeHistory : grows (reportRewards feeHistory).
Proof. unfold reportRewards. growing. Qed.

#[local] Hint Resolve grows_sumBaseFees grows_reportRewards : growing.

(** A computation that prints [line], whatever else it does. *)
Definition prints {A} (line : Line) (m : M A) : Prop :=
  forall t, line ∈ console (m t).2.

Lemma prints_log_then {B} line (k : unit -> M B) :
  grows (k tt) -> prints line (log line ≫= k).
Proof.
  intros Hk t. rewrite (bind_returns (log line) k t tt _ eq_refl).
  destruct (Hk (print line t)) as (l & -> & _). simpl.
  apply elem_of_app. left. apply elem_of_app. right. apply list_elem_of_here.
Qed.

Lemma prints_bind_l {A B} line (m : M A) (k : A -> M B) :
  prints line m -> (forall a, grows (k a)) -> prints line (m ≫= k).
Proof.
  intros Hm Hk t. unfold mbind, M_bind.
  specialize (Hm t). destruct (m t) as [[e | a] t1]; simpl in *; [exact Hm |].
  destruct (Hk a t1) as (l & -> & _). apply elem_of_app. now left.
Qed.

Lemma prints_bind_r {A B} (Q : A -> Prop) line (m : M A) (k : A -> M B) :
  returns Q m -> (forall a, Q a -> prints line (k a)) -> prints line (m ≫= k).
Proof.
  intros Hm Hk t. destruct (Hm t) as (a & t1 & E & Ha).
  rewrite (bind_returns _ _ _ _ _ E). now apply Hk.
Qed.

Lemma prints_try {A} line (body : M A) handler :
  prints line body -> (forall e, grows (handler e)) ->
  prints line (try body handler).
Proof.
  intros Hb Hh t. unfold try.
  specialize (Hb t).
  destruct (body t) as [[[e |] | a] t1]; simpl in *; [| exact Hb..].
  destruct (Hh e t1) as (l & -> & _). apply elem_of_app. now left.
Qed.

(** ** Hex text and integers *)

Lemma digitValue_digitChar d :
  0 <= d < 16 -> JS.digitValue (JS.digitChar d) = Some d.
Proof.
  intros Hd.
  assert (d = 0 \/ d = 1 \/ d = 2 \/ d = 3 \/ d = 4 \/ d = 5 \/ d = 6 \/
          d = 7 \/ d = 8 \/ d = 9 \/ d = 10 \/ d = 11 \/ d = 12 \/ d = 13 \/
          d = 14 \/ d = 15) as H by lia.
  decompose [or] H; subst; reflexivity.
Qed.

Lemma digitsValue_toDigits fuel n acc :
  0 <= n < 16 ^ Z.of_nat fuel ->
  JS.digitsValue 16 (JS.toDigits 16 fuel n acc) 0 = JS.digitsValue 16 acc n.
Proof.
  revert n acc. induction fuel as [| fuel IH]; intros n acc Hn.
  - simpl in *. now replace n with 0 by lia.
  - cbn [JS.toDigits].
    assert (0 <= n mod 16 < 16) as Hmod by (apply Z.mod_pos_bound; lia).
    assert (n = 16 * (n / 16) + n mod 16) as Hdiv by (apply Z.div_mod; lia).
    destruct (n / 16 =? 0) eqn:Hq.
    + apply Z.eqb_eq in Hq. cbn [JS.digitsValue].
      rewrite digitValue_digitChar by exact Hmod. simpl. f_equal. lia.
    + rewrite IH.
      * cbn [JS.digitsValue]. rewrite digitValue_digitChar by exact Hmod.
        simpl. f_equal. lia.
      * rewrite Nat2Z.inj_succ, Z.pow_succ_r in Hn by lia.
        split; [apply Z.div_pos; lia | apply Z.div_lt_upper_bound; lia].
Qed.

Lemma allDigits_toDigits fuel n acc :
  0 <= n -> JS.allDigits 16 acc = true ->
  JS.allDigits 16 (JS.toDigits 16 fuel n acc) = true.
Proof.
  revert n acc. induction fuel as [| fuel IH]; intros n acc Hn Hacc;
    [exact Hacc |].
  cbn [JS.toDigits].
  assert (0 <= n mod 16 < 16) as Hmod by (apply Z.mod_pos_bound; lia).
  assert (JS.allDigits 16 (String (JS.digitChar (n mod 16)) acc) = true) as H.
  { cbn [JS.allDigits]. unfold JS.isDigit.
    rewrite digitValue_digitChar by exact Hmod.
    rewrite Hacc, andb_true_r. apply Z.ltb_lt. lia. }
  destruct (n / 16 =? 0); [exact H |].
  apply IH; [apply Z.div_pos; lia | exact H].
Qed.

Lemma toDigits_nonempty radix fuel n acc :
  JS.toDigits radix (S fuel) n acc <> EmptyString.
Proof.
  revert n acc. induction fuel as [| fuel IH]; intros n acc; cbn [JS.toDigits].
  - destruct (n / radix =? 0); discriminate.
  - destruct (n / radix =? 0); [discriminate | apply IH].
Qed.

Lemma digitsFuel_enough n : 0 <= n -> n < 16 ^ Z.of_nat (JS.digitsFuel n).
Proof.
  intros Hn. unfold JS.digitsFuel.
  rewrite Nat2Z.inj_succ, Z2Nat.id by apply Z.log2_nonneg.
  destruct (Z.eq_dec n 0) as [-> | Hne]; [reflexivity |].
  pose proof (Z.log2_spec n ltac:(lia)) as [_ Hlt].
  eapply Z.lt_le_trans; [exact Hlt |].
  apply Z.pow_le_mono_l. pose proof (Z.log2_nonneg n). lia.
Qed.

(** Printing in base 16 and reading back. *)
Lemma render16_roundtrip n :
  0 <= n ->
  JS.render 16 n <> EmptyString /\
  JS.allDigits 16 (JS.render 16 n) = true /\
  JS.digitsValue 16 (JS.render 16 n) 0 = n.
Proof.
  intros Hn. unfold JS.render. split; [apply toDigits_nonempty |]. split.
  - now apply allDigits_toDigits.
  - rewrite digitsValue_toDigits; [reflexivity |].
    split; [exact Hn | now apply digitsFuel_enough].
Qed.

Lemma spanDigits_all radix ds :
  JS.allDigits radix ds = true -> JS.spanDigits radix ds = (ds, EmptyString).
Proof.
  induction ds as [| c ds IH]; simpl; [reflexivity |].
  intros [Hc Hds]%andb_true_iff. now rewrite Hc, IH.
Qed.

Lemma literalValue_all radix ds :
  ds <> EmptyString -> JS.allDigits radix ds = true ->
  JS.literalValue radix ds = Some (JS.digitsValue radix ds 0).
Proof.
  intros Hne Hall. unfold JS.literalValue. rewrite spanDigits_all by exact Hall.
  destruct ds; [contradiction | reflexivity].
Qed.

Lemma BigInt_hex ds :
  ds <> EmptyString -> JS.allDigits 16 ds = true ->
  JS.BigInt (Some ("0x" +:+ ds)) = inr (JS.digitsValue 16 ds 0).
Proof.
  intros Hne Hall. unfold JS.BigInt.
  change (JS.StringToBigInt ("0x" +:+ ds)) with (JS.literalValue 16 ds).
  now rewrite literalValue_all.
Qed.

(** ** The fee-history probe: base fees in either encoding *)

(** A base fee, and the wei amount it stands for: [0x] and hex digits, or a
    number holding a non-negative integer below 2^53 (a larger one has lost
    digits when the response was parsed). *)
Inductive encodes : StringOrNumber -> Z -> Prop :=
| encodes_hex ds :
    ds <> EmptyString -> JS.allDigits 16 ds = true ->
    encodes (Str ("0x" +:+ ds)) (JS.digitsValue 16 ds 0)
| encodes_number n : 0 <= n < 2 ^ 53 -> encodes (Nbr (JS.Num n)) n.

Lemma toString16_natural n : 0 <= n -> JS.toString16 (JS.Num n) = JS.render 16 n.
Proof.
  intros Hn. unfold JS.toString16, JS.negative, JS.magnitude16.
  destruct (Z.ltb_spec n 0) as [? | _]; [lia |]. now rewrite Z.abs_eq.
Qed.

(** Each element goes to BigInt by itself, whichever way it is written. *)
Lemma encodes_BigInt fee wei :
  encodes fee wei -> JS.BigInt (hexOrString (Some fee)) = inr wei.
Proof.
  intros [ds Hne Hall | n [Hn _]]; cbn [hexOrString].
  - now apply BigInt_hex.
  - rewrite toString16_natural by exact Hn.
    destruct (render16_roundtrip n Hn) as (Hne & Hall & Hval).
    rewrite <- Hval at 2. now apply BigInt_hex.
Qed.

Lemma encodes_converts fees weis :
  Forall2 encodes fees weis -> forallb convertsb fees = true.
Proof.
  induction 1 as [| fee wei fees weis Henc _ IH]; simpl; [reflexivity |].
  unfold convertsb at 1. now rewrite (encodes_BigInt _ _ Henc).
Qed.

(** The sum the [reduce] arrives at, on the amounts alone. *)
Definition sumGwei (weis : list Z) (sum : JS.Number) : JS.Number :=
  foldl (fun sum wei =>
           JS.fadd sum (JS.fdiv (JS.NumberOfBigInt wei) (JS.Num (10 ^ 9))))
        sum weis.

Definition averageGwei (weis : list Z) : JS.Number :=
  JS.fdiv (sumGwei weis (JS.Num 0)) (JS.Num (Z.of_nat (length weis))).

Lemma sumBaseFees_encodes fees weis sum :
  Forall2 encodes fees weis ->
  returns (eq (sumGwei weis sum)) (sumBaseFees fees sum).
Proof.
  intros H. revert sum.
  induction H as [| fee wei fees weis Henc _ IH]; intros sum; simpl.
  - now apply returns_ret.
  - eapply returns_bind;
      [apply (gwei_returns _ _ (encodes_BigInt _ _ Henc)) | intros g <-].
    apply IH.
Qed.

Lemma feeHistoryReport_prints_average response parameterFormat feeHistory fees weis :
  result response = Some feeHistory ->
  baseFeePerGas feeHistory = Some fees -> fees <> [] ->
  Forall2 encodes fees weis ->
  prints (AverageBaseFee (JS.toFixed (averageGwei weis) 2))
    (feeHistoryReport response parameterFormat).
Proof.
  intros Hres Hbase Hne Henc. unfold feeHistoryReport, averageGwei.
  pose proof (encodes_converts _ _ Henc) as Hconv.
  rewrite <- (Forall2_length _ _ _ Henc).
  eapply prints_bind_r; [apply (requireResult_fee _ _ Hres) | intros ? <-].
  eapply prints_bind_r; [apply returns_modifyResults | intros _ _].
  apply prints_bind_l; [| intros _; growing].
  rewrite Hbase. destruct fees as [| fee rest]; [contradiction |].
  destruct (last_cons_some fee rest) as [latest Hlast]. rewrite Hlast.
  eapply prints_bind_r;
    [apply (gwei_converts _ (converts_last _ _ Hconv Hlast)) | intros g _].
  eapply prints_bind_r; [apply returns_log | intros _ _].
  eapply prints_bind_r; [apply returns_format | intros _ _].
  eapply prints_bind_r; [apply returns_log | intros _ _].
  eapply prints_bind_r; [apply returns_log | intros _ _].
  eapply prints_bind_r; [apply (sumBaseFees_encodes _ _ _ Henc) | intros sum <-].
  apply prints_log_then. growing.
Qed.


(** ** The chain-identity probe *)

Definition chainIdRequest (t : RPCTester) : JsonRpcRequest :=
  {| method := "eth_chainId"; params := []; id := requestId t + 1 |}.

(** The caller expected a chain id and the observed one is another. *)
Definition mismatch (t : RPCTester) (observed : JS.Number) : bool :=
  match expectedChainId t with
  | Some expected => JS.truthy expected && JS.strict_ne observed expected
  | None => false
  end.

(** The call came back without an error and with a result that is not empty. *)
Definition succeededWith {T} `{Truthy T} (reply : Reply T) (r : T) : Prop :=
  exists response,
    reply = Resolve response /\ error response = None /\
    result response = Some r /\ truthy r = true.

(** The call came back, and not with a result to go by: the request was
    rejected, or the response has an error, or no result, or an empty one. *)
Definition cameBackWithout {T} `{Truthy T} (reply : Reply T) : Prop :=
  (exists e, reply = Reject e) \/
  (exists response,
     reply = Resolve response /\
     (error response <> None \/ result response = None \/
      exists r, result response = Some r /\ truthy r = false)).

Lemma succeededWith_dec {T} `{Truthy T} (reply : Reply T) :
  (exists r, succeededWith reply r) \/ reply = Pending \/ cameBackWithout reply.
Proof.
  unfold cameBackWithout.
  destruct reply as [response | e |]; [| right; right; left; eauto | auto].
  destruct (error response) as [e |] eqn:Ee;
    [right; right; right; exists response; split; [easy | left; congruence] |].
  destruct (result response) as [r |] eqn:Er;
    [| right; right; right; exists response; auto].
  destruct (truthy r) eqn:Et.
  - left. exists r, response. auto.
  - right; right; right. exists response. split; [easy |]. right; right. eauto.
Qed.

(** The three ways a call can go exclude each other. *)
Lemma succeededWith_only {T} `{Truthy T} (reply : Reply T) r :
  succeededWith reply r -> reply <> Pending /\ ~ cameBackWithout reply.
Proof.
  intros (response & -> & He & Hr & Ht). split; [discriminate |].
  intros [[e [=]] | (response' & [= <-] & H')].
  destruct H' as [H' | [H' | (r0 & Hr0 & Ht0)]]; congruence.
Qed.

Lemma cameBackWithout_settled {T} `{Truthy T} (reply : Reply T) :
  cameBackWithout reply -> reply <> Pending.
Proof. intros [[e ->] | (response & -> & _)]; discriminate. Qed.

Lemma testChainId_passes t s :
  succeededWith (send (chainIdRequest t)) s ->
  exists t',
    testChainId t = (inr true, t') /\
    console t' =
      console t ++
      [Testing "eth_chainId";
       ChainId (JS.parseInt s 16) (chainName (JS.parseInt s 16))] ++
      (let ms := default 0 (responseTime <$>
                   match send (T := string) (chainIdRequest t) with
                   | Resolve response => Some response
                   | _ => None
                   end) in [ResponseTime ms]) ++
      (if mismatch t (JS.parseInt s 16)
       then [ChainIdWarning (default JS.NaN (expectedChainId t)) (JS.parseInt s 16)]
       else []).
Proof.
  intros (response & Hsend & He & Hr & Ht).
  unfold testChainId, makeRequest, throwIfError, requireResult, try, mismatch.
  unfold mbind, M_bind. simpl. fold (chainIdRequest t).
  rewrite Hsend. simpl. rewrite He, Hr, Ht. simpl.
  destruct (expectedChainId t) as [expected |]; simpl.
  - destruct (JS.truthy expected && JS.strict_ne (JS.parseInt s 16) expected);
      simpl; eexists; (split; [reflexivity |]); simpl;
      now rewrite <- ?app_assoc.
  - eexists. split; [reflexivity |]. simpl. now rewrite <- ?app_assoc.
Qed.

Lemma testChainId_fails t :
  cameBackWithout (send (T := string) (chainIdRequest t)) ->
  (testChainId t).1 = inr false.
Proof.
  unfold testChainId, makeRequest, throwIfError, requireResult, try.
  unfold mbind, M_bind. simpl. fold (chainIdRequest t).
  intros [[e He] | (response & He & H)]; rewrite He; simpl; [reflexivity |].
  destruct (error response) as [e |]; simpl; [reflexivity |].
  destruct H as [H | [Hr | (r & Hr & Ht)]]; [congruence | |];
    rewrite Hr; simpl; rewrite ?Ht; reflexivity.
Qed.

Lemma testChainId_pending t :
  send (T := string) (chainIdRequest t) = Pending ->
  testChainId t =
  (inl Suspended, write (chainIdRequest t) (print (Testing "eth_chainId") t)).
Proof.
  intros Hsend.
  unfold testChainId, makeRequest, try, mbind, M_bind. simpl.
  fold (chainIdRequest t). now rewrite Hsend.
Qed.

(** C9.  The chain-identity probe returns [true] exactly when the call came
    back without an error and with a result, and [false] exactly when the
    transport failed, the response carried an error, or it had no (or an
    empty) result.  When it passes it does so whatever chain id was expected
    and whether or not the id has a name: a mismatch adds a warning line, an
    id without a name is printed without one. *)
Theorem chain_id_passes_iff_result t :
  let reply := send (T := string) (chainIdRequest t) in
  ((testChainId t).1 = inr true <-> exists s, succeededWith reply s) /\
  ((testChainId t).1 = inr false <->
   (exists e, reply = Reject e) \/
   (exists response,
      reply = Resolve response /\
      (error response <> None \/ result response = None \/
       result response = Some ""))) /\
  (forall s,
     succeededWith reply s ->
     let observed := JS.parseInt s 16 in
     ChainId observed (chainName observed) ∈ console (testChainId t).2 /\
     (ChainIdWarning (default JS.NaN (expectedChainId t)) observed
        ∈ drop (length (console t)) (console (testChainId t).2) <->
      mismatch t observed = true)).
Proof.
  cbv zeta. split; [| split].
  - split.
    + intros Hpass.
      destruct (succeededWith_dec (send (T := string) (chainIdRequest t)))
        as [H | [H | H]]; [exact H | |].
      * rewrite (testChainId_pending t H) in Hpass. discriminate.
      * rewrite (testChainId_fails t H) in Hpass. discriminate.
    + intros [s Hs]. destruct (testChainId_passes t s Hs) as (t' & -> & _).
      reflexivity.
  - split.
    + intros Hfail.
      destruct (succeededWith_dec (send (T := string) (chainIdRequest t)))
        as [[s Hs] | [H | [H | (response & Hsend & H)]]].
      * destruct (testChainId_passes t s Hs) as (t' & E & _).
        rewrite E in Hfail. discriminate.
      * rewrite (testChainId_pending t H) in Hfail. discriminate.
      * now left.
      * right. exists response. split; [exact Hsend |].
        destruct H as [H | [H | (r & Hr & Ht)]]; auto.
        right; right. rewrite Hr. f_equal.
        unfold truthy, string_truthy in Ht.
        apply negb_false_iff, String.eqb_eq in Ht. exact Ht.
    + intros [H | (response & Hsend & H)]; apply testChainId_fails;
        [now left |].
      right. exists response. split; [exact Hsend |].
      destruct H as [H | [H | H]]; auto.
      right; right. exists "". auto.
  - intros s Hs. destruct (testChainId_passes t s Hs) as (t' & -> & Hc).
    simpl. rewrite Hc. split;
      [apply elem_of_app; right; apply list_elem_of_further, list_elem_of_here |].
    rewrite drop_app_length.
    destruct (mismatch t (JS.parseInt s 16)); simpl.
    + split; [reflexivity |]. intros _.
      do 3 apply list_elem_of_further. apply list_elem_of_here.
    + split; [| discriminate]. intros Hin.
      repeat (apply elem_of_cons in Hin as [Hin | Hin]; [discriminate |]).
      now apply elem_of_nil in Hin.
Qed.

(** ** The block-activity probe *)

(** Some later block number is greater than an earlier one. *)
Definition increases (blocks : list JS.Number) : Prop :=
  exists i j bi bj,
    (i < j)%nat /\ blocks !! i = Some bi /\ blocks !! j = Some bj /\
    JS.gt bj bi = true.

(** An increase between neighbours is an increase. *)
Lemma someIncrement_increases previous blocks :
  someIncrement previous blocks = true -> increases (previous :: blocks).
Proof.
  revert previous. induction blocks as [| block rest IH]; intros previous;
    simpl; [discriminate |].
  intros [H | H]%orb_true_iff.
  - exists 0%nat, 1%nat, previous, block. repeat split; [lia | exact H].
  - destruct (IH _ H) as (i & j & bi & bj & Hij & Hi & Hj & Hgt).
    exists (S i), (S j), bi, bj. repeat split; [lia | assumption..].
Qed.

(** Numbers other than [NaN] are in a line: what is not greater than
    something that is not greater than a third is not greater than it. *)
Lemma rank_some n : n <> JS.NaN -> exists l q, JS.rank n = Some (l, q).
Proof. destruct n; simpl; eauto; contradiction. Qed.

Lemma not_gt_iff a b la x lb y :
  JS.rank a = Some (la, x) -> JS.rank b = Some (lb, y) ->
  JS.gt a b = false <-> (la < lb \/ (la = lb /\ (x <= y)%Q)).
Proof.
  intros Ha Hb. unfold JS.gt. rewrite Ha, Hb.
  rewrite orb_false_iff, andb_false_iff, Z.ltb_ge, Z.eqb_neq, negb_false_iff,
    Qle_bool_iff.
  split.
  - intros [Hle [Hne | Hq]]; [left; lia |].
    destruct (Z.eq_dec la lb); [right; auto | left; lia].
  - intros [Hlt | [-> Hq]]; [split; [lia | left; lia] |].
    split; [lia | now right].
Qed.

Lemma not_gt_trans x b p :
  x <> JS.NaN -> b <> JS.NaN -> p <> JS.NaN ->
  JS.gt x b = false -> JS.gt b p = false -> JS.gt x p = false.
Proof.
  intros Hx Hb Hp.
  destruct (rank_some x Hx) as (lx & qx & Rx).
  destruct (rank_some b Hb) as (lb & qb & Rb).
  destruct (rank_some p Hp) as (lp & qp & Rp).
  rewrite (not_gt_iff _ _ _ _ _ _ Rx Rb), (not_gt_iff _ _ _ _ _ _ Rb Rp),
    (not_gt_iff _ _ _ _ _ _ Rx Rp).
  intros [H1 | [-> H1]] [H2 | [-> H2]]; try (left; lia).
  right. split; [reflexivity | now apply (Qle_trans _ qb)].
Qed.

(** Without an increase between neighbours, and without [NaN], nothing that
    follows exceeds what came before. *)
Lemma someIncrement_bounded previous blocks x :
  JS.NaN ∉ previous :: blocks ->
  someIncrement previous blocks = false -> x ∈ blocks ->
  JS.gt x previous = false.
Proof.
  revert previous. induction blocks as [| block rest IH]; intros previous Hnan;
    simpl; [intros _ Hx; now apply elem_of_nil in Hx |].
  intros [Hb Hrest]%orb_false_iff [-> | Hx]%elem_of_cons; [exact Hb |].
  assert (JS.gt x block = false) as Hxb.
  { apply IH; [| assumption..].
    intros Hin. apply Hnan. now apply list_elem_of_further. }
  assert (x <> JS.NaN) as Hxn.
  { intros ->. apply Hnan. now do 2 apply list_elem_of_further. }
  assert (block <> JS.NaN) as Hbn.
  { intros ->. apply Hnan. apply list_elem_of_further, list_elem_of_here. }
  assert (previous <> JS.NaN) as Hpn.
  { intros ->. apply Hnan. apply list_elem_of_here. }
  now apply (not_gt_trans x block previous).
Qed.

Lemma increases_someIncrement previous blocks :
  JS.NaN ∉ previous :: blocks ->
  increases (previous :: blocks) -> someIncrement previous blocks = true.
Proof.
  revert previous. induction blocks as [| block rest IH]; intros previous Hnan
    (i & j & bi & bj & Hij & Hi & Hj & Hgt).
  - destruct j as [| j]; [lia |]. now rewrite lookup_cons, lookup_nil in Hj.
  - destruct (someIncrement previous (block :: rest)) eqn:E; [reflexivity |].
    destruct j as [| j]; [lia |]. rewrite lookup_cons in Hj.
    destruct i as [| i].
    + injection Hi as <-.
      rewrite (someIncrement_bounded previous (block :: rest) bj Hnan E) in Hgt;
        [discriminate |].
      eapply list_elem_of_lookup_2; eassumption.
    + rewrite lookup_cons in Hi.
      simpl in E. apply orb_false_iff in E as [_ E].
      rewrite IH in E; [discriminate | |].
      * intros Hin. apply Hnan. now apply list_elem_of_further.
      * exists i, j, bi, bj. repeat split; [lia | assumption..].
Qed.

(** The neighbour check is the any-pair check, as long as no sample is [NaN]. *)
Lemma isIncrementing_iff blocks :
  JS.NaN ∉ blocks -> isIncrementing blocks = true <-> increases blocks.
Proof.
  destruct blocks as [| first rest]; simpl.
  - intros _. split; [discriminate |].
    intros (i & j & bi & bj & _ & Hi & _). now rewrite lookup_nil in Hi.
  - intros Hnan. split;
      [apply someIncrement_increases | now apply increases_someIncrement].
Qed.

Lemma console_makeRequest {T} `{Transport T} method params :
  preserves console (makeRequest (T := T) method params).
Proof. intros t. unfold makeRequest. now destruct (send _). Qed.

#[local] Hint Resolve console_makeRequest : quiet.

Lemma console_blockNumberCalls n results http2Detected :
  preserves console (blockNumberCalls n results http2Detected).
Proof.
  revert results http2Detected.
  induction n as [| n IH]; intros results http2Detected; simpl; quiet.
Qed.

Lemma blockNumberCalls_length n results http2Detected t results' http2' t' :
  blockNumberCalls n results http2Detected t = (inr (results', http2'), t') ->
  length results' = (length results + n)%nat.
Proof.
  revert results http2Detected t.
  induction n as [| n IH]; intros results http2Detected t; cbn [blockNumberCalls].
  - intros [= <- _ _]. lia.
  - unfold mbind, M_bind.
    destruct (makeRequest _ _ t) as [[e | response] t1]; [discriminate |].
    destruct (throwIfError response t1) as [[e | []] t2]; [discriminate |].
    destruct (requireResult response t2) as [[e | result] t3]; [discriminate |].
    intros H. apply IH in H. rewrite length_app in H. simpl in H. lia.
Qed.

Definition blockNumberHeading : Line := Testing "eth_blockNumber (multiple calls)".

(** The block numbers of the five calls, when all five came back with one. *)
Definition samples (t : RPCTester) : option (list JS.Number) :=
  match blockNumberCalls (Z.to_nat numCalls) [] false (print blockNumberHeading t) with
  | (inr (results, _), _) => Some (blockNumber <$> results)
  | (inl _, _) => None
  end.

(** What a probe printed, given the tester it started from. *)
Definition printed {A} (m : M A) (t : RPCTester) : list Line :=
  drop (length (console t)) (console (m t).2).

Lemma testBlockNumber_printed t blocks :
  samples t = Some blocks ->
  length blocks = 5%nat /\
  (testBlockNumber t).1 = inr true /\
  exists statistics,
    printed testBlockNumber t =
      blockNumberHeading ::
      (statistics ++ if isIncrementing blocks then [NetworkActive] else []) /\
    NetworkActive ∉ statistics.
Proof.
  unfold samples, printed, testBlockNumber. fold blockNumberHeading.
  rewrite (bind_returns (log blockNumberHeading) _ t tt _ eq_refl).
  pose proof (console_blockNumberCalls (Z.to_nat numCalls) [] false
                (print blockNumberHeading t)) as Hconsole.
  destruct (blockNumberCalls (Z.to_nat numCalls) [] false (print blockNumberHeading t))
    as [[e | [results http2]] t1] eqn:Hcalls; [discriminate |].
  intros [= <-]. apply blockNumberCalls_length in Hcalls as Hlen.
  simpl in Hlen, Hconsole. split; [now rewrite length_fmap |].
  unfold try. rewrite (bind_returns _ _ _ _ _ Hcalls).
  destruct (last results) as [latest |] eqn:Hlast;
    [| apply last_None in Hlast; subst results; discriminate].
  unfold mbind, M_bind, when. simpl. split.
  - now destruct (isIncrementing (blockNumber <$> results)).
  - eexists [_; _; _; _; _; _]. split.
    + destruct (isIncrementing (blockNumber <$> results)); simpl;
        rewrite Hconsole, <- ?app_assoc; simpl;
        now rewrite drop_app_length.
    + intros Hin.
      repeat (apply elem_of_cons in Hin as [Hin | Hin]; [discriminate |]).
      now apply elem_of_nil in Hin.
Qed.


(** ** The balance probe *)

Definition balanceRequest (address : string) (id : Z) : JsonRpcRequest :=
  {| method := "eth_getBalance";
     params := [JString address; JString "latest"]; id := id |}.

(** A balance query came back with a result that reads as an integer. *)
Definition balanceRead (request : JsonRpcRequest) : Prop :=
  exists s wei,
    succeededWith (send (T := string) request) s /\
    JS.StringToBigInt s = Some wei.

Lemma balanceRead_dec request : balanceRead request \/ ~ balanceRead request.
Proof.
  unfold balanceRead.
  destruct (succeededWith_dec (send (T := string) request))
    as [[s Hs] | Hfail].
  - destruct (JS.StringToBigInt s) as [wei |] eqn:E; [left; eauto |].
    right. intros (s' & wei & (r' & Hsend' & _ & Hr' & _) & Hwei).
    destruct Hs as (r & Hsend & _ & Hr & _).
    rewrite Hsend in Hsend'. injection Hsend' as <-.
    rewrite Hr in Hr'. injection Hr' as <-. congruence.
  - right. intros (s & wei & Hs & _).
    destruct (succeededWith_only _ _ Hs) as [Hp Hc].
    destruct Hfail as [H | H]; contradiction.
Qed.

(** One round of the loop over the addresses. *)
Lemma balanceCalls_read address rest t :
  balanceRead (balanceRequest address (requestId t + 1)) ->
  exists t1,
    balanceCalls (address :: rest) t = balanceCalls rest t1 /\
    wire t1 = wire t ++ [balanceRequest address (requestId t + 1)] /\
    requestId t1 = requestId t + 1.
Proof.
  intros (s & wei & (r & Hsend & He & Hr & Ht) & Hwei).
  cbn [balanceCalls].
  unfold makeRequest, throwIfError, requireResult, JS.BigInt.
  unfold mbind, M_bind. fold (balanceRequest address (requestId t + 1)).
  rewrite Hsend. simpl. rewrite He, Hr, Ht. simpl. rewrite Hwei.
  eexists. split; [reflexivity |]. split; reflexivity.
Qed.

(** A query that brings no integer ends the loop: by an exception when the
    call came back, for good when it did not. *)
Lemma balanceCalls_unread address rest t :
  ~ balanceRead (balanceRequest address (requestId t + 1)) ->
  exists stop t1,
    balanceCalls (address :: rest) t = (inl stop, t1) /\
    wire t1 = wire t ++ [balanceRequest address (requestId t + 1)] /\
    (stop = Suspended <->
     send (T := string) (balanceRequest address (requestId t + 1)) = Pending).
Proof.
  intros Hno. cbn [balanceCalls].
  unfold makeRequest, throwIfError, requireResult, JS.BigInt.
  unfold mbind, M_bind. fold (balanceRequest address (requestId t + 1)).
  destruct (send (balanceRequest address (requestId t + 1)))
    as [r | e |] eqn:Hsend; simpl;
    [| eexists _, _; repeat split; (reflexivity || discriminate)..].
  destruct (error r) as [e |] eqn:He; simpl;
    [eexists _, _; repeat split; (reflexivity || discriminate) |].
  destruct (result r) as [s |] eqn:Hr; simpl;
    [| eexists _, _; repeat split; (reflexivity || discriminate)].
  destruct (truthy s) eqn:Ht; simpl;
    [| eexists _, _; repeat split; (reflexivity || discriminate)].
  destruct (JS.StringToBigInt s) as [wei |] eqn:Hwei; simpl;
    [| eexists _, _; repeat split; (reflexivity || discriminate)].
  exfalso. apply Hno. exists s, wei. split; [| exact Hwei].
  exists r. auto.
Qed.

Lemma testGetBalance_body t :
  testGetBalance t =
  try (balanceCalls testAddresses;; mret true) failed_
    (print (Testing "eth_getBalance") t).
Proof. reflexivity. Qed.

(** How the probe ends when the loop stops. *)
Lemma try_stopped (body : M bool) t stop t1 :
  body t = (inl stop, t1) ->
  wire (try body failed_ t).2 = wire t1 /\
  ((try body failed_ t).1 = inl Suspended <-> stop = Suspended) /\
  ((try body failed_ t).1 = inr false <-> stop <> Suspended) /\
  (try body failed_ t).1 <> inr true.
Proof.
  intros E. unfold try. rewrite E. destruct stop as [e |]; simpl.
  - repeat split; try discriminate; congruence.
  - repeat split; try discriminate; congruence.
Qed.

(** The requests of the balance probe, and its verdict.  The zero address is
    always queried first, with the "latest" tag.  If that query brings no
    integer the probe asks nothing more: it returns [false], unless the call
    stays pending.  Otherwise [TEST_ADDRESS] is queried, and the probe ends
    as that second query does. *)
Lemma testGetBalance_requests t :
  let first := balanceRequest zeroAddress (requestId t + 1) in
  let second := balanceRequest TEST_ADDRESS (requestId t + 1 + 1) in
  (~ balanceRead first ->
   wire (testGetBalance t).2 = wire t ++ [first] /\
   ((testGetBalance t).1 = inl Suspended <-> send (T := string) first = Pending) /\
   ((testGetBalance t).1 = inr false <-> send (T := string) first <> Pending) /\
   (testGetBalance t).1 <> inr true) /\
  (balanceRead first ->
   wire (testGetBalance t).2 = wire t ++ [first; second] /\
   ((testGetBalance t).1 = inr true <-> balanceRead second) /\
   ((testGetBalance t).1 = inl Suspended <-> send (T := string) second = Pending) /\
   ((testGetBalance t).1 = inr false <->
    ~ balanceRead second /\ send (T := string) second <> Pending)).
Proof.
  cbv zeta. rewrite testGetBalance_body. unfold testAddresses.
  set (t0 := print (Testing "eth_getBalance") t).
  change (requestId t) with (requestId t0). change (wire t) with (wire t0).
  split.
  - intros Hno.
    destruct (balanceCalls_unread zeroAddress [TEST_ADDRESS] t0 Hno)
      as (stop & t1 & E & Hw & Hstop).
    destruct (try_stopped (balanceCalls [zeroAddress; TEST_ADDRESS];; mret true)
                t0 stop t1 (bind_stops _ _ _ _ _ E)) as (Hw' & Hs & Hf & Ht).
    rewrite Hw', Hw, Hs, Hf, Hstop. repeat split; tauto.
  - intros Hyes.
    destruct (balanceCalls_read zeroAddress [TEST_ADDRESS] t0 Hyes)
      as (t1 & E & Hw & Hid).
    pose proof (balanceCalls_read TEST_ADDRESS [] t1) as Hread.
    pose proof (balanceCalls_unread TEST_ADDRESS [] t1) as Hunread.
    rewrite Hid in Hread, Hunread.
    destruct (balanceRead_dec (balanceRequest TEST_ADDRESS (requestId t0 + 1 + 1)))
      as [H2 | H2].
    + destruct (Hread H2) as (t2 & E2 & Hw2 & _).
      unfold try, mbind, M_bind. rewrite E, E2. simpl.
      rewrite Hw2, Hw, <- app_assoc. simpl.
      destruct H2 as (s & wei & Hs & Hwei).
      destruct (succeededWith_only _ _ Hs) as [Hp _].
      assert (balanceRead (balanceRequest TEST_ADDRESS (requestId t0 + 1 + 1)))
        as H2 by (exists s, wei; auto).
      repeat split; try easy; try tauto.
    + destruct (Hunread H2) as (stop & t2 & E2 & Hw2 & Hstop).
      assert ((balanceCalls [zeroAddress; TEST_ADDRESS];; mret true) t0 =
              (inl stop, t2)) as Ebody.
      { apply bind_stops. rewrite E. exact E2. }
      destruct (try_stopped _ t0 stop t2 Ebody) as (Hw' & Hs & Hf & Ht).
      rewrite Hw', Hw2, Hw, <- app_assoc, Hs, Hf, Hstop. simpl.
      repeat split; try tauto.
Qed.

(** C3 on the code.  With no second address configured, [TEST_ADDRESS] is the
    empty text, and once the zero-address query has gone through the probe
    queries the balance of that empty address all the same. *)
Theorem unconfigured_address_is_queried t :
  FORDEFI_EVM_VAULT_ADDRESS = None ->
  balanceRead (balanceRequest zeroAddress (requestId t + 1)) ->
  wire (testGetBalance t).2 =
  wire t ++ [balanceRequest zeroAddress (requestId t + 1);
             balanceRequest "" (requestId t + 1 + 1)].
Proof.
  intros Henv Hfirst.
  destruct (testGetBalance_requests t) as [_ H].
  destruct (H Hfirst) as [Hw _]. rewrite Hw.
  unfold TEST_ADDRESS. now rewrite Henv.
Qed.

(** ** The suite runner *)

(** What the runner records for a probe that came to an end: what it
    returned, [false] if it threw. *)
Definition verdict (r : Abrupt + bool) : bool :=
  match r with
  | inr passed => passed
  | inl _ => false
  end.

(** The tester after a probe, with the crash line if the probe threw. *)
Definition settled (test : Test) (t : RPCTester) : RPCTester :=
  match fn test t with
  | (inl (Thrown e), t') => print (Crashed (name test) (JS.message e)) t'
  | (_, t') => t'
  end.

(** A run of the tests: the names and verdicts of the probes that came to an
    end, in order; the tester where the run stopped; and the name of the
    probe that stayed pending, if one did. *)
Record Run : Type := {
  recorded : list (string * bool);
  final : RPCTester;
  pendingAt : option string
}.

(** The tests run one after the other, each from where the one before left
    the tester, whatever its outcome, up to the first that stays pending. *)
Fixpoint sequentially (tests : list Test) (t : RPCTester) : Run :=
  match tests with
  | [] => {| recorded := []; final := t; pendingAt := None |}
  | test :: rest =>
      match fn test t with
      | (inl Suspended, t') =>
          {| recorded := []; final := t'; pendingAt := Some (name test) |}
      | (r, _) =>
          let run := sequentially rest (settled test t) in
          {| recorded := (name test, verdict r) :: recorded run;
             final := final run; pendingAt := pendingAt run |}
      end
  end.

(** The outcomes put on record one by one. *)
Definition tally (outcomes : list (string * bool)) (results : TestResult)
  : TestResult :=
  foldl (fun results o => record o.1 o.2 results) results outcomes.

Lemma runTests_settled test rest results t :
  (fn test t).1 <> inl Suspended ->
  runTests (test :: rest) results t =
  runTests rest (record (name test) (verdict (fn test t).1) results)
    (settled test t).
Proof.
  cbn [runTests]. unfold settled, try, mbind, M_bind.
  destruct (fn test t) as [[[e |] | b] t']; simpl; [reflexivity | | reflexivity].
  intros H. now contradiction H.
Qed.

Lemma runTests_thrown test rest results t e t' :
  fn test t = (inl (Thrown e), t') ->
  runTests (test :: rest) results t =
  runTests rest (record (name test) false results)
    (print (Crashed (name test) (JS.message e)) t').
Proof.
  intros E. rewrite runTests_settled by (rewrite E; discriminate).
  unfold settled. now rewrite E.
Qed.

Lemma runTests_pending test rest results t t' :
  fn test t = (inl Suspended, t') ->
  runTests (test :: rest) results t = (inl Suspended, t').
Proof.
  intros E. cbn [runTests]. unfold try, mbind, M_bind. now rewrite E.
Qed.

Lemma sequentially_settled test rest t :
  (fn test t).1 <> inl Suspended ->
  sequentially (test :: rest) t =
  {| recorded :=
       (name test, verdict (fn test t).1)
       :: recorded (sequentially rest (settled test t));
     final := final (sequentially rest (settled test t));
     pendingAt := pendingAt (sequentially rest (settled test t)) |}.
Proof.
  cbn [sequentially].
  destruct (fn test t) as [[[e |] | b] t']; simpl; [reflexivity | | reflexivity].
  intros H. now contradiction H.
Qed.

Lemma sequentially_pending test rest t t' :
  fn test t = (inl Suspended, t') ->
  sequentially (test :: rest) t =
  {| recorded := []; final := t'; pendingAt := Some (name test) |}.
Proof. intros E. cbn [sequentially]. now rewrite E. Qed.

Lemma suspended_dec {A} (r : Abrupt + A) : r = inl Suspended \/ r <> inl Suspended.
Proof. destruct r as [[e |] | a]; auto; right; discriminate. Qed.

(** The loop is the sequential run: it returns the tally when every probe
    came to an end, and is suspended where the run stopped otherwise. *)
Lemma runTests_sequentially tests results t :
  runTests tests results t =
  match pendingAt (sequentially tests t) with
  | None =>
      (inr (tally (recorded (sequentially tests t)) results),
       final (sequentially tests t))
  | Some _ => (inl Suspended, final (sequentially tests t))
  end.
Proof.
  revert results t. induction tests as [| test rest IH]; intros results t.
  - reflexivity.
  - destruct (suspended_dec (fn test t).1) as [Hs | Hs].
    + destruct (fn test t) as [r t'] eqn:E. simpl in Hs. subst r.
      now rewrite (runTests_pending _ _ _ _ _ E), (sequentially_pending _ _ _ _ E).
    + rewrite runTests_settled, sequentially_settled, IH by exact Hs.
      reflexivity.
Qed.

(** The probes that came to an end are the first of the list, and all of
    them unless one stayed pending, which is then the next. *)
Lemma sequentially_names tests t :
  let run := sequentially tests t in
  match pendingAt run with
  | None => (recorded run).*1 = name <$> tests
  | Some pending =>
      (length (recorded run) < length tests)%nat /\
      (recorded run).*1 ++ [pending] =
      take (S (length (recorded run))) (name <$> tests)
  end.
Proof.
  cbv zeta. revert t. induction tests as [| test rest IH]; intros t;
    [reflexivity |].
  destruct (suspended_dec (fn test t).1) as [Hs | Hs].
  - destruct (fn test t) as [r t'] eqn:E. simpl in Hs. subst r.
    rewrite (sequentially_pending _ _ _ _ E). simpl. split; [lia | reflexivity].
  - rewrite sequentially_settled by exact Hs. simpl.
    specialize (IH (settled test t)).
    destruct (pendingAt (sequentially rest (settled test t))).
    + destruct IH as [Hlen Hnames]. split; [simpl; lia |].
      simpl. simpl in Hnames. f_equal. exact Hnames.
    + simpl. f_equal. exact IH.
Qed.

Definition count (b : bool) (outcomes : list (string * bool)) : Z :=
  Z.of_nat (length (filter (fun o => o.2 = b) outcomes)).

Lemma tally_counts outcomes results :
  passed (tally outcomes results) = passed results + count true outcomes /\
  failed (tally outcomes results) = failed results + count false outcomes.
Proof.
  revert results. unfold tally, count.
  induction outcomes as [| [n b] rest IH]; intros results; simpl;
    [lia |].
  destruct (IH (record n b results)) as [-> ->].
  rewrite !filter_cons. simpl. destruct b; simpl;
    repeat case_decide; try congruence; simpl length; lia.
Qed.

Lemma count_total outcomes :
  count true outcomes + count false outcomes = Z.of_nat (length outcomes).
Proof.
  unfold count. induction outcomes as [| [n b] rest IH]; [reflexivity |].
  rewrite !filter_cons. destruct b; simpl;
    repeat case_decide; try congruence; simpl length; lia.
Qed.

Lemma count_zero b outcomes :
  count b outcomes = 0 <-> forall n b', (n, b') ∈ outcomes -> b' = negb b.
Proof.
  unfold count. induction outcomes as [| [n c] rest IH].
  - split; [| reflexivity]. intros _ n b' Hin. now apply elem_of_nil in Hin.
  - rewrite filter_cons. simpl. case_decide as Hc.
    + subst c. simpl length. split; [lia |]. intros H.
      specialize (H n b (list_elem_of_here _ _)). now destruct b.
    + rewrite IH. split.
      * intros H n' b' [Heq | Hin]%elem_of_cons; [| eauto].
        injection Heq as -> ->. destruct c, b; simpl; congruence.
      * intros H n' b' Hin. apply (H n' b'). now apply list_elem_of_further.
Qed.

Lemma count_positive b outcomes :
  0 < count b outcomes <-> exists n, (n, b) ∈ outcomes.
Proof.
  unfold count. induction outcomes as [| [n c] rest IH].
  - split; [simpl; lia |]. intros [n Hin]. now apply elem_of_nil in Hin.
  - rewrite filter_cons. simpl. case_decide as Hc.
    + subst c. simpl length. split; [| lia]. intros _. exists n.
      apply list_elem_of_here.
    + rewrite IH. split.
      * intros [n' Hin]. exists n'. now apply list_elem_of_further.
      * intros [n' [Heq | Hin]%elem_of_cons]; [| eauto].
        injection Heq as -> ->. congruence.
Qed.

Lemma tests_tally_other outcomes results n :
  n ∉ outcomes.*1 -> tests (tally outcomes results) !! n = tests results !! n.
Proof.
  revert results. unfold tally.
  induction outcomes as [| [n' b] rest IH]; intros results Hn; [reflexivity |].
  simpl in *. rewrite IH by (intros Hin; apply Hn; now apply list_elem_of_further).
  simpl. apply lookup_insert_ne. intros ->. apply Hn. apply list_elem_of_here.
Qed.

(** With distinct names, the record holds each outcome under its name and
    nothing else beside what was there. *)
Lemma tests_tally outcomes results n b :
  NoDup outcomes.*1 -> (n, b) ∈ outcomes ->
  tests (tally outcomes results) !! n = Some b.
Proof.
  revert results. unfold tally.
  induction outcomes as [| [n' b'] rest IH]; intros results Hnd Hin;
    [now apply elem_of_nil in Hin |].
  simpl in Hnd. apply NoDup_cons in Hnd as [Hfresh Hnd].
  apply elem_of_cons in Hin as [[= -> ->] | Hin]; simpl.
  - fold (tally rest (record n' b' results)).
    rewrite tests_tally_other by exact Hfresh. simpl. apply lookup_insert_eq.
  - now apply IH.
Qed.

Lemma tests_tally_inv outcomes n b :
  NoDup outcomes.*1 ->
  tests (tally outcomes noResults) !! n = Some b -> (n, b) ∈ outcomes.
Proof.
  intros Hnd Hlook.
  destruct (decide (n ∈ outcomes.*1)) as [Hin | Hout].
  - apply list_elem_of_fmap in Hin as ([n' b'] & -> & Hin). simpl in *.
    rewrite (tests_tally _ _ _ _ Hnd Hin) in Hlook. now injection Hlook as <-.
  - rewrite tests_tally_other in Hlook by exact Hout. simpl in Hlook.
    now rewrite lookup_empty in Hlook.
Qed.

(** The tester once [runAllTests] has printed its heading. *)
Definition started (t : RPCTester) : RPCTester :=
  print (Protocol (isHttps t))
    (print (RpcUrl (rpcUrl t))
       (print Rule (print (Title "Ethereum RPC Endpoint Tester") (print Rule t)))).

(** When every probe came to an end, [runAllTests] returns the tally of the
    sequential run; the summary it prints afterwards changes neither the
    results nor the wire. *)
Lemma runAllTestsOf_run tests t :
  pendingAt (sequentially tests (started t)) = None ->
  exists t',
    runAllTestsOf tests t =
      (inr (tally (recorded (sequentially tests (started t))) noResults), t') /\
    results t' = results (final (sequentially tests (started t))) /\
    wire t' = wire (final (sequentially tests (started t))).
Proof.
  intros Hnone.
  unfold runAllTestsOf, getTester, log, when, mbind, M_bind. simpl.
  fold (started t). rewrite runTests_sequentially, Hnone. simpl.
  set (run := sequentially tests (started t)).
  destruct (chainId (results (final run))) as [c |];
    destruct (latestBlock (results (final run))) as [b |];
    destruct (eip1559 (results (final run))); simpl;
    repeat match goal with
           | |- context [if ?c then _ else _] => destruct c; simpl
           end;
    eexists; split; reflexivity || (split; reflexivity).
Qed.

(** When a probe stays pending, so does [runAllTests], there and then. *)
Lemma runAllTestsOf_pending tests t pending :
  pendingAt (sequentially tests (started t)) = Some pending ->
  runAllTestsOf tests t = (inl Suspended, final (sequentially tests (started t))).
Proof.
  intros Hsome.
  unfold runAllTestsOf, getTester, log, mbind, M_bind. simpl.
  fold (started t). now rewrite runTests_sequentially, Hsome.
Qed.

Definition probeNames : list string :=
  ["eth_chainId"; "eth_blockNumber"; "eth_getBalance"; "eth_feeHistory";
   "eth_gasPrice"].

Lemma probeNames_NoDup : NoDup probeNames.
Proof.
  unfold probeNames.
  repeat (apply NoDup_cons; split;
          [intros Hin;
           repeat (apply elem_of_cons in Hin as [Hin | Hin]; [discriminate |]);
           now apply elem_of_nil in Hin |]).
  apply NoDup_nil_2.
Qed.

(** What the record of a run over tests with the five names holds, when every
    probe came to an end. *)
Lemma runAllTestsOf_record suite t :
  name <$> suite = probeNames ->
  let run := sequentially suite (started t) in
  pendingAt run = None ->
  exists testResults t',
    runAllTestsOf suite t = (inr testResults, t') /\
    (recorded run).*1 = probeNames /\
    (forall name outcome,
       tests testResults !! name = Some outcome <->
       (name, outcome) ∈ recorded run) /\
    passed testResults = count true (recorded run) /\
    failed testResults = count false (recorded run) /\
    passed testResults + failed testResults = 5.
Proof.
  intros Hnames run Hnone.
  destruct (runAllTestsOf_run suite t Hnone) as (t' & E & _).
  assert ((recorded run).*1 = probeNames) as Ho.
  { pose proof (sequentially_names suite (started t)) as H. cbv zeta in H.
    fold run in H. rewrite Hnone in H. now rewrite H. }
  assert (NoDup (recorded run).*1) as Hnd by (rewrite Ho; apply probeNames_NoDup).
  exists (tally (recorded run) noResults), t'. split; [exact E |].
  split; [exact Ho |].
  destruct (tally_counts (recorded run) noResults) as [Hp Hf]. simpl in Hp, Hf.
  split; [| split; [exact Hp | split; [exact Hf |]]].
  - intros n b. split; [now apply tests_tally_inv | now apply tests_tally].
  - pose proof (count_total (recorded run)) as Htotal.
    rewrite <- (length_fmap fst), Ho in Htotal. simpl in Htotal. lia.
Qed.

(** C5 on the code.  The runner takes the five probes in the order chain
    identity, block activity, balance, fee history, gas price, each from
    where the one before left the tester.  A probe that throws is caught: it
    is recorded as failed, a crash line is printed, and the loop goes on.
    But a probe that stays pending, waiting for a promise that never settles,
    ends the run: [runAllTests] is suspended with it, fewer than five
    outcomes are on record, the probes after it are never run and no result
    is returned.  Only when every probe comes to an end are all five
    recorded, each once under its name, with counts that add up to 5. *)
Theorem pending_probe_ends_the_run (chainIdProbe blockNumberProbe getBalanceProbe
    feeHistoryProbe gasPriceProbe : M bool) (t : RPCTester) :
  let suite :=
    [ {| name := "eth_chainId"; fn := chainIdProbe |};
      {| name := "eth_blockNumber"; fn := blockNumberProbe |};
      {| name := "eth_getBalance"; fn := getBalanceProbe |};
      {| name := "eth_feeHistory"; fn := feeHistoryProbe |};
      {| name := "eth_gasPrice"; fn := gasPriceProbe |} ] in
  let run := sequentially suite (started t) in
  (forall pending,
     pendingAt run = Some pending ->
     runAllTestsOf suite t = (inl Suspended, final run) /\
     (length (recorded run) < 5)%nat /\
     (recorded run).*1 ++ [pending] =
       take (S (length (recorded run))) probeNames) /\
  (pendingAt run = None ->
   exists testResults t',
     runAllTestsOf suite t = (inr testResults, t') /\
     (recorded run).*1 = probeNames /\
     (forall name outcome,
        tests testResults !! name = Some outcome <->
        (name, outcome) ∈ recorded run) /\
     passed testResults = count true (recorded run) /\
     failed testResults = count false (recorded run) /\
     passed testResults + failed testResults = 5) /\
  (forall test rest testResults t0 e t1,
     fn test t0 = (inl (Thrown e), t1) ->
     runTests (test :: rest) testResults t0 =
     runTests rest (record (name test) false testResults)
       (print (Crashed (name test) (JS.message e)) t1)) /\
  (forall test rest testResults t0 t1,
     fn test t0 = (inl Suspended, t1) ->
     runTests (test :: rest) testResults t0 = (inl Suspended, t1)) /\
  runAllTests =
    runAllTestsOf
      [ {| name := "eth_chainId"; fn := testChainId |};
        {| name := "eth_blockNumber"; fn := testBlockNumber |};
        {| name := "eth_getBalance"; fn := testGetBalance |};
        {| name := "eth_feeHistory"; fn := testFeeHistory |};
        {| name := "eth_gasPrice"; fn := testGasPrice |} ].
Proof.
  cbv zeta. split; [| split; [| split; [| split; [| reflexivity]]]].
  - intros pending Hsome.
    split; [now apply (runAllTestsOf_pending _ _ pending) |].
    match goal with
    | |- context [sequentially ?suite (started t)] =>
        pose proof (sequentially_names suite (started t)) as H
    end.
    cbv zeta in H. rewrite Hsome in H. exact H.
  - now apply runAllTestsOf_record.
  - intros test rest testResults t0 e t1 E. now apply runTests_thrown.
  - intros test rest testResults t0 t1 E. now apply runTests_pending.
Qed.

(** ** [main] and the exit code *)

Lemma results_makeRequest {T} `{Transport T} method params :
  preserves results (makeRequest (T := T) method params).
Proof. intros t. unfold makeRequest. now destruct (send _). Qed.

#[local] Hint Resolve results_makeRequest : quiet.

Lemma results_testGasPrice : preserves results testGasPrice.
Proof. unfold testGasPrice. quiet. Qed.

(** An endpoint that answers every [eth_feeHistory] request, at either stage,
    with the error "method not found". *)
Definition feeHistoryNotFound : Prop :=
  forall request,
    method request = "eth_feeHistory" ->
    exists r,
      send (T := FeeHistoryResult) request = Resolve r /\
      message <$> error r = Some "method not found".

Lemma testFeeHistory_not_found t :
  feeHistoryNotFound ->
  exists t',
    testFeeHistory t = (inr true, t') /\ eip1559 (results t') = Some false.
Proof.
  intros Hnf. destruct (Hnf (stage1 t) eq_refl) as (r & Hsend & Hmsg).
  destruct (error r) as [e |] eqn:He; [| discriminate].
  injection Hmsg as Hmsg.
  assert (answered t = Some r) as Ha.
  { unfold answered. rewrite Hsend, He, Hmsg. reflexivity. }
  rewrite (testFeeHistory_answered t r Ha), He, Hmsg.
  eexists. split; reflexivity.
Qed.

(** The second argument of the command line, read as the expected chain id. *)
Definition expectedOf (rest : list string) : option JS.Number :=
  match rest with
  | a :: _ => if String.eqb a "" then None else Some (JS.parseInt a 0)
  | [] => None
  end.

Lemma main_exit rpcUrl rest protocol :
  protocolOf rpcUrl = Some protocol ->
  let run :=
    sequentially theTests
      (started (newTester rpcUrl (expectedOf rest) protocol)) in
  (main (rpcUrl :: rest)).1.1 =
  match pendingAt run with
  | Some _ => 0
  | None => if 0 <? count false (recorded run) then 1 else 0
  end.
Proof.
  intros Hurl. cbv zeta. unfold main. rewrite Hurl. fold (expectedOf rest).
  unfold runAllTests.
  destruct (pendingAt (sequentially theTests
              (started (newTester rpcUrl (expectedOf rest) protocol))))
    as [pending |] eqn:Hp.
  - now rewrite (runAllTestsOf_pending _ _ pending Hp).
  - destruct (runAllTestsOf_run theTests
                (newTester rpcUrl (expectedOf rest) protocol) Hp)
      as (t' & -> & _).
    cbv beta iota. cbn [fst].
    destruct (tally_counts
                (recorded (sequentially theTests
                   (started (newTester rpcUrl (expectedOf rest) protocol))))
                noResults) as [_ ->].
    reflexivity.
Qed.

(** C7 on the code.  Once the address is accepted, the exit code is 1 exactly
    when every probe came to an end and one of them failed.  It is 0 when all
    five passed, and also whenever a probe stays pending: [process.exit] is
    then never reached, and the process ends with 0 although fewer than five
    probes passed, whatever failures are on record.  When no probe stays
    pending the claim holds: against an endpoint that answers
    [eth_feeHistory] with "method not found" at either stage the fee-history
    probe is recorded as passed with [eip1559] false, and if the four other
    probes pass the exit code is 0. *)
Theorem pending_run_exits_with_zero rpcUrl rest protocol :
  protocolOf rpcUrl = Some protocol ->
  let run :=
    sequentially theTests
      (started (newTester rpcUrl (expectedOf rest) protocol)) in
  let exitCode := (main (rpcUrl :: rest)).1.1 in
  (forall pending,
     pendingAt run = Some pending ->
     exitCode = 0 /\ (length (recorded run) < 5)%nat) /\
  (exitCode = 1 <->
   pendingAt run = None /\ exists name, (name, false) ∈ recorded run) /\
  (pendingAt run = None ->
   (recorded run).*1 = probeNames /\
   (exitCode = 0 <->
    forall name outcome, (name, outcome) ∈ recorded run -> outcome = true) /\
   (feeHistoryNotFound ->
    ("eth_feeHistory", true) ∈ recorded run /\
    eip1559 (results (final run)) = Some false /\
    ((forall name outcome,
        (name, outcome) ∈ recorded run -> name <> "eth_feeHistory" ->
        outcome = true) ->
     exitCode = 0))).
Proof.
  intros Hurl. cbv zeta. rewrite (main_exit _ _ _ Hurl).
  set (t0 := started (newTester rpcUrl (expectedOf rest) protocol)).
  pose proof (sequentially_names theTests t0) as Hnames. cbv zeta in Hnames.
  destruct (pendingAt (sequentially theTests t0)) as [pending |] eqn:Hp.
  { split; [| split].
    - intros ? _. split; [reflexivity | apply Hnames].
    - split; [discriminate | intros [[=] _]].
    - discriminate. }
  assert ((if 0 <? count false (recorded (sequentially theTests t0))
           then 1 else 0) = 0
          <-> forall name outcome,
                (name, outcome) ∈ recorded (sequentially theTests t0) ->
                outcome = true)
    as Hzero.
  { rewrite <- (count_zero false).
    assert (0 <= count false (recorded (sequentially theTests t0)))
      by (unfold count; lia).
    destruct (Z.ltb_spec 0 (count false (recorded (sequentially theTests t0))));
      split; intros; try discriminate; try reflexivity; lia. }
  split; [discriminate |]. split.
  - rewrite <- count_positive.
    destruct (Z.ltb_spec 0 (count false (recorded (sequentially theTests t0))));
      split; intros; try discriminate; try reflexivity; try tauto.
    destruct H0 as [_ H0]. lia.
  - intros _. split; [exact Hnames |]. split; [exact Hzero |].
    intros Hnf.
    assert (exists v1 v2 v3 v5,
              recorded (sequentially theTests t0) =
                [("eth_chainId", v1); ("eth_blockNumber", v2);
                 ("eth_getBalance", v3); ("eth_feeHistory", true);
                 ("eth_gasPrice", v5)] /\
              eip1559 (results (final (sequentially theTests t0))) = Some false)
      as (v1 & v2 & v3 & v5 & Hrun & Heip).
    { revert Hp. unfold theTests.
      set (s1 := {| name := "eth_chainId"; fn := testChainId |}).
      set (s2 := {| name := "eth_blockNumber"; fn := testBlockNumber |}).
      set (s3 := {| name := "eth_getBalance"; fn := testGetBalance |}).
      set (s4 := {| name := "eth_feeHistory"; fn := testFeeHistory |}).
      set (s5 := {| name := "eth_gasPrice"; fn := testGasPrice |}).
      destruct (suspended_dec (fn s1 t0).1) as [H1 | H1];
        [destruct (fn s1 t0) as [r1 t1'] eqn:E1; simpl in H1; subst r1;
         rewrite (sequentially_pending _ _ _ _ E1); discriminate |].
      rewrite (sequentially_settled s1) by exact H1.
      set (t1 := settled s1 t0).
      destruct (suspended_dec (fn s2 t1).1) as [H2 | H2];
        [destruct (fn s2 t1) as [r2 t2'] eqn:E2; simpl in H2; subst r2;
         rewrite (sequentially_pending _ _ _ _ E2); discriminate |].
      rewrite (sequentially_settled s2) by exact H2.
      set (t2 := settled s2 t1).
      destruct (suspended_dec (fn s3 t2).1) as [H3 | H3];
        [destruct (fn s3 t2) as [r3 t3'] eqn:E3; simpl in H3; subst r3;
         rewrite (sequentially_pending _ _ _ _ E3); discriminate |].
      rewrite (sequentially_settled s3) by exact H3.
      set (t3 := settled s3 t2).
      destruct (testFeeHistory_not_found t3 Hnf) as (t4 & E4 & Heip).
      rewrite (sequentially_settled s4)
        by (cbn [fn s4]; rewrite E4; discriminate).
      assert (settled s4 t3 = t4) as ->
        by (unfold settled; cbn [fn s4]; now rewrite E4).
      cbn [fn s4]. rewrite E4. cbn [fst verdict].
      destruct (suspended_dec (fn s5 t4).1) as [H5 | H5];
        [destruct (fn s5 t4) as [r5 t5'] eqn:E5; simpl in H5; subst r5;
         rewrite (sequentially_pending _ _ _ _ E5); discriminate |].
      rewrite (sequentially_settled s5) by exact H5.
      cbn [sequentially recorded final pendingAt]. intros _.
      do 4 eexists. split; [reflexivity |].
      unfold settled. cbn [fn name s5].
      pose proof (results_testGasPrice t4) as Hgas.
      destruct (testGasPrice t4) as [[[e |] | b] t5]; simpl in Hgas; simpl;
        now rewrite Hgas. }
    rewrite Heip. split; [| split; [reflexivity |]].
    + rewrite Hrun. do 3 apply list_elem_of_further. apply list_elem_of_here.
    + intros Hothers. apply Hzero. intros n b Hin.
      destruct (decide (n = "eth_feeHistory")) as [-> | Hne];
        [| now apply (Hothers n b)].
      rewrite Hrun in Hin.
      repeat (apply elem_of_cons in Hin as [[=] | Hin]; try congruence).
      now apply elem_of_nil in Hin.
Qed.

(** * Further properties of the code *)

(** ** [includes] *)

Lemma prefix_iff p s :
  String.prefix p s = true <-> exists post, s = p +:+ post.
Proof.
  revert s. induction p as [| c p IH]; intros [| d s]; simpl.
  - split; [now exists EmptyString | reflexivity].
  - split; [now exists (String d s) | reflexivity].
  - split; [discriminate | intros [post [=]]].
  - destruct (ascii_dec c d) as [-> | Hne].
    + rewrite IH. split; intros [post E]; exists post.
      * now rewrite E.
      * change (String d s = String d (p +:+ post)) in E. congruence.
    + split; [discriminate | intros [post E]].
      change (String d s = String c (p +:+ post)) in E. congruence.
Qed.

(** X9.  [s.includes(pat)] holds exactly when [s] is some text, then [pat],
    then some text. *)
Theorem includes_iff_between s pat :
  JS.includes s pat = true <-> exists pre post, s = pre +:+ pat +:+ post.
Proof.
  split.
  - induction s as [| c s IH]; cbn [JS.includes]; rewrite orb_true_iff.
    + intros [H | H]; [| discriminate].
      apply prefix_iff in H as [post E]. now exists EmptyString, post.
    + intros [H | H].
      * apply prefix_iff in H as [post E]. now exists EmptyString, post.
      * destruct (IH H) as (pre & post & ->). now exists (String c pre), post.
  - intros (pre & post & ->). induction pre as [| c pre IH].
    + change (EmptyString +:+ pat +:+ post) with (pat +:+ post).
      assert (String.prefix pat (pat +:+ post) = true) as H
        by (apply prefix_iff; eauto).
      destruct (pat +:+ post); cbn [JS.includes]; now rewrite H.
    + change (String c pre +:+ pat +:+ post)
        with (String c (pre +:+ pat +:+ post)).
      cbn [JS.includes]. rewrite IH. apply orb_true_r.
Qed.

(** ** Integers that a double holds *)

Lemma roundTiesToEven_comp x y :
  (x == y)%Q -> JS.roundTiesToEven x = JS.roundTiesToEven y.
Proof.
  intros E. unfold JS.roundTiesToEven.
  rewrite (Qfloor_comp _ _ E).
  assert (Qcompare (x - inject_Z (Qfloor y))%Q (1 # 2) =
          Qcompare (y - inject_Z (Qfloor y))%Q (1 # 2)) as ->
    by (apply Qcompare_comp; [now rewrite E | reflexivity]).
  reflexivity.
Qed.

Lemma roundTiesToEven_integer m : JS.roundTiesToEven (inject_Z m) = m.
Proof.
  unfold JS.roundTiesToEven. rewrite Qfloor_Z.
  assert (Qcompare (inject_Z m - inject_Z m)%Q (1 # 2) = Lt) as ->;
    [| reflexivity].
  assert (inject_Z m - inject_Z m == 0)%Q as H by ring.
  now rewrite (Qcompare_comp _ _ H _ _ (Qeq_refl (1 # 2))).
Qed.

Lemma pow2_natural k : 0 <= k -> (JS.pow2 k == inject_Z (2 ^ k))%Q.
Proof. intros Hk. unfold JS.pow2. now rewrite Zpower_Qpower. Qed.

Lemma Qred_integer q z : (q == inject_Z z)%Q -> Qred q = inject_Z z.
Proof.
  intros E. rewrite (Qred_complete _ _ E).
  unfold Qred, inject_Z. simpl.
  pose proof (Z.ggcd_gcd z 1) as Hg.
  pose proof (Z.ggcd_correct_divisors z 1) as Hd.
  destruct (Z.ggcd z 1) as [g [a b]]. simpl in *.
  rewrite Z.gcd_1_r in Hg. subst g. destruct Hd as [Ha Hb].
  replace a with z by lia. replace b with 1 by lia. reflexivity.
Qed.

Lemma ofDyadic_integer q z : (q == inject_Z z)%Q -> JS.ofDyadic q = JS.Num z.
Proof. intros E. unfold JS.ofDyadic. now rewrite (Qred_integer _ _ E). Qed.

(** An integer of up to 53 bits is a double: rounding leaves it as it is. *)
Lemma nearestDouble_exact z :
  Z.abs z < 2 ^ 53 -> JS.nearestDouble (inject_Z z) = JS.Num z.
Proof.
  intros Hz. unfold JS.nearestDouble.
  change (Qnum (inject_Z z)) with z.
  destruct (Z.eq_dec z 0) as [-> | Hne]; [reflexivity |].
  assert (Qabs (inject_Z z) = inject_Z (Z.abs z)) as -> by reflexivity.
  change (Qnum (inject_Z (Z.abs z))) with (Z.abs z).
  change (Z.log2 (Z.pos (Qden (inject_Z (Z.abs z))))) with 0.
  rewrite Z.sub_0_r.
  set (n := Z.abs z) in *. assert (0 < n) as Hn by (unfold n; lia).
  set (e := Z.log2 n).
  assert (0 <= e < 53) as He.
  { split; [apply Z.log2_nonneg |]. apply Z.log2_lt_pow2; lia. }
  pose proof (Z.log2_spec n Hn) as [Hlo Hhi]. fold e in Hlo, Hhi.
  assert (Qle_bool (JS.pow2 e) (inject_Z n) = true) as ->.
  { apply Qle_bool_iff. rewrite pow2_natural by lia. now rewrite <- Zle_Qle. }
  rewrite Z.max_l by lia.
  replace (- (e - 52)) with (52 - e) by lia.
  assert (inject_Z n * JS.pow2 (52 - e) == inject_Z (n * 2 ^ (52 - e)))%Q as Hm.
  { rewrite pow2_natural by lia. now rewrite inject_Z_mult. }
  rewrite (roundTiesToEven_comp _ _ Hm), roundTiesToEven_integer.
  assert (inject_Z (n * 2 ^ (52 - e)) * JS.pow2 (e - 52) == inject_Z n)%Q as Hr.
  { assert (JS.pow2 (e - 52) == / inject_Z (2 ^ (52 - e)))%Q as ->.
    { replace (e - 52) with (- (52 - e)) by lia. unfold JS.pow2.
      rewrite Qpower_opp. fold (JS.pow2 (52 - e)).
      now rewrite pow2_natural by lia. }
    rewrite inject_Z_mult. field.
    unfold Qeq. simpl. pose proof (Z.pow_pos_nonneg 2 (52 - e)). lia. }
  assert (Qle_bool (JS.pow2 1024)
            (inject_Z (n * 2 ^ (52 - e)) * JS.pow2 (e - 52))%Q = false) as ->.
  { apply not_true_iff_false. rewrite Qle_bool_iff, Hr, pow2_natural by lia.
    rewrite <- Zle_Qle.
    assert (2 ^ 53 < 2 ^ 1024) by (apply Z.pow_lt_mono_r; lia). lia. }
  destruct z as [| p | p]; [contradiction | |]; cbn [Z.ltb Z.compare].
  - apply ofDyadic_integer. exact Hr.
  - apply ofDyadic_integer. rewrite Hr. reflexivity.
Qed.

Lemma digitValue_nonneg c d : JS.digitValue c = Some d -> 0 <= d.
Proof.
  unfold JS.digitValue.
  repeat match goal with
         | |- context [if ?b then _ else _] => destruct b eqn:?
         end; intros [= <-]; lia.
Qed.

Lemma digitsValue_nonneg radix s acc :
  0 <= radix -> 0 <= acc -> 0 <= JS.digitsValue radix s acc.
Proof.
  intros Hr. revert acc. induction s as [| c s IH]; intros acc Hacc; simpl;
    [exact Hacc |].
  apply IH. destruct (JS.digitValue c) as [d |] eqn:E; simpl; [| lia].
  apply digitValue_nonneg in E. nia.
Qed.

(** ** [parseInt] and [BigInt] on the same text *)

Lemma parseInt_hex ds :
  ds <> EmptyString -> JS.allDigits 16 ds = true ->
  JS.parseInt ("0x" +:+ ds) 16 =
  JS.nearestDouble (inject_Z (JS.digitsValue 16 ds 0)).
Proof.
  intros Hne Hall. unfold JS.parseInt.
  change (JS.trimStart ("0x" +:+ ds)) with (String "0" (String "x" ds)).
  cbn -[JS.spanDigits JS.digitsValue JS.nearestDouble].
  rewrite spanDigits_all by exact Hall. cbn [fst].
  destruct ds; [contradiction | reflexivity].
Qed.

(** X10.  On [0x] followed by hex digits, [BigInt(s)] (balance, fees, gas
    price) reads the integer written and [parseInt(s, 16)] (chain id, block
    number) the double nearest to it.  Below 2^53 that is the same number,
    and both read [n] back from the hex text of [n]; from 2^53 on it need
    not be: 0x20000000000001 is 9007199254740993 to the one and
    9007199254740992 to the other. *)
Theorem parseInt_and_BigInt_agree_on_hex :
  (forall ds,
     ds <> EmptyString -> JS.allDigits 16 ds = true ->
     JS.BigInt (Some ("0x" +:+ ds)) = inr (JS.digitsValue 16 ds 0) /\
     JS.parseInt ("0x" +:+ ds) 16 =
       JS.nearestDouble (inject_Z (JS.digitsValue 16 ds 0)) /\
     (JS.digitsValue 16 ds 0 < 2 ^ 53 ->
      JS.parseInt ("0x" +:+ ds) 16 = JS.Num (JS.digitsValue 16 ds 0))) /\
  (forall n,
     0 <= n < 2 ^ 53 ->
     JS.parseInt ("0x" +:+ JS.toString16 (JS.Num n)) 16 = JS.Num n /\
     JS.BigInt (Some ("0x" +:+ JS.toString16 (JS.Num n))) = inr n) /\
  JS.BigInt (Some "0x20000000000001") = inr 9007199254740993 /\
  JS.parseInt "0x20000000000001" 16 = JS.Num 9007199254740992.
Proof.
  split; [| split; [| split; reflexivity]].
  - intros ds Hne Hall.
    split; [now apply BigInt_hex |]. split; [now apply parseInt_hex |].
    intros Hsmall. rewrite parseInt_hex by assumption.
    apply nearestDouble_exact.
    pose proof (digitsValue_nonneg 16 ds 0 ltac:(lia) ltac:(lia)). lia.
  - intros n [Hn Hsmall].
    destruct (render16_roundtrip n Hn) as (Hne & Hall & Hval).
    rewrite toString16_natural by exact Hn.
    rewrite parseInt_hex, BigInt_hex, Hval by assumption.
    split; [| reflexivity]. apply nearestDouble_exact. lia.
Qed.

(** ** Text after the digits *)

Lemma spanDigits_stops radix ds c rest :
  JS.allDigits radix ds = true -> JS.isDigit radix c = false ->
  JS.spanDigits radix (ds +:+ String c rest) = (ds, String c rest).
Proof.
  intros Hall Hc. induction ds as [| d ds IH].
  - change (EmptyString +:+ String c rest) with (String c rest).
    simpl. now rewrite Hc.
  - change (String d ds +:+ String c rest) with (String d (ds +:+ String c rest)).
    simpl in *. apply andb_true_iff in Hall as [Hd Hds].
    now rewrite Hd, IH.
Qed.

(** X15.  Text after the hex digits is treated differently by the two
    readers.  [parseInt(s, 16)], which reads chain ids and block numbers,
    stops at the first character that is not a hex digit and returns what
    the digits alone would give; [BigInt(s)], which reads balances, fees and
    the gas price, throws unless what follows is white space only. *)
Theorem parseInt_ignores_what_BigInt_rejects ds c rest :
  ds <> EmptyString -> JS.allDigits 16 ds = true ->
  JS.isDigit 16 c = false ->
  JS.parseInt ("0x" +:+ ds +:+ String c rest) 16 = JS.parseInt ("0x" +:+ ds) 16 /\
  JS.parseInt ("0x" +:+ ds +:+ String c rest) 16 =
    JS.nearestDouble (inject_Z (JS.digitsValue 16 ds 0)) /\
  (JS.isBlank (String c rest) = false ->
   exists e, JS.BigInt (Some ("0x" +:+ ds +:+ String c rest)) = inl e) /\
  (JS.isBlank (String c rest) = true ->
   JS.BigInt (Some ("0x" +:+ ds +:+ String c rest)) =
     inr (JS.digitsValue 16 ds 0)).
Proof.
  intros Hne Hall Hc.
  pose proof (spanDigits_stops 16 ds c rest Hall Hc) as Hspan.
  assert (JS.StringToBigInt ("0x" +:+ ds +:+ String c rest) =
          JS.literalValue 16 (ds +:+ String c rest)) as Hbig by reflexivity.
  assert (JS.parseInt ("0x" +:+ ds +:+ String c rest) 16 =
          JS.nearestDouble (inject_Z (JS.digitsValue 16 ds 0))) as Hparse.
  { unfold JS.parseInt.
    change (JS.trimStart ("0x" +:+ ds +:+ String c rest))
      with (String "0" (String "x" (ds +:+ String c rest))).
    cbn -[JS.spanDigits JS.digitsValue JS.nearestDouble].
    rewrite Hspan. cbn [fst].
    destruct ds; [contradiction | reflexivity]. }
  split; [| split; [exact Hparse | split]].
  - now rewrite Hparse, parseInt_hex.
  - intros Hblank. unfold JS.BigInt. rewrite Hbig.
    unfold JS.literalValue. rewrite Hspan, Hblank.
    destruct ds; [contradiction | eauto].
  - intros Hblank. unfold JS.BigInt. rewrite Hbig.
    unfold JS.literalValue. rewrite Hspan, Hblank.
    destruct ds; [contradiction | reflexivity].
Qed.

(** ** Numbers among the fees *)

Lemma allDigits_render16 n : 0 <= n -> JS.allDigits 16 (JS.render 16 n) = true.
Proof. intros Hn. now destruct (render16_roundtrip n Hn) as (_ & H & _). Qed.

(** The hex text of a number with a fractional part has a point after the
    digits of its integer part, and is no integer literal. *)
Lemma fraction_rejected h k :
  JS.BigInt (hexOrString (Some (Nbr (JS.Frac h k)))) =
  inl (JS.SyntaxError
         ("Cannot convert 0x" +:+ JS.toString16 (JS.Frac h k) +:+ " to a BigInt")).
Proof.
  cbn [hexOrString]. unfold JS.BigInt.
  assert (JS.StringToBigInt ("0x" +:+ JS.toString16 (JS.Frac h k)) = None)
    as ->; [| reflexivity].
  change (JS.StringToBigInt ("0x" +:+ JS.toString16 (JS.Frac h k)))
    with (JS.literalValue 16 (JS.toString16 (JS.Frac h k))).
  unfold JS.toString16, JS.negative. destruct (h <? 0).
  - reflexivity.
  - unfold JS.magnitude16, JS.literalValue.
    set (m := Z.abs (2 * h + 1)).
    change ("." +:+ JS.fractionDigits16 (m mod 2 ^ Z.pos k) k)
      with (String "." (JS.fractionDigits16 (m mod 2 ^ Z.pos k) k)).
    rewrite spanDigits_stops;
      [| apply allDigits_render16; apply Z.div_pos; unfold m; lia
       | reflexivity].
    destruct (JS.render 16 (m / 2 ^ Z.pos k)); reflexivity.
Qed.

(** X16.  A fee that arrives as a native number converts exactly when it is
    a non-negative integer.  A negative number is brought to text as
    [0x-...], a number with a fractional part as [0x] and digits around a
    point, an infinity and NaN by their names; [BigInt] rejects them all and
    the probe fails on them. *)
Theorem number_fee_converts_iff_non_negative n :
  convertsb (Nbr n) = true <-> exists z, 0 <= z /\ n = JS.Num z.
Proof.
  split.
  - destruct n as [| | | z | h k]; try discriminate.
    + destruct (Z.ltb_spec z 0) as [Hneg | Hpos]; [| eauto].
      unfold convertsb, hexOrString, JS.toString16, JS.negative.
      destruct (Z.ltb_spec z 0) as [_ | ?]; [| lia].
      discriminate.
    + unfold convertsb. now rewrite fraction_rejected.
  - intros (z & Hz & ->). unfold convertsb. cbn [hexOrString].
    rewrite toString16_natural by exact Hz.
    destruct (render16_roundtrip z Hz) as (Hne & Hall & _).
    now rewrite BigInt_hex.
Qed.

(** ** Failures stay inside the probes, suspensions do not *)

(** The request went out and its promise never settles.  [makeRequest] is
    instantiated at [FeeHistoryResult] for [eth_feeHistory] and at [string]
    for the other methods. *)
Definition unanswered (request : JsonRpcRequest) : Prop :=
  if String.eqb (method request) "eth_feeHistory"
  then send (T := FeeHistoryResult) request = Pending
  else send (T := string) request = Pending.

(** An endpoint that lets no promise of [makeRequest] hang. *)
Definition responsive : Prop := forall request, ~ unanswered request.

(** A computation is suspended only at a request that stays unanswered, which
    is then the last on the wire. *)
Definition stalls {A} (m : M A) : Prop :=
  forall t t',
    m t = (inl Suspended, t') ->
    exists request, last (wire t') = Some request /\ unanswered request.

Lemma stalls_settles {A} (m : M A) : settles m -> stalls m.
Proof. intros Hm t t' E. exfalso. apply (Hm t). now rewrite E. Qed.

Lemma stalls_call name params :
  String.eqb name "eth_feeHistory" = false ->
  stalls (makeRequest (T := string) name params).
Proof.
  intros Hm t t'. unfold makeRequest.
  destruct (send _) eqn:Hsend; intros [= <-].
  eexists. split; [apply last_snoc |].
  unfold unanswered. cbn [method]. now rewrite Hm.
Qed.

Lemma stalls_feeHistoryCall params :
  stalls (makeRequest (T := FeeHistoryResult) "eth_feeHistory" params).
Proof.
  intros t t'. unfold makeRequest.
  destruct (send _) eqn:Hsend; intros [= <-].
  eexists. split; [apply last_snoc | exact Hsend].
Qed.

Lemma stalls_bind {A B} (m : M A) (k : A -> M B) :
  stalls m -> (forall a, stalls (k a)) -> stalls (m ≫= k).
Proof.
  intros Hm Hk t t'. unfold mbind, M_bind.
  destruct (m t) as [[stop | a] t1] eqn:E.
  - intros [= -> <-]. now apply (Hm t).
  - apply Hk.
Qed.

Lemma stalls_try {A} (body : M A) handler :
  stalls body -> (forall e, stalls (handler e)) -> stalls (try body handler).
Proof.
  intros Hb Hh t t'. unfold try.
  destruct (body t) as [[[e |] | a] t1] eqn:E.
  - apply Hh.
  - intros [= <-]. now apply (Hb t).
  - discriminate.
Qed.

Create HintDb stalling.

#[local] Hint Resolve stalls_feeHistoryCall : stalling.

Ltac stalling :=
  repeat first
    [ progress auto with stalling
    | apply stalls_settles; solve [settling]
    | apply stalls_call; reflexivity
    | apply stalls_bind; [| intros ?]
    | apply stalls_try; [| intros ?]
    | match goal with
      | |- stalls (match ?x with _ => _ end) => destruct x
      | |- stalls (if ?x then _ else _) => destruct x
      | |- stalls (let '(_, _) := ?x in _) => destruct x
      end ].

Lemma stalls_blockNumberCalls n results http2Detected :
  stalls (blockNumberCalls n results http2Detected).
Proof.
  revert results http2Detected.
  induction n as [| n IH]; intros results http2Detected; simpl; stalling.
Qed.

Lemma stalls_balanceCalls addresses : stalls (balanceCalls addresses).
Proof. induction addresses as [| address rest IH]; simpl; stalling. Qed.

#[local] Hint Resolve stalls_blockNumberCalls stalls_balanceCalls : stalling.

Lemma stalls_probes test : test ∈ theTests -> stalls (fn test).
Proof.
  intros Hin. unfold theTests in Hin.
  repeat (apply elem_of_cons in Hin as [-> | Hin]; [cbn [fn] |]);
    [| | | | | now apply elem_of_nil in Hin].
  - unfold testChainId. stalling.
  - unfold testBlockNumber. stalling.
  - unfold testGetBalance. stalling.
  - unfold testFeeHistory, feeHistoryCalls. stalling.
  - unfold testGasPrice. stalling.
Qed.

(** What a probe wrapped in [try ... catch] never does: throw. *)
Lemma probe_catches (heading : Line) (body : M bool) t e :
  ((log heading;; try body failed_) t).1 <> inl (Thrown e).
Proof.
  rewrite (bind_returns (log heading) _ t tt _ eq_refl).
  unfold try. now destruct (body (print heading t)) as [[[e' |] | b] t'].
Qed.

(** X2.  No exception leaves a probe: a rejected request, an error response
    or a value that does not convert is caught and ends in [false], so
    [runAllTests] never adds a crash line after one of the five.  A probe
    ends without a verdict only when it is suspended, and then the last
    request on the wire is one whose promise never settles; against an
    endpoint that leaves no request unanswered every probe returns its
    verdict. *)
Theorem probes_never_throw test t :
  test ∈ theTests ->
  (forall e, (fn test t).1 <> inl (Thrown e)) /\
  settled test t = (fn test t).2 /\
  ((fn test t).1 = inl Suspended ->
   exists request,
     last (wire (fn test t).2) = Some request /\ unanswered request) /\
  (responsive -> exists passed, (fn test t).1 = inr passed).
Proof.
  intros Hin.
  assert (forall e, (fn test t).1 <> inl (Thrown e)) as Hcaught.
  { intros e. unfold theTests in Hin.
    repeat (apply elem_of_cons in Hin as [-> | Hin]; [apply probe_catches |]).
    now apply elem_of_nil in Hin. }
  pose proof (stalls_probes test Hin t) as Hstalls.
  destruct (fn test t) as [[[e |] | passed] t'] eqn:E; cbn [fst snd] in *.
  - now contradiction (Hcaught e).
  - unfold settled. rewrite E.
    split; [exact Hcaught |]. split; [reflexivity |].
    split; [intros _; now apply Hstalls |].
    intros Hresponsive. destruct (Hstalls t' eq_refl) as (request & _ & Hun).
    now contradiction (Hresponsive request).
  - unfold settled. rewrite E.
    split; [exact Hcaught |]. split; [reflexivity |].
    split; [discriminate | eauto].
Qed.

(** ** Request ids *)

(** The requests written so far carry the ids 1, 2, 3, ... in order, and the
    counter of the tester is the last of them. *)
Definition wellNumbered (t : RPCTester) : Prop :=
  id <$> wire t = Z.of_nat <$> seq 1 (length (wire t)) /\
  requestId t = Z.of_nat (length (wire t)).

Definition keeps {A} (m : M A) : Prop :=
  forall t, wellNumbered t -> wellNumbered (m t).2.

Lemma keeps_ret {A} (a : A) : keeps (mret a).
Proof. now intros t. Qed.

Lemma keeps_throw {A} e : keeps (@throw A e).
Proof. now intros t. Qed.

Lemma keeps_lift {A} (r : JS.Exn + A) : keeps (lift r).
Proof. intros t. now destruct r. Qed.

Lemma keeps_log line : keeps (log line).
Proof. now intros t. Qed.

Lemma keeps_modifyResults g : keeps (modifyResults g).
Proof. now intros t. Qed.

Lemma keeps_getTester : keeps getTester.
Proof. now intros t. Qed.

Lemma keeps_makeRequest {T} `{Transport T} method params :
  keeps (makeRequest (T := T) method params).
Proof.
  intros t [Hids Hcounter].
  assert (wellNumbered
            (write {| method := method; params := params; id := requestId t + 1 |} t))
    as Hw.
  { unfold wellNumbered. simpl. rewrite length_app, Nat.add_1_r. simpl length.
    rewrite seq_S, !fmap_app, Hids. simpl. rewrite Hcounter.
    split; [do 2 f_equal |]; lia. }
  unfold makeRequest. now destruct (send _).
Qed.

Lemma keeps_bind {A B} (m : M A) (k : A -> M B) :
  keeps m -> (forall a, keeps (k a)) -> keeps (m ≫= k).
Proof.
  intros Hm Hk t Ht. unfold mbind, M_bind.
  specialize (Hm t Ht). destruct (m t) as [[e | a] t']; simpl in *;
    [exact Hm | now apply Hk].
Qed.

Lemma keeps_try {A} (body : M A) handler :
  keeps body -> (forall e, keeps (handler e)) -> keeps (try body handler).
Proof.
  intros Hb Hh t Ht. unfold try.
  specialize (Hb t Ht). destruct (body t) as [[[e |] | a] t']; simpl in *;
    [now apply Hh | exact Hb | exact Hb].
Qed.

Lemma keeps_when b m : keeps m -> keeps (when b m).
Proof. intros Hm. destruct b; [exact Hm | apply keeps_ret]. Qed.

Create HintDb keeping.

#[local] Hint Resolve keeps_ret keeps_throw keeps_lift keeps_log
  keeps_modifyResults keeps_getTester keeps_makeRequest keeps_when : keeping.

Ltac keeping :=
  repeat first
    [ progress auto with keeping
    | apply keeps_bind; [| intros ?]
    | apply keeps_try; [| intros ?]
    | match goal with
      | |- keeps (match ?x with _ => _ end) => destruct x
      | |- keeps (if ?x then _ else _) => destruct x
      | |- keeps (let '(_, _) := ?x in _) => destruct x
      end ].

Lemma keeps_blockNumberCalls n results http2Detected :
  keeps (blockNumberCalls n results http2Detected).
Proof.
  revert results http2Detected.
  induction n as [| n IH]; intros results http2Detected; simpl;
    unfold throwIfError, requireResult; keeping.
Qed.

Lemma keeps_balanceCalls addresses : keeps (balanceCalls addresses).
Proof.
  induction addresses as [| address rest IH]; simpl;
    unfold throwIfError, requireResult; keeping.
Qed.

Lemma keeps_sumBaseFees fees sum : keeps (sumBaseFees fees sum).
Proof.
  revert sum. induction fees as [| fee rest IH]; intros sum; simpl;
    unfold gwei; keeping.
Qed.

#[local] Hint Resolve keeps_blockNumberCalls keeps_balanceCalls
  keeps_sumBaseFees : keeping.

Lemma keeps_probes :
  keeps testChainId /\ keeps testBlockNumber /\ keeps testGetBalance /\
  keeps testFeeHistory /\ keeps testGasPrice.
Proof.
  split; [| split; [| split; [| split]]].
  - unfold testChainId, throwIfError, requireResult, failed_. keeping.
  - unfold testBlockNumber, failed_. keeping.
  - unfold testGetBalance, failed_. keeping.
  - unfold testFeeHistory, feeHistoryCalls, feeHistoryReport, reportRewards,
      setEip1559, requireResult, gwei, failed_.
    keeping.
  - unfold testGasPrice, throwIfError, requireResult, gwei, failed_. keeping.
Qed.

Lemma keeps_runTests suite testResults :
  (forall test, test ∈ suite -> keeps (fn test)) ->
  keeps (runTests suite testResults).
Proof.
  revert testResults. induction suite as [| test rest IH];
    intros testResults Hsuite; simpl; [apply keeps_ret |].
  apply keeps_bind.
  - apply keeps_try; [| intros e; keeping].
    apply keeps_bind; [apply Hsuite, list_elem_of_here | intros b; keeping].
  - intros r. apply IH. intros test' Hin. apply Hsuite.
    now apply list_elem_of_further.
Qed.

Lemma keeps_runAllTests : keeps runAllTests.
Proof.
  unfold runAllTests, runAllTestsOf.
  destruct keeps_probes as (H1 & H2 & H3 & H4 & H5).
  apply keeps_bind; [apply keeps_getTester | intros this].
  do 5 (apply keeps_bind; [apply keeps_log | intros _]).
  apply keeps_bind.
  - apply keeps_runTests. intros test Hin. unfold theTests in Hin.
    repeat (apply elem_of_cons in Hin as [-> | Hin]; [assumption |]).
    now apply elem_of_nil in Hin.
  - intros testResults. keeping.
Qed.

Lemma request_ids_numbering args :
  id <$> (main args).2 = Z.of_nat <$> seq 1 (length (main args).2).
Proof.
  unfold main. destruct args as [| rpcUrl rest]; [reflexivity |].
  destruct (protocolOf rpcUrl) as [protocol |]; [| reflexivity].
  set (tester := newTester _ _ _).
  assert (wellNumbered tester) as Ht by (split; reflexivity).
  apply keeps_runAllTests in Ht.
  destruct (runAllTests tester) as [[[e |] | testResults] t']; apply Ht.
Qed.

(** X1.  In a run of [main], the requests written to the endpoint carry the
    ids 1, 2, 3, ... in the order they are sent: every request has an id of
    its own and the ids increase by one. *)
Theorem request_ids_count_from_one args :
  id <$> (main args).2 = Z.of_nat <$> seq 1 (length (main args).2) /\
  forall i j a b,
    (main args).2 !! i = Some a -> (main args).2 !! j = Some b ->
    (i < j)%nat -> id a < id b.
Proof.
  pose proof (request_ids_numbering args) as Hids.
  split; [exact Hids |].
  intros i j a b Ha Hb Hij.
  assert (forall k r, (main args).2 !! k = Some r -> id r = Z.of_nat (S k)) as Hk.
  { intros k r Hr.
    assert ((id <$> (main args).2) !! k = Some (id r)) as H
      by (rewrite list_lookup_fmap, Hr; reflexivity).
    rewrite Hids, list_lookup_fmap in H.
    apply lookup_lt_Some in Hr.
    rewrite lookup_seq_lt in H by exact Hr. simpl in H. congruence. }
  rewrite (Hk _ _ Ha), (Hk _ _ Hb). lia.
Qed.

(** ** The gas-price probe *)

Definition gasPriceRequest (t : RPCTester) : JsonRpcRequest :=
  {| method := "eth_gasPrice"; params := []; id := requestId t + 1 |}.

Lemma wire_testGasPrice t :
  wire (testGasPrice t).2 = wire t ++ [gasPriceRequest t].
Proof.
  unfold testGasPrice.
  rewrite (bind_returns (log _) _ t tt _ eq_refl).
  rewrite after_try by apply wire_failed.
  rewrite after_bind; [| intros response; quiet].
  unfold makeRequest. simpl. fold (gasPriceRequest t).
  now destruct (send (gasPriceRequest t)).
Qed.

(** X3.  The gas-price probe sends one [eth_gasPrice] request without
    parameters and leaves the results of the tester alone.  It passes exactly
    when the call comes back without an error and with a non-empty result
    that [BigInt] accepts.  It is suspended exactly when the call stays
    pending.  In every other case (a rejected request, an error, a missing or
    empty result, a result that is not an integer literal) it fails. *)
Theorem gas_price_passes_iff_integer_result t :
  let request :=
    {| method := "eth_gasPrice"; params := []; id := requestId t + 1 |} in
  let read :=
    exists s wei,
      succeededWith (send (T := string) request) s /\
      JS.StringToBigInt s = Some wei in
  wire (testGasPrice t).2 = wire t ++ [request] /\
  results (testGasPrice t).2 = results t /\
  ((testGasPrice t).1 = inr true <-> read) /\
  ((testGasPrice t).1 = inl Suspended <->
   send (T := string) request = Pending) /\
  ((testGasPrice t).1 = inr false <->
   ~ read /\ send (T := string) request <> Pending).
Proof.
  cbv zeta. fold (gasPriceRequest t).
  change (exists s wei,
            succeededWith (send (T := string) (gasPriceRequest t)) s /\
            JS.StringToBigInt s = Some wei)
    with (balanceRead (gasPriceRequest t)).
  split; [apply wire_testGasPrice |]. split; [apply results_testGasPrice |].
  unfold testGasPrice, makeRequest, throwIfError, requireResult, gwei, lift,
    JS.BigInt, try, mbind, M_bind.
  simpl. fold (gasPriceRequest t).
  destruct (balanceRead_dec (gasPriceRequest t)) as [Hyes | Hno].
  - pose proof Hyes as (s & wei & (r & Hsend & He & Hr & Ht) & Hwei).
    rewrite Hsend. simpl. rewrite He, Hr, Ht. simpl. rewrite Hwei. simpl.
    repeat split; intros; easy.
  - destruct (send (gasPriceRequest t)) as [r | e |] eqn:Hsend; simpl;
      [| repeat split; intros; try easy; try tauto..].
    destruct (error r) as [e |] eqn:He; simpl;
      [repeat split; intros; try easy; try tauto |].
    destruct (result r) as [s |] eqn:Hr; simpl;
      [| repeat split; intros; try easy; try tauto].
    destruct (truthy s) eqn:Ht; simpl;
      [| repeat split; intros; try easy; try tauto].
    destruct (JS.StringToBigInt s) as [wei |] eqn:Hwei; simpl;
      [| repeat split; intros; try easy; try tauto].
    exfalso. apply Hno. exists s, wei. split; [exists r; auto | exact Hwei].
Qed.

(** ** The chain-identity probe: what it sends and records *)

Lemma wire_testChainId t :
  wire (testChainId t).2 = wire t ++ [chainIdRequest t].
Proof.
  unfold testChainId.
  rewrite (bind_returns (log _) _ t tt _ eq_refl).
  rewrite after_try by apply wire_failed.
  rewrite after_bind; [| intros response; quiet].
  unfold makeRequest. simpl. fold (chainIdRequest t).
  now destruct (send (chainIdRequest t)).
Qed.


(** ** The balance probe: order and verdict *)

(** X13.  The balance probe asks for the balance of the zero address first,
    with the "latest" tag.  If that query brings no integer (it is rejected,
    errors, has no result or one that is not an integer, or stays pending)
    the probe sends nothing more: it is suspended when the query stays
    pending and returns [false] otherwise.  If it brings one the probe asks
    for the balance of [TEST_ADDRESS], the configured address when there is
    one; it passes exactly when that second query brings an integer too, is
    suspended exactly when it stays pending, and fails otherwise. *)
Theorem balance_probe_stops_at_first_failure t :
  let first := balanceRequest zeroAddress (requestId t + 1) in
  let second := balanceRequest TEST_ADDRESS (requestId t + 1 + 1) in
  (~ balanceRead first ->
   wire (testGetBalance t).2 = wire t ++ [first] /\
   ((testGetBalance t).1 = inl Suspended <->
    send (T := string) first = Pending) /\
   ((testGetBalance t).1 = inr false <->
    send (T := string) first <> Pending)) /\
  (balanceRead first ->
   wire (testGetBalance t).2 = wire t ++ [first; second] /\
   ((testGetBalance t).1 = inr true <-> balanceRead second) /\
   ((testGetBalance t).1 = inl Suspended <->
    send (T := string) second = Pending) /\
   ((testGetBalance t).1 = inr false <->
    ~ balanceRead second /\ send (T := string) second <> Pending)) /\
  (forall address,
     FORDEFI_EVM_VAULT_ADDRESS = Some address -> address <> "" ->
     TEST_ADDRESS = address) /\
  params first =
    [JString "0x0000000000000000000000000000000000000000"; JString "latest"] /\
  params second = [JString TEST_ADDRESS; JString "latest"].
Proof.
  cbv zeta. destruct (testGetBalance_requests t) as [Hno Hyes].
  split; [| split; [| split; [| split; reflexivity]]].
  - intros H. destruct (Hno H) as (Hw & Hs & Hf & _). auto.
  - exact Hyes.
  - intros address Henv Hne. unfold TEST_ADDRESS. rewrite Henv.
    destruct (String.eqb_spec address ""); [contradiction | reflexivity].
Qed.

(** ** The block-activity probe: the five calls *)

Definition blockRequest (id : Z) : JsonRpcRequest :=
  {| method := "eth_blockNumber"; params := []; id := id |}.

(** The next [n] block-number requests of a tester whose counter is [from]. *)
Fixpoint blockRequests (from : Z) (n : nat) : list JsonRpcRequest :=
  match n with
  | O => []
  | S n' => blockRequest (from + 1) :: blockRequests (from + 1) n'
  end.

(** The request comes back without an error and with a non-empty result. *)
Definition blockOk (request : JsonRpcRequest) : Prop :=
  exists s, succeededWith (send (T := string) request) s.

(** What the loop keeps of a response; a call that brings none leaves no
    sample, and the value given for it here is never used. *)
Definition sampleOf (request : JsonRpcRequest) : BlockNumberResult :=
  match send (T := string) request with
  | Resolve r =>
      {| blockNumber := JS.parseInt (default "" (result r)) 16;
         brResponseTime := responseTime r;
         brHttpVersion := httpVersion r |}
  | _ =>
      {| blockNumber := JS.NaN; brResponseTime := 0; brHttpVersion := "" |}
  end.

Definition isHttp2 (sample : BlockNumberResult) : bool :=
  String.eqb (brHttpVersion sample) "2.0".

Lemma blockOk_dec request : blockOk request \/ ~ blockOk request.
Proof.
  unfold blockOk.
  destruct (succeededWith_dec (send (T := string) request))
    as [H | Hfail]; [now left |].
  right. intros (s & Hs).
  destruct (succeededWith_only _ _ Hs) as [Hp Hc].
  destruct Hfail as [H | H]; contradiction.
Qed.

Lemma blockNumberCalls_next n results http2Detected t :
  blockOk (blockRequest (requestId t + 1)) ->
  blockNumberCalls (S n) results http2Detected t =
  blockNumberCalls n
    (results ++ [sampleOf (blockRequest (requestId t + 1))])
    (http2Detected || isHttp2 (sampleOf (blockRequest (requestId t + 1))))
    (write (blockRequest (requestId t + 1)) t).
Proof.
  intros (s & r & Hsend & He & Hr & Ht).
  cbn [blockNumberCalls].
  unfold makeRequest, throwIfError, requireResult, isHttp2, sampleOf.
  unfold mbind, M_bind. fold (blockRequest (requestId t + 1)).
  rewrite Hsend. simpl. rewrite He, Hr, Ht. reflexivity.
Qed.

(** A call that brings no result ends the loop: by an exception when the
    call came back, for good when it did not. *)
Lemma blockNumberCalls_stops n results http2Detected t :
  ~ blockOk (blockRequest (requestId t + 1)) ->
  exists stop,
    blockNumberCalls (S n) results http2Detected t =
    (inl stop, write (blockRequest (requestId t + 1)) t) /\
    (stop = Suspended <->
     send (T := string) (blockRequest (requestId t + 1)) = Pending).
Proof.
  intros Hno. cbn [blockNumberCalls].
  unfold makeRequest, throwIfError, requireResult.
  unfold mbind, M_bind. fold (blockRequest (requestId t + 1)).
  destruct (send (blockRequest (requestId t + 1))) as [r | e |] eqn:Hsend;
    simpl; [| eexists; repeat split; (reflexivity || discriminate)..].
  destruct (error r) as [e |] eqn:He; simpl;
    [eexists; repeat split; (reflexivity || discriminate) |].
  destruct (result r) as [s |] eqn:Hr; simpl;
    [| eexists; repeat split; (reflexivity || discriminate)].
  destruct (truthy s) eqn:Ht; simpl;
    [| eexists; repeat split; (reflexivity || discriminate)].
  exfalso. apply Hno. exists s, r. auto.
Qed.

(** The tester after the requests have gone out. *)
Definition written (requests : list JsonRpcRequest) (t : RPCTester) : RPCTester :=
  foldl (fun t request => write request t) t requests.

Lemma written_frame requests t :
  wire (written requests t) = wire t ++ requests /\
  results (written requests t) = results t /\
  console (written requests t) = console t.
Proof.
  revert t. induction requests as [| request rest IH]; intros t; simpl.
  - now rewrite app_nil_r.
  - destruct (IH (write request t)) as (-> & -> & ->). simpl.
    now rewrite <- app_assoc.
Qed.

(** All calls answered: the loop returns the samples of the responses. *)
Lemma blockNumberCalls_all n results http2Detected t :
  Forall blockOk (blockRequests (requestId t) n) ->
  blockNumberCalls n results http2Detected t =
  (inr (results ++ (sampleOf <$> blockRequests (requestId t) n),
        http2Detected ||
        existsb isHttp2 (sampleOf <$> blockRequests (requestId t) n)),
   written (blockRequests (requestId t) n) t).
Proof.
  revert results http2Detected t.
  induction n as [| n IH]; intros results http2Detected t Hall.
  - simpl. now rewrite app_nil_r, orb_false_r.
  - cbn [blockRequests] in *. apply Forall_cons in Hall as [H1 Hrest].
    rewrite (blockNumberCalls_next _ _ _ _ H1).
    rewrite (IH _ _ (write (blockRequest (requestId t + 1)) t) Hrest).
    simpl. now rewrite <- app_assoc, orb_assoc.
Qed.

(** A call that brings no result ends the loop: the requests up to it have
    gone out, the later ones have not. *)
Lemma blockNumberCalls_first_failure n results http2Detected t sent bad rest :
  blockRequests (requestId t) n = sent ++ bad :: rest ->
  Forall blockOk sent -> ~ blockOk bad ->
  exists stop,
    blockNumberCalls n results http2Detected t =
    (inl stop, written (sent ++ [bad]) t) /\
    (stop = Suspended <-> send (T := string) bad = Pending).
Proof.
  revert results http2Detected t sent.
  induction n as [| n IH]; intros results http2Detected t sent Hsplit Hsent Hbad.
  - simpl in Hsplit. now destruct sent.
  - cbn [blockRequests] in Hsplit. destruct sent as [| first sent].
    + simpl in Hsplit. injection Hsplit as <- _.
      now apply blockNumberCalls_stops.
    + simpl in Hsplit. injection Hsplit as <- Hsplit.
      apply Forall_cons in Hsent as [H1 Hsent].
      rewrite (blockNumberCalls_next _ _ _ _ H1).
      apply (IH _ _ (write (blockRequest (requestId t + 1)) t) sent Hsplit Hsent Hbad).
Qed.

Lemma first_failure (requests : list JsonRpcRequest) :
  Forall blockOk requests \/
  exists sent bad rest,
    requests = sent ++ bad :: rest /\ Forall blockOk sent /\ ~ blockOk bad.
Proof.
  induction requests as [| request rest IH]; [left; constructor |].
  destruct (blockOk_dec request) as [Hok | Hbad].
  - destruct IH as [Hall | (sent & bad & rest' & -> & Hsent & Hbad)].
    + left. now constructor.
    + right. exists (request :: sent), bad, rest'. repeat split; auto.
  - right. exists [], request, rest. repeat split; auto.
Qed.

Lemma testBlockNumber_body t :
  testBlockNumber t =
  try
    (calls ← blockNumberCalls (Z.to_nat numCalls) [] false;
     let '(results, http2Detected) :=
       (calls : list BlockNumberResult * bool) in
     match last results with
     | None => throw (JS.Error "No successful block number responses")
     | Some latest =>
         modifyResults (fun r =>
           {| chainId := chainId r; latestBlock := Some (blockNumber latest);
              eip1559 := eip1559 r |});;
         let responseTimes := brResponseTime <$> results in
         let avgResponseTime :=
           JS.fdiv
             (foldl (fun a b => JS.fadd a (JS.Num b)) (JS.Num 0) responseTimes)
             (JS.Num (Z.of_nat (length responseTimes))) in
         let minResponseTime := foldr Z.min (default 0 (head responseTimes)) responseTimes in
         let maxResponseTime := foldr Z.max (default 0 (head responseTimes)) responseTimes in
         log (LatestBlock (blockNumber latest));;
         log (HttpVersion
                (if http2Detected then "HTTP/2"
                 else default "" (brHttpVersion <$> head results)));;
         log (ResponseTimes numCalls);;
         log (Average (JS.toFixed avgResponseTime 2));;
         log (Min minResponseTime);;
         log (Max maxResponseTime);;
         let blockNumbers := blockNumber <$> results in
         when (isIncrementing blockNumbers) (log NetworkActive);;
         mret true
     end)
    failed_ (print blockNumberHeading t).
Proof. reflexivity. Qed.

Lemma testBlockNumber_stopped t stop t1 :
  blockNumberCalls (Z.to_nat numCalls) [] false (print blockNumberHeading t) =
    (inl stop, t1) ->
  wire (testBlockNumber t).2 = wire t1 /\
  results (testBlockNumber t).2 = results t1 /\
  ((testBlockNumber t).1 = inl Suspended <-> stop = Suspended) /\
  ((testBlockNumber t).1 = inr false <-> stop <> Suspended).
Proof.
  intros Hcalls. rewrite testBlockNumber_body.
  unfold try. rewrite (bind_stops _ _ _ _ _ Hcalls).
  destruct stop as [e |]; simpl; repeat split; try discriminate; congruence.
Qed.

Lemma testBlockNumber_passed t collected http2Detected t1 latest :
  blockNumberCalls (Z.to_nat numCalls) [] false (print blockNumberHeading t) =
    (inr (collected, http2Detected), t1) ->
  last collected = Some latest ->
  exists t',
    testBlockNumber t = (inr true, t') /\
    wire t' = wire t1 /\
    results t' =
      {| chainId := chainId (results t1);
         latestBlock := Some (blockNumber latest);
         eip1559 := eip1559 (results t1) |} /\
    exists lines,
      console t' = console t1 ++ lines /\
      HttpVersion (if http2Detected then "HTTP/2"
                   else default "" (brHttpVersion <$> head collected))
        ∈ lines.
Proof.
  intros Hcalls Hlast. rewrite testBlockNumber_body.
  unfold try. rewrite (bind_returns _ _ _ _ _ Hcalls). rewrite Hlast.
  unfold mbind, M_bind, when. simpl.
  destruct (isIncrementing (blockNumber <$> collected)); simpl;
    eexists; (split; [reflexivity |]); simpl;
    (split; [reflexivity |]); (split; [reflexivity |]);
    rewrite <- ?app_assoc; simpl;
    (eexists; split; [reflexivity |]);
    apply list_elem_of_further, list_elem_of_here.
Qed.

(** X4.  The block-activity probe sends up to five [eth_blockNumber]
    requests, one after the other, and stops at the first that brings no
    result: the later requests are never sent and the results are as they
    were.  If that call stays pending the probe is suspended; if it is
    rejected, errors or has no result the probe returns [false].  The probe
    passes exactly when all five calls bring a result; it has then sent the
    five requests and recorded as latest block the number read from the
    fifth response. *)
Theorem block_probe_stops_at_first_failure t :
  let requests := blockRequests (requestId t) 5 in
  ((testBlockNumber t).1 = inr true <-> Forall blockOk requests) /\
  (Forall blockOk requests ->
   wire (testBlockNumber t).2 = wire t ++ requests /\
   exists fifth,
     last requests = Some fifth /\
     results (testBlockNumber t).2 =
       {| chainId := chainId (results t);
          latestBlock := Some (blockNumber (sampleOf fifth));
          eip1559 := eip1559 (results t) |}) /\
  (forall sent bad rest,
     requests = sent ++ bad :: rest -> Forall blockOk sent -> ~ blockOk bad ->
     wire (testBlockNumber t).2 = wire t ++ sent ++ [bad] /\
     results (testBlockNumber t).2 = results t /\
     ((testBlockNumber t).1 = inl Suspended <->
      send (T := string) bad = Pending) /\
     ((testBlockNumber t).1 = inr false <->
      send (T := string) bad <> Pending)).
Proof.
  cbv zeta. set (t0 := print blockNumberHeading t).
  change (requestId t) with (requestId t0).
  assert (Forall blockOk (blockRequests (requestId t0) 5) ->
          (testBlockNumber t).1 = inr true /\
          wire (testBlockNumber t).2 = wire t ++ blockRequests (requestId t0) 5 /\
          exists fifth,
            last (blockRequests (requestId t0) 5) = Some fifth /\
            results (testBlockNumber t).2 =
              {| chainId := chainId (results t);
                 latestBlock := Some (blockNumber (sampleOf fifth));
                 eip1559 := eip1559 (results t) |}) as Hpass.
  { intros Hall.
    pose proof (blockNumberCalls_all 5 [] false t0 Hall) as Hcalls.
    destruct (written_frame (blockRequests (requestId t0) 5) t0)
      as (Hw & Hr & _).
    destruct (testBlockNumber_passed t _ _ _
                (sampleOf (blockRequest (requestId t0 + 1 + 1 + 1 + 1 + 1)))
                Hcalls eq_refl) as (t' & -> & Hw' & Hr' & _).
    cbn [fst snd]. rewrite Hw', Hw, Hr', Hr.
    split; [reflexivity |]. split; [reflexivity |].
    eexists. split; reflexivity. }
  assert (forall sent bad rest,
            blockRequests (requestId t0) 5 = sent ++ bad :: rest ->
            Forall blockOk sent -> ~ blockOk bad ->
            wire (testBlockNumber t).2 = wire t ++ sent ++ [bad] /\
            results (testBlockNumber t).2 = results t /\
            ((testBlockNumber t).1 = inl Suspended <->
             send (T := string) bad = Pending) /\
            ((testBlockNumber t).1 = inr false <->
             send (T := string) bad <> Pending)) as Hfail.
  { intros sent bad rest Hsplit Hsent Hbad.
    destruct (blockNumberCalls_first_failure 5 [] false t0 sent bad rest
                Hsplit Hsent Hbad) as (stop & Hcalls & Hstop).
    destruct (testBlockNumber_stopped t stop _ Hcalls) as (Hw & Hr & Hs & Hf).
    destruct (written_frame (sent ++ [bad]) t0) as (Hw0 & Hr0 & _).
    rewrite Hw, Hr, Hw0, Hr0, Hs, Hf, Hstop. tauto. }
  split; [| split; [| exact Hfail]].
  - split; [| apply Hpass].
    intros Htrue.
    destruct (first_failure (blockRequests (requestId t0) 5))
      as [Hall | (sent & bad & rest & Hsplit & Hsent & Hbad)]; [exact Hall |].
    destruct (Hfail sent bad rest Hsplit Hsent Hbad) as (_ & _ & Hs & Hf).
    rewrite Htrue in Hs, Hf.
    assert (send (T := string) bad <> Pending) as Hp
      by (intros H; apply Hs in H; discriminate).
    apply Hf in Hp. discriminate.
  - intros Hall. destruct (Hpass Hall) as (_ & Hw & Hlast). auto.
Qed.

(** X5.  When the five calls all bring a result, the probe reports HTTP/2 if
    at least one of the five responses came over protocol version "2.0";
    otherwise it reports the version of the first response. *)
Theorem http2_reported_if_any_call_used_it t :
  let samples := sampleOf <$> blockRequests (requestId t) 5 in
  Forall blockOk (blockRequests (requestId t) 5) ->
  HttpVersion
    (if existsb isHttp2 samples then "HTTP/2"
     else default "" (brHttpVersion <$> head samples))
    ∈ printed testBlockNumber t.
Proof.
  cbv zeta. set (t0 := print blockNumberHeading t).
  change (requestId t) with (requestId t0). intros Hall.
  pose proof (blockNumberCalls_all 5 [] false t0 Hall) as Hcalls.
  destruct (written_frame (blockRequests (requestId t0) 5) t0)
    as (_ & _ & Hc).
  destruct (testBlockNumber_passed t _ _ _
              (sampleOf (blockRequest (requestId t0 + 1 + 1 + 1 + 1 + 1)))
              Hcalls eq_refl) as (t' & E & _ & _ & lines & Hlines & Hin).
  unfold printed. rewrite E. cbn [snd]. rewrite Hlines, Hc.
  unfold t0. simpl. rewrite <- app_assoc, drop_app_length.
  now apply list_elem_of_further.
Qed.

(** ** The summary and the exit *)

Lemma grows_blockNumberCalls n results http2Detected :
  grows (blockNumberCalls n results http2Detected).
Proof.
  revert results http2Detected.
  induction n as [| n IH]; intros results http2Detected; simpl; growing.
Qed.

Lemma grows_balanceCalls addresses : grows (balanceCalls addresses).
Proof.
  induction addresses as [| address rest IH]; simpl; growing.
Qed.

#[local] Hint Resolve grows_blockNumberCalls grows_balanceCalls : growing.

Lemma grows_probes :
  grows testChainId /\ grows testBlockNumber /\ grows testGetBalance /\
  grows testFeeHistory /\ grows testGasPrice.
Proof.
  split; [| split; [| split; [| split]]].
  - unfold testChainId. growing.
  - unfold testBlockNumber. growing.
  - unfold testGetBalance. growing.
  - unfold testFeeHistory, feeHistoryCalls, feeHistoryReport, setEip1559.
    growing.
  - unfold testGasPrice. growing.
Qed.

Lemma grows_runTests suite testResults :
  (forall test, test ∈ suite -> grows (fn test)) ->
  grows (runTests suite testResults).
Proof.
  revert testResults. induction suite as [| test rest IH];
    intros testResults Hsuite; simpl; [apply grows_ret |].
  apply grows_bind.
  - apply grows_try; [| intros e; growing].
    apply grows_bind; [apply Hsuite, list_elem_of_here | intros b; growing].
  - intros r. apply IH. intros test' Hin. apply Hsuite.
    now apply list_elem_of_further.
Qed.

Lemma grows_theTests testResults : grows (runTests theTests testResults).
Proof.
  destruct grows_probes as (H1 & H2 & H3 & H4 & H5).
  apply grows_runTests. intros test Hin. unfold theTests in Hin.
  repeat (apply elem_of_cons in Hin as [-> | Hin]; [assumption |]).
  now apply elem_of_nil in Hin.
Qed.

Lemma last_drop_snoc {A} n (l : list A) x :
  (n <= length l)%nat -> last (drop n (l ++ [x])) = Some x.
Proof. intros Hn. rewrite drop_app_le by exact Hn. apply last_snoc. Qed.

(** The overall judgement, as [runAllTests] words it. *)
Definition judgement (passed tests : Z) : Verdict :=
  if passed =? tests then FullyFunctional
  else if 0 <? passed then PartiallyFunctional
  else Down.

Lemma runAllTestsOf_summary suite t :
  grows (runTests suite noResults) ->
  let run := sequentially suite (started t) in
  pendingAt run = None ->
  Counts (count true (recorded run)) (count false (recorded run))
    ∈ printed (runAllTestsOf suite) t /\
  last (printed (runAllTestsOf suite) t) =
    Some (Summary (judgement (count true (recorded run))
                     (Z.of_nat (length suite)))).
Proof.
  intros Hgrows run Hnone.
  unfold printed, runAllTestsOf, getTester, log, when, mbind, M_bind.
  simpl. fold (started t). rewrite runTests_sequentially. fold run.
  rewrite Hnone. simpl.
  destruct (Hgrows (started t)) as (lines & Hlines & _).
  rewrite runTests_sequentially in Hlines. fold run in Hlines.
  rewrite Hnone in Hlines. simpl in Hlines.
  destruct (tally_counts (recorded run) noResults) as [Hp Hf]. simpl in Hp, Hf.
  rewrite Hp, Hf.
  fold (judgement (count true (recorded run)) (Z.of_nat (length suite))).
  assert (length (console t) <= length (console (final run)))%nat as Hlen
    by (rewrite Hlines; unfold started; simpl; rewrite !length_app; lia).
  destruct (chainId (results (final run))) as [c |];
    destruct (latestBlock (results (final run))) as [b |];
    destruct (eip1559 (results (final run))); simpl;
    repeat match goal with
           | |- context [JS.truthy ?n] => destruct (JS.truthy n); simpl
           end;
    (split;
     [ rewrite Hlines; unfold started; simpl;
       rewrite <- ?app_assoc; simpl; rewrite drop_app_length;
       do 5 apply list_elem_of_further; apply elem_of_app; right;
       do 3 apply list_elem_of_further; apply list_elem_of_here
     | apply last_drop_snoc; rewrite ?length_app; simpl; lia ]).
Qed.

(** With a probe pending, nothing of the summary is on the console. *)
Lemma runAllTestsOf_no_summary suite t pending :
  grows (runTests suite noResults) ->
  pendingAt (sequentially suite (started t)) = Some pending ->
  Forall beforeSummary (printed (runAllTestsOf suite) t).
Proof.
  intros Hgrows Hsome. unfold printed.
  rewrite (runAllTestsOf_pending suite t pending Hsome). cbn [snd].
  destruct (Hgrows (started t)) as (lines & Hlines & Hbefore).
  rewrite runTests_sequentially, Hsome in Hlines. cbn [snd] in Hlines.
  rewrite Hlines. unfold started. simpl.
  rewrite <- !app_assoc. simpl. rewrite drop_app_length.
  repeat (apply Forall_cons; split; [first [exact I | discriminate] |]).
  exact Hbefore.
Qed.

(** X7.  When every probe comes to an end, [runAllTests] ends its output with
    one judgement: fully functional exactly when all five probes passed, down
    or misconfigured exactly when none passed, partially functional exactly
    when some passed and some failed; the counts it prints are the numbers of
    probes that passed and that failed.  When a probe stays pending there is
    no summary: neither its heading, nor the counts, nor a judgement. *)
Theorem summary_judges_by_outcomes t :
  let run := sequentially theTests (started t) in
  let outcomes := recorded run in
  (pendingAt run = None ->
   Counts (count true outcomes) (count false outcomes) ∈ printed runAllTests t /\
   exists v,
     last (printed runAllTests t) = Some (Summary v) /\
     (v = FullyFunctional <->
      forall name outcome, (name, outcome) ∈ outcomes -> outcome = true) /\
     (v = Down <->
      forall name outcome, (name, outcome) ∈ outcomes -> outcome = false) /\
     (v = PartiallyFunctional <->
      (exists name, (name, true) ∈ outcomes) /\
      (exists name, (name, false) ∈ outcomes))) /\
  (forall pending,
     pendingAt run = Some pending ->
     (Title "SUMMARY" ∉ printed runAllTests t) /\
     (forall passed failed, Counts passed failed ∉ printed runAllTests t) /\
     (forall v, Summary v ∉ printed runAllTests t)).
Proof.
  cbv zeta. split.
  - intros Hnone.
    destruct (runAllTestsOf_summary theTests t (grows_theTests noResults) Hnone)
      as [Hcounts Hlast].
    split; [exact Hcounts |]. eexists. split; [exact Hlast |].
    change (Z.of_nat (length theTests)) with 5.
    set (outcomes := recorded (sequentially theTests (started t))).
    pose proof (count_total outcomes) as Htotal.
    assert (length outcomes = 5%nat) as Hfive.
    { pose proof (sequentially_names theTests (started t)) as H.
      cbv zeta in H. rewrite Hnone in H.
      rewrite <- (length_fmap fst). unfold outcomes. now rewrite H. }
    rewrite Hfive in Htotal. change (Z.of_nat 5) with 5 in Htotal.
    assert (0 <= count true outcomes /\ 0 <= count false outcomes) as [Ht Hf]
      by (unfold count; lia).
    rewrite <- (count_zero false outcomes), <- (count_zero true outcomes).
    rewrite <- !count_positive.
    unfold judgement.
    destruct (Z.eqb_spec (count true outcomes) 5);
      destruct (Z.ltb_spec 0 (count true outcomes));
      repeat split; intros; try discriminate; try lia.
  - intros pending Hsome.
    pose proof (runAllTestsOf_no_summary theTests t pending
                  (grows_theTests noResults) Hsome) as Hbefore.
    rewrite Forall_forall in Hbefore.
    split; [| split].
    + intros Hin. now apply (Hbefore _ Hin).
    + intros passed failed Hin. apply (Hbefore _ Hin).
    + intros v Hin. apply (Hbefore _ Hin).
Qed.

(** X8.  [main] exits with 0 or 1, nothing else.  Called without arguments,
    or with an address that [URL] does not accept, it exits with 1 and no
    request is sent. *)
Theorem setup_failure_sends_nothing args :
  ((main args).1.1 = 0 \/ (main args).1.1 = 1) /\
  (args = [] \/ (exists rpcUrl rest, args = rpcUrl :: rest /\ protocolOf rpcUrl = None) ->
   (main args).1.1 = 1 /\ (main args).2 = []).
Proof.
  split.
  - destruct args as [| rpcUrl rest]; [now right |].
    destruct (protocolOf rpcUrl) as [protocol |] eqn:Hurl.
    + rewrite (main_exit _ _ _ Hurl).
      destruct (pendingAt _); [| destruct (0 <? _)]; auto.
    + unfold main. rewrite Hurl. now right.
  - intros [-> | (rpcUrl & rest & -> & Hurl)]; [now split |].
    unfold main. rewrite Hurl. now split.
Qed.

(** ** How many requests a run makes *)

(** The requests among [requests] that call [name]. *)
Definition calls (name : string) (requests : list JsonRpcRequest) : nat :=
  length (filter (fun request => method request = name) requests).

Lemma calls_app name a b : calls name (a ++ b) = (calls name a + calls name b)%nat.
Proof. unfold calls. now rewrite filter_app, length_app. Qed.

Lemma calls_all name requests :
  Forall (fun request => method request = name) requests ->
  calls name requests = length requests.
Proof.
  unfold calls. induction 1 as [| request rest Hr _ IH]; [reflexivity |].
  rewrite filter_cons_True by exact Hr. simpl. now rewrite IH.
Qed.

Lemma calls_none name requests :
  Forall (fun request => method request <> name) requests ->
  calls name requests = 0%nat.
Proof.
  unfold calls. induction 1 as [| request rest Hr _ IH]; [reflexivity |].
  now rewrite filter_cons_False by exact Hr.
Qed.

(** A probe sends between 1 and [hi] requests, all of them calls of [name]. *)
Definition sends {A} (name : string) (hi : nat) (m : M A) : Prop :=
  forall t, exists new,
    wire (m t).2 = wire t ++ new /\
    Forall (fun request => method request = name) new /\
    (1 <= length new <= hi)%nat.

Lemma blockRequests_method from n :
  Forall (fun request => method request = "eth_blockNumber")
    (blockRequests from n).
Proof.
  revert from. induction n as [| n IH]; intros from; simpl;
    constructor; [reflexivity | apply IH].
Qed.

Lemma sends_probes :
  sends "eth_chainId" 1 testChainId /\
  sends "eth_blockNumber" 5 testBlockNumber /\
  sends "eth_getBalance" 2 testGetBalance /\
  sends "eth_feeHistory" 2 testFeeHistory /\
  sends "eth_gasPrice" 1 testGasPrice.
Proof.
  split; [| split; [| split; [| split]]]; intros t.
  - exists [chainIdRequest t]. split; [apply wire_testChainId |].
    split; [now repeat constructor | simpl; lia].
  - set (t0 := print blockNumberHeading t).
    pose proof (blockRequests_method (requestId t0) 5) as Hmethod.
    destruct (first_failure (blockRequests (requestId t0) 5))
      as [Hall | (sent & bad & rest & Hsplit & Hsent & Hbad)].
    + pose proof (blockNumberCalls_all 5 [] false t0 Hall) as Hcalls.
      destruct (testBlockNumber_passed t _ _ _
                  (sampleOf (blockRequest (requestId t0 + 1 + 1 + 1 + 1 + 1)))
                  Hcalls eq_refl) as (t' & -> & Hw & _).
      destruct (written_frame (blockRequests (requestId t0) 5) t0) as (Hw0 & _).
      exists (blockRequests (requestId t0) 5). cbn [snd].
      rewrite Hw, Hw0. split; [reflexivity |].
      split; [exact Hmethod | simpl; lia].
    + destruct (blockNumberCalls_first_failure 5 [] false t0 sent bad rest
                  Hsplit Hsent Hbad) as (stop & Hcalls & _).
      destruct (testBlockNumber_stopped t stop _ Hcalls) as (Hw & _).
      destruct (written_frame (sent ++ [bad]) t0) as (Hw0 & _).
      exists (sent ++ [bad]). rewrite Hw, Hw0. split; [reflexivity |].
      rewrite Hsplit in Hmethod.
      apply Forall_app in Hmethod as [Hs [Hb _]%Forall_cons].
      split; [apply Forall_app; split; [exact Hs | now repeat constructor] |].
      apply (f_equal length) in Hsplit.
      rewrite length_app in *. simpl in *. lia.
  - destruct (testGetBalance_requests t) as [Hno Hyes].
    destruct (balanceRead_dec (balanceRequest zeroAddress (requestId t + 1)))
      as [H | H].
    + destruct (Hyes H) as (Hw & _). eexists. split; [exact Hw |].
      split; [now repeat constructor | simpl; lia].
    + destruct (Hno H) as (Hw & _). eexists. split; [exact Hw |].
      split; [now repeat constructor | simpl; lia].
  - eexists. split; [apply wire_testFeeHistory |].
    destruct (fallsBack t); (split; [now repeat constructor | simpl; lia]).
  - exists [gasPriceRequest t]. split; [apply wire_testGasPrice |].
    split; [now repeat constructor | simpl; lia].
Qed.

Lemma wire_settled test t : wire (settled test t) = wire (fn test t).2.
Proof. unfold settled. now destruct (fn test t) as [[[e |] | b] t']. Qed.

(** Run one after the other, tests with names of their own send what each of
    them sends, up to the one that stays pending. *)
Lemma sends_sequentially suite his t :
  NoDup (name <$> suite) ->
  Forall2 (fun test hi => sends (name test) hi (fn test)) suite his ->
  exists new,
    wire (final (sequentially suite t)) = wire t ++ new /\
    Forall (fun request => method request ∈ name <$> suite) new /\
    (forall i test hi,
       suite !! i = Some test -> his !! i = Some hi ->
       (calls (name test) new <= hi)%nat) /\
    (length new <= sum_list his)%nat /\
    (suite <> [] -> (1 <= length new)%nat) /\
    (pendingAt (sequentially suite t) = None ->
     (length suite <= length new)%nat /\
     forall test, test ∈ suite -> (1 <= calls (name test) new)%nat).
Proof.
  intros Hnd H. revert t.
  induction H as [| test hi suite his Htest _ IH]; intros t.
  { exists []. simpl. rewrite app_nil_r.
    repeat split; try (simpl; lia); easy. }
  rewrite fmap_cons in Hnd. apply NoDup_cons in Hnd as [Hfresh Hnd].
  specialize (IH Hnd).
  destruct (Htest t) as (new1 & Hw1 & Hm1 & Hb1).
  assert (forall test',
            test' ∈ suite -> calls (name test') new1 = 0%nat) as Hothers.
  { intros test' Hin. apply calls_none.
    eapply Forall_impl; [exact Hm1 |]. intros request -> Heq.
    apply Hfresh. rewrite Heq. now apply list_elem_of_fmap_2. }
  destruct (suspended_dec (fn test t).1) as [Hs | Hs].
  - destruct (fn test t) as [r t'] eqn:E. simpl in Hs. subst r.
    rewrite (sequentially_pending _ _ _ _ E). cbn [final pendingAt snd] in *.
    exists new1. split; [exact Hw1 |]. split; [| split; [| split; [| split]]].
    + eapply Forall_impl; [exact Hm1 |]. intros request ->.
      apply list_elem_of_here.
    + intros [| i] test' hi' Hi Hhi; simpl in Hi, Hhi.
      * injection Hi as <-. injection Hhi as <-.
        rewrite (calls_all _ _ Hm1). lia.
      * rewrite Hothers by (eapply list_elem_of_lookup_2; exact Hi). lia.
    + simpl. lia.
    + intros _. lia.
    + discriminate.
  - rewrite sequentially_settled by exact Hs. cbn [final pendingAt].
    destruct (IH (settled test t)) as (new2 & Hw2 & Hm2 & Hc2 & Hl2 & _ & Hp2).
    rewrite wire_settled, Hw1, <- app_assoc in Hw2.
    assert (calls (name test) new2 = 0%nat) as Hhead.
    { apply calls_none. eapply Forall_impl; [exact Hm2 |].
      intros request Hin Heq. apply Hfresh. now rewrite <- Heq. }
    exists (new1 ++ new2). split; [exact Hw2 |].
    split; [| split; [| split; [| split]]].
    + apply Forall_app. split.
      * eapply Forall_impl; [exact Hm1 |]. intros request ->.
        apply list_elem_of_here.
      * eapply Forall_impl; [exact Hm2 |]. intros request Hin.
        now apply list_elem_of_further.
    + intros [| i] test' hi' Hi Hhi; simpl in Hi, Hhi; rewrite calls_app.
      * injection Hi as <-. injection Hhi as <-.
        rewrite (calls_all _ _ Hm1), Hhead. lia.
      * rewrite Hothers by (eapply list_elem_of_lookup_2; exact Hi).
        apply (Hc2 i test' hi' Hi Hhi).
    + rewrite length_app. simpl. lia.
    + intros _. rewrite length_app. lia.
    + intros Hnone. destruct (Hp2 Hnone) as [Hlen Hcalls].
      split; [rewrite length_app; simpl; lia |].
      intros test' [-> | Hin]%elem_of_cons; rewrite calls_app.
      * rewrite (calls_all _ _ Hm1). lia.
      * specialize (Hcalls test' Hin). lia.
Qed.

Lemma main_wire rpcUrl rest protocol :
  protocolOf rpcUrl = Some protocol ->
  (main (rpcUrl :: rest)).2 =
  wire (final (sequentially theTests
                 (started (newTester rpcUrl (expectedOf rest) protocol)))).
Proof.
  intros Hurl. unfold main. rewrite Hurl. fold (expectedOf rest).
  unfold runAllTests.
  destruct (pendingAt (sequentially theTests
              (started (newTester rpcUrl (expectedOf rest) protocol))))
    as [pending |] eqn:Hp.
  - now rewrite (runAllTestsOf_pending _ _ pending Hp).
  - destruct (runAllTestsOf_run theTests
                (newTester rpcUrl (expectedOf rest) protocol) Hp)
      as (t' & -> & _ & Hw).
    exact Hw.
Qed.

(** Against an endpoint that leaves no request unanswered no probe is
    suspended. *)
Lemma responsive_settles test :
  responsive -> test ∈ theTests -> settles (fn test).
Proof.
  intros Hresp Hin t E.
  destruct (fn test t) as [r t'] eqn:Efn. simpl in E. subst r.
  destruct (stalls_probes test Hin t t' Efn) as (request & _ & Hun).
  now apply (Hresp request).
Qed.

Lemma sequentially_all_settle suite t :
  (forall test, test ∈ suite -> settles (fn test)) ->
  pendingAt (sequentially suite t) = None.
Proof.
  revert t. induction suite as [| test rest IH]; intros t Hsuite;
    [reflexivity |].
  rewrite sequentially_settled by apply Hsuite, list_elem_of_here.
  cbn [pendingAt]. apply IH. intros test' Hin. apply Hsuite.
  now apply list_elem_of_further.
Qed.

(** X14.  A run of [main] calls [eth_chainId] at most once, [eth_blockNumber]
    at most five times, [eth_getBalance] and [eth_feeHistory] at most twice
    each and [eth_gasPrice] at most once: no call is tried again, and at
    most 11 requests go out.  Once the address is accepted at least one does;
    against an endpoint that leaves no request unanswered each of the five
    methods is called at least once, however the probes before it ended. *)
Theorem requests_bounded_per_method args :
  let sent := (main args).2 in
  (calls "eth_chainId" sent <= 1)%nat /\
  (calls "eth_blockNumber" sent <= 5)%nat /\
  (calls "eth_getBalance" sent <= 2)%nat /\
  (calls "eth_feeHistory" sent <= 2)%nat /\
  (calls "eth_gasPrice" sent <= 1)%nat /\
  (length sent <= 11)%nat /\
  (forall rpcUrl rest protocol,
     args = rpcUrl :: rest -> protocolOf rpcUrl = Some protocol ->
     (1 <= length sent)%nat /\
     (responsive ->
      (5 <= length sent)%nat /\
      forall name, name ∈ probeNames -> (1 <= calls name sent)%nat)).
Proof.
  cbv zeta.
  destruct args as [| rpcUrl rest];
    [repeat split; try (cbn; lia); intros; discriminate |].
  destruct (protocolOf rpcUrl) as [protocol |] eqn:Hurl; cycle 1.
  { unfold main. rewrite Hurl.
    repeat split; try (cbn; lia); intros; congruence. }
  rewrite (main_wire _ rest _ Hurl).
  set (t0 := started (newTester rpcUrl (expectedOf rest) protocol)).
  destruct sends_probes as (H1 & H2 & H3 & H4 & H5).
  destruct (sends_sequentially theTests [1; 5; 2; 2; 1]%nat t0)
    as (new & -> & _ & Hcalls & Hlen & Hone & Hall).
  { apply probeNames_NoDup. }
  { unfold theTests. repeat constructor; assumption. }
  change (wire t0) with (@nil JsonRpcRequest). rewrite app_nil_l.
  pose proof (Hcalls 0%nat _ _ eq_refl eq_refl) as C1.
  pose proof (Hcalls 1%nat _ _ eq_refl eq_refl) as C2.
  pose proof (Hcalls 2%nat _ _ eq_refl eq_refl) as C3.
  pose proof (Hcalls 3%nat _ _ eq_refl eq_refl) as C4.
  pose proof (Hcalls 4%nat _ _ eq_refl eq_refl) as C5.
  cbn [name] in C1, C2, C3, C4, C5. simpl in Hlen.
  do 5 (split; [assumption |]). split; [exact Hlen |].
  intros rpcUrl' rest' protocol' [= <- <-] Hurl'.
  split; [now apply Hone |].
  intros Hresp.
  destruct Hall as [Hfive Heach].
  { apply sequentially_all_settle. intros test Hin.
    now apply responsive_settles. }
  split; [exact Hfive |].
  intros name Hin. unfold probeNames in Hin.
  repeat (apply elem_of_cons in Hin as [-> | Hin];
          [match goal with
           | |- (1 <= calls ?n _)%nat =>
               match goal with
               | |- _ =>
                   refine (Heach {| name := n; fn := _ |} _);
                   unfold theTests;
                   repeat first [apply list_elem_of_here
                                | apply list_elem_of_further]
               end
           end |]).
  now apply elem_of_nil in Hin.
Qed.

(** ** The fee-history probe: what it reports and what it leaves alone *)

(** A computation whose output begins with [lines]. *)
Definition begins {A} (lines : list Line) (m : M A) : Prop :=
  forall t, exists more, console (m t).2 = console t ++ lines ++ more.

Lemma begins_nil {A} (m : M A) : grows m -> begins [] m.
Proof. intros Hm t. destruct (Hm t) as (more & E & _). now exists more. Qed.

Lemma begins_log {B} line lines (k : unit -> M B) :
  begins lines (k tt) -> begins (line :: lines) (log line ≫= k).
Proof.
  intros Hk t. rewrite (bind_returns (log line) k t tt _ eq_refl).
  destruct (Hk (print line t)) as [more ->]. exists more.
  simpl. now rewrite <- app_assoc.
Qed.

Lemma begins_after {A B} (Q : A -> Prop) lines (m : M A) (k : A -> M B) :
  returns Q m -> preserves console m ->
  (forall a, Q a -> begins lines (k a)) -> begins lines (m ≫= k).
Proof.
  intros Hm Hq Hk t. destruct (Hm t) as (a & t1 & E & Ha).
  rewrite (bind_returns _ _ _ _ _ E).
  destruct (Hk a Ha t1) as [more ->]. exists more.
  specialize (Hq t). rewrite E in Hq. simpl in Hq. now rewrite Hq.
Qed.

Lemma begins_bind_l {A B} lines (m : M A) (k : A -> M B) :
  begins lines m -> (forall a, grows (k a)) -> begins lines (m ≫= k).
Proof.
  intros Hm Hk t. unfold mbind, M_bind.
  destruct (Hm t) as [more E]. destruct (m t) as [[stop | a] t1]; simpl in *.
  - now exists more.
  - destruct (Hk a t1) as (l & -> & _). exists (more ++ l).
    now rewrite E, <- !app_assoc.
Qed.

Lemma begins_try {A} lines (body : M A) handler :
  begins lines body -> (forall e, grows (handler e)) ->
  begins lines (try body handler).
Proof.
  intros Hb Hh t. unfold try.
  destruct (Hb t) as [more E].
  destruct (body t) as [[[e |] | a] t1]; simpl in *;
    [| now exists more..].
  destruct (Hh e t1) as (l & -> & _). exists (more ++ l).
  now rewrite E, <- !app_assoc.
Qed.

Lemma feeHistoryReport_begins response format feeHistory fees latest wei :
  result response = Some feeHistory ->
  baseFeePerGas feeHistory = Some fees ->
  last fees = Some latest ->
  JS.BigInt (hexOrString (Some latest)) = inr wei ->
  begins
    [Eip1559Supported; ParameterFormatUsed format;
     RewardField (nonEmpty (reward feeHistory));
     LatestBaseFee
       (JS.toFixed (JS.fdiv (JS.NumberOfBigInt wei) (JS.Num (10 ^ 9))) 2)]
    (feeHistoryReport response (Some format)).
Proof.
  intros Hres Hbase Hlast Hwei. unfold feeHistoryReport.
  eapply begins_after;
    [apply (requireResult_fee _ _ Hres) | quiet | intros ? <-].
  eapply begins_after;
    [apply returns_modifyResults | now intros t | intros _ _].
  apply begins_bind_l; [| intros _; growing].
  rewrite Hbase. destruct fees as [| fee rest]; [discriminate |].
  rewrite Hlast.
  eapply begins_after;
    [apply (gwei_returns _ _ Hwei) | apply preserves_gwei | intros g <-].
  do 4 apply begins_log. apply begins_nil. growing.
Qed.

Lemma called_frame t :
  results (called t) = results t /\
  console (called t) =
    console t ++
    Testing "eth_feeHistory (EIP-1559 support)" ::
    (if fallsBack t then [TryingNumberFormat] else []).
Proof.
  unfold called. destruct (fallsBack t); simpl; rewrite <- ?app_assoc;
    split; reflexivity.
Qed.


(** X12.  The fee-history probe leaves the gas-model classification as it was
    whenever it ends without a final response to go by or with one it cannot
    use.  If the request of Stage 1, or that of Stage 2 when the fallback is
    attempted, is rejected, the probe prints the reason and fails; if it
    stays pending the probe is suspended.  It fails as well when the final
    error is neither "not found" nor "not supported" (the error's message is
    what it prints), and when the final response has neither an error nor a
    result. *)
Theorem unclassified_failure_keeps_results t :
  (forall reason,
     send (T := FeeHistoryResult) (stage1 t) = Reject reason \/
     fallsBack t = true /\
     send (T := FeeHistoryResult) (stage2 t) = Reject reason ->
     (testFeeHistory t).1 = inr false /\
     results (testFeeHistory t).2 = results t /\
     last (console (testFeeHistory t).2) = Some (Failed (JS.message reason))) /\
  (send (T := FeeHistoryResult) (stage1 t) = Pending \/
   fallsBack t = true /\ send (T := FeeHistoryResult) (stage2 t) = Pending ->
   (testFeeHistory t).1 = inl Suspended /\
   results (testFeeHistory t).2 = results t) /\
  (forall r e,
     answered t = Some r -> error r = Some e ->
     JS.includes (message e) "not found" = false ->
     JS.includes (message e) "not supported" = false ->
     (testFeeHistory t).1 = inr false /\
     results (testFeeHistory t).2 = results t /\
     last (console (testFeeHistory t).2) = Some (Failed (message e))) /\
  (forall r,
     answered t = Some r -> error r = None -> result r = None ->
     (testFeeHistory t).1 = inr false /\
     results (testFeeHistory t).2 = results t /\
     last (console (testFeeHistory t).2) = Some (Failed "No result returned")).
Proof.
  destruct (called_frame t) as [Hr _].
  split; [| split; [| split]].
  - intros reason.
    unfold fallsBack, stage1Error, testFeeHistory.
    unfold feeHistoryCalls, makeRequest, try, mbind, M_bind. simpl.
    fold (stage1 t).
    destruct (send (stage1 t)) as [r1 | e |]; simpl.
    + intros [[=] | [Hfb Hsend]].
      destruct (error r1) as [e1 |]; simpl in *; [| discriminate].
      rewrite Hfb. simpl. fold (stage2 t). rewrite Hsend. simpl.
      repeat split. apply last_snoc.
    + intros [[= ->] | [[=] _]]. repeat split. apply last_snoc.
    + intros [[=] | [[=] _]].
  - unfold fallsBack, stage1Error, testFeeHistory.
    unfold feeHistoryCalls, makeRequest, try, mbind, M_bind. simpl.
    fold (stage1 t).
    destruct (send (stage1 t)) as [r1 | e |]; simpl.
    + intros [[=] | [Hfb Hsend]].
      destruct (error r1) as [e1 |]; simpl in *; [| discriminate].
      rewrite Hfb. simpl. fold (stage2 t). rewrite Hsend. now split.
    + intros [[=] | [[=] _]].
    + intros _. now split.
  - intros r e Ha He Hfound Hsupported.
    assert (unsupported (message e) = false) as Hun
      by (unfold unsupported; now rewrite Hfound, Hsupported).
    rewrite (testFeeHistory_answered t r Ha), He, Hun. cbn [fst snd].
    split; [reflexivity |]. split; [exact Hr | apply last_snoc].
  - intros r Ha He Hres.
    rewrite (testFeeHistory_answered t r Ha), He.
    unfold try, feeHistoryReport, requireResult, mbind, M_bind.
    rewrite Hres. cbn [fst snd throw failed_].
    split; [reflexivity |]. split; [exact Hr | apply last_snoc].
Qed.

End Script.

(** * The properties on concrete endpoints *)

(** A response with a result, and a response with an error. *)
Definition reply {T} (r : T) : Reply T :=
  Resolve {| result := Some r; error := None;
             responseTime := 12; httpVersion := "1.1" |}.

Definition refuse {T} (text : string) : Reply T :=
  Resolve {| result := None;
             error := Some {| code := -32601; message := text |};
             responseTime := 12; httpVersion := "1.1" |}.

(** A tester as [main] makes it for [http://localhost:8545]. *)
Definition fresh : RPCTester := newTester "http://localhost:8545" None "http:".

Definition anyProtocol (url : string) : option string := Some "https:".

(** A healthy endpoint: chain 1, blocks advancing from 100 to 102, one ether
    on every account, a gas price of 1 gwei. *)
Definition healthy : Transport string := fun request =>
  if String.eqb (method request) "eth_chainId" then reply "0x1"
  else if String.eqb (method request) "eth_blockNumber" then
    reply (if id request <? 4 then "0x64"
           else if id request <? 6 then "0x65" else "0x66")
  else if String.eqb (method request) "eth_getBalance" then
    reply "0xde0b6b3a7640000"
  else reply "0x3b9aca00".

Definition feeHistoryOf (baseFees : list StringOrNumber)
    (rewards : option (list (list StringOrNumber))) : FeeHistoryResult :=
  {| baseFeePerGas := Some baseFees; gasUsedRatio := [];
     oldestBlock := "0x1"; reward := rewards |}.

(** An endpoint that wants the block count as a number and then says that
    the method is not supported. *)
Definition typedUnsupported : Transport FeeHistoryResult := fun request =>
  match params request with
  | JString _ :: _ => refuse "invalid argument 0: json: cannot unmarshal string"
  | _ => refuse "the method eth_feeHistory is not supported"
  end.

Lemma final_error_unsupported_passes_witness :
  finalError (feeNet := typedUnsupported) fresh =
    Some "the method eth_feeHistory is not supported" /\
  (testFeeHistory (feeNet := typedUnsupported) fresh).1 = inr true /\
  length (wire (testFeeHistory (feeNet := typedUnsupported) fresh).2) = 2%nat.
Proof.
  split; [reflexivity |].
  destruct (proj1 (final_error_unsupported_passes (feeNet := typedUnsupported)
                     fresh "the method eth_feeHistory is not supported" eq_refl)
              (or_intror eq_refl))
    as (t' & E & _ & Hwire & _).
  rewrite E. cbn [fst snd]. rewrite Hwire. split; reflexivity.
Defined.

(** An endpoint on which every account holds nothing. *)
Definition emptyAccounts : Transport string := fun _ => reply "0x0".

Lemma unconfigured_address_is_queried_witness :
  wire (testGetBalance (net := emptyAccounts) None fresh).2 =
  [ {| method := "eth_getBalance";
       params := [JString "0x0000000000000000000000000000000000000000";
                  JString "latest"]; id := 1 |};
    {| method := "eth_getBalance";
       params := [JString ""; JString "latest"]; id := 2 |} ].
Proof.
  apply (unconfigured_address_is_queried (net := emptyAccounts) None fresh eq_refl).
  exists "0x0", 0. split; [| reflexivity].
  eexists. repeat split; reflexivity.
Defined.

Lemma no_NaN_among (zs : list Z) : JS.NaN ∉ JS.Num <$> zs.
Proof.
  induction zs as [| z zs IH]; simpl.
  - apply not_elem_of_nil.
  - apply not_elem_of_cons. split; [discriminate | exact IH].
Defined.

(** An endpoint whose blocks advance from 100 to 102 over five calls. *)
Definition advancing : Transport string := fun request =>
  reply (if id request <? 3 then "0x64"
         else if id request <? 5 then "0x65" else "0x66").


(** An endpoint whose second block number does not read as hex. *)
Definition garbledOnce : Transport string := fun request =>
  reply (if id request =? 1 then "0x64"
         else if id request =? 2 then "zz" else "0x65").


(** An endpoint without [eth_feeHistory]. *)
Definition notFound : Transport FeeHistoryResult := fun _ =>
  refuse "method not found".

(** An endpoint that answers [eth_chainId] and from then on sends the head of
    a response and closes the connection before its end: the response emits
    no ['end'], the request no ['error'], and the promise of [makeRequest]
    stays pending. *)
Definition hangsOnBlocks : Transport string := fun request =>
  if String.eqb (method request) "eth_chainId" then reply "0x1" else Pending.

(** On such an endpoint the run ends in the second probe: two requests have
    gone out, one outcome is on record, and [runAllTests] never returns. *)
Lemma pending_probe_ends_the_run_witness :
  (runAllTests (net := hangsOnBlocks) (feeNet := notFound) None fresh).1 =
    inl Suspended /\
  method <$> wire (runAllTests (net := hangsOnBlocks) (feeNet := notFound)
                     None fresh).2 =
    ["eth_chainId"; "eth_blockNumber"] /\
  recorded (sequentially (theTests (net := hangsOnBlocks) (feeNet := notFound) None)
              (started fresh)) =
    [("eth_chainId", true)].
Proof.
  destruct (pending_probe_ends_the_run (net := hangsOnBlocks) (feeNet := notFound)
              None
              (testChainId (net := hangsOnBlocks))
              (testBlockNumber (net := hangsOnBlocks))
              (testGetBalance (net := hangsOnBlocks) None)
              (testFeeHistory (feeNet := notFound))
              (testGasPrice (net := hangsOnBlocks)) fresh)
    as (Hpending & _ & _ & _ & Hsuite).
  destruct (Hpending "eth_blockNumber" ltac:(vm_compute; reflexivity))
    as (E & _ & _).
  rewrite Hsuite, E. cbn [fst snd].
  repeat split; vm_compute; reflexivity.
Defined.

(** An endpoint with base fees in both encodings and the three percentiles. *)
Definition eip1559Endpoint : Transport FeeHistoryResult := fun _ =>
  reply (feeHistoryOf
           [Str "0x3b9aca00"; Nbr (JS.Num 1000000000)]
           (Some [[Str "0x3b9aca00"; Str "0x77359400"; Nbr (JS.Num 3000000000)]])).

Lemma successful_result_classified_witness :
  eip1559 (results (testFeeHistory (feeNet := eip1559Endpoint) fresh).2) = Some true /\
  (testFeeHistory (feeNet := eip1559Endpoint) fresh).1 = inr true.
Proof.
  destruct (successful_result_classified (feeNet := eip1559Endpoint) fresh
              _ _ eq_refl eq_refl eq_refl) as (Heip & _ & Hpass & _).
  split; [exact Heip |].
  apply (Hpass _ eq_refl); [discriminate | reflexivity | reflexivity].
Defined.

(** An endpoint that writes a zero base fee as ["0x"], which [BigInt] does
    not accept. *)
Definition bareZero : Transport FeeHistoryResult := fun _ =>
  reply (feeHistoryOf [Str "0x"] None).

(** C6 as stated fails: the call yields a successful result with a base fee,
    [eip1559] is classified [true], and the probe returns [false]. *)
Lemma unreadable_base_fee_fails :
  answered (feeNet := bareZero) fresh =
    Some {| result := Some (feeHistoryOf [Str "0x"] None); error := None;
            responseTime := 12; httpVersion := "1.1" |} /\
  eip1559 (results (testFeeHistory (feeNet := bareZero) fresh).2) = Some true /\
  (testFeeHistory (feeNet := bareZero) fresh).1 = inr false.
Proof. repeat split; reflexivity. Qed.

(** An endpoint that refuses [eth_chainId] and leaves every later request
    unanswered, closing the connection in the middle of the response. *)
Definition refusesThenHangs : Transport string := fun request =>
  if String.eqb (method request) "eth_chainId" then refuse "unauthorized"
  else Pending.

(** On such an endpoint the chain-identity probe is on record as failed, the
    block-activity probe stays pending, and the exit code is 0. *)
Lemma pending_run_exits_with_zero_witness :
  (main (net := refusesThenHangs) (feeNet := notFound) None anyProtocol
     ["https://rpc.example"]).1.1 = 0 /\
  recorded (sequentially
              (theTests (net := refusesThenHangs) (feeNet := notFound) None)
              (started (newTester "https://rpc.example" None "https:"))) =
    [("eth_chainId", false)].
Proof.
  split; [| vm_compute; reflexivity].
  destruct (pending_run_exits_with_zero (net := refusesThenHangs)
              (feeNet := notFound) None anyProtocol
              "https://rpc.example" [] "https:" eq_refl)
    as (Hpending & _).
  exact (proj1 (Hpending "eth_blockNumber" ltac:(vm_compute; reflexivity))).
Defined.

(** An endpoint whose base fee is the number -5. *)
Definition negativeFee : Transport FeeHistoryResult := fun _ =>
  reply (feeHistoryOf [Nbr (JS.Num (-5))] None).


(** An endpoint that returns a single percentile per block. *)
Definition onePercentile : Transport FeeHistoryResult := fun _ =>
  reply (feeHistoryOf [Str "0x3b9aca00"] (Some [[Str "0x3b9aca00"]])).

Lemma short_reward_row_fails_witness :
  (testFeeHistory (feeNet := onePercentile) fresh).1 = inr false /\
  last (console (testFeeHistory (feeNet := onePercentile) fresh).2) =
    Some (Failed "Cannot convert undefined to a BigInt").
Proof.
  destruct (short_reward_row_fails (feeNet := onePercentile) fresh
              _ _ [Str "0x3b9aca00"] [Str "0x3b9aca00"]
              eq_refl eq_refl eq_refl eq_refl ltac:(discriminate) eq_refl
              (or_introl eq_refl))
    as (_ & _ & _ & Hfail & Hprint).
  split; [exact Hfail |].
  destruct (Hprint eq_refl eq_refl) as (t' & E).
  rewrite E. cbn [snd print console]. apply last_snoc.
Defined.

(** The healthy endpoint leaves no request unanswered. *)
Lemma healthy_responsive : responsive (net := healthy) (feeNet := notFound).
Proof.
  intros request. unfold unanswered, send, healthy, notFound, reply, refuse.
  repeat match goal with
         | |- context [if ?c then _ else _] => destruct c
         end; discriminate.
Defined.

Lemma probes_never_throw_witness :
  settled {| name := "eth_chainId"; fn := testChainId (net := healthy) |} fresh =
    (testChainId (net := healthy) fresh).2 /\
  exists passed, (testChainId (net := healthy) fresh).1 = inr passed.
Proof.
  destruct (probes_never_throw (net := healthy) (feeNet := notFound) None
              {| name := "eth_chainId"; fn := testChainId (net := healthy) |}
              fresh (list_elem_of_here _ _))
    as (_ & Hsettled & _ & Hreturns).
  split; [exact Hsettled | exact (Hreturns healthy_responsive)].
Defined.

(** A block-number endpoint whose third response came over HTTP/2. *)
Definition http2Once : Transport string := fun request =>
  Resolve {| result := Some "0x64"; error := None; responseTime := 12;
             httpVersion := if id request =? 3 then "2.0" else "1.1" |}.

Lemma http2Once_answers request : blockOk (net := http2Once) request.
Proof. exists "0x64". eexists. repeat split; reflexivity. Defined.

Lemma http2_reported_if_any_call_used_it_witness :
  HttpVersion "HTTP/2" ∈ printed (testBlockNumber (net := http2Once)) fresh.
Proof.
  apply (http2_reported_if_any_call_used_it (net := http2Once) fresh).
  repeat constructor; apply http2Once_answers.
Defined.


Lemma parseInt_ignores_what_BigInt_rejects_witness :
  JS.parseInt "0x1g" 16 = JS.Num 1 /\
  exists e, JS.BigInt (Some "0x1g") = inl e.
Proof.
  destruct (parseInt_ignores_what_BigInt_rejects "1" "g" EmptyString
              ltac:(discriminate) eq_refl eq_refl)
    as (_ & Hparse & Hthrow & _).
  split; [exact Hparse | exact (Hthrow eq_refl)].
Defined.
